(** * MapBiomas land-cover tabulation: the CSV export script and the animated
    chart script, embedded as functions over an explicit file system.

    - [Float64]  binary64 arithmetic carried by rationals;
    - [Numpy]    the array primitives the scripts call;
    - [Env]      files on disk, exceptions;
    - [Csv]      [mapbiomas_csv.py];
    - [Chart]    [mapbiomas_mudancas_grafico_animado.py]. *)

From stdpp Require Import base list gmap strings pretty sorting.
From Stdlib Require Import ZArith QArith Qpower Qround Qabs Lia Lqa.
From Stdlib Require Import SpecFloat.

Local Open Scope Z_scope.

(* ===================================================================== *)
(** ** binary64 values and their arithmetic *)
(* ===================================================================== *)

(** A finite float is the rational it denotes; every operation computes the
    exact rational result and rounds it to 53 significant bits, ties to
    even.  The exponent is left unbounded: the operations agree with
    binary64 as long as operands and results stay inside its normal range
    (magnitudes from [2^-1022] to below [2^1024], or zero), as the
    quantities of the scripts do (pixel ratios, percentages, calendar
    years, interpolation weights).  Below that range binary64 rounds to
    fewer bits, and above it the operations give an infinity, where the
    conversion of a Python integer raises OverflowError; the statements on
    the accuracy of interpolated percentages and on the frames that are
    made state this range as a hypothesis.  Zero carries no sign. *)
Module Float64.

Inductive float64 : Type :=
| Fin (q : Q)
| PInf
| NInf
| NaN.

(** Nearest integer to [a / b], ties to even ([0 <= a], [0 < b]). *)
Definition rne (a b : Z) : Z :=
  let q := a / b in
  match 2 * (a mod b) ?= b with
  | Lt => q
  | Gt => q + 1
  | Eq => if Z.even q then q else q + 1
  end.

(** [binade n d] is the integer [k] with [2^k <= n/d < 2^(k+1)]
    ([0 < n], [0 < d]). *)
Definition binade (n d : Z) : Z :=
  let k := Z.log2 n - Z.log2 d in
  if d * 2 ^ Z.max 0 k <=? n * 2 ^ Z.max 0 (- k) then k else k - 1.

Definition round53 (x : Q) : Q :=
  let n := Z.abs (Qnum x) in
  let d := Z.pos (Qden x) in
  if n =? 0 then 0%Q
  else
    let e := binade n d - 52 in
    let m := rne (n * 2 ^ Z.max 0 (- e)) (d * 2 ^ Z.max 0 e) in
    Qred (inject_Z (Z.sgn (Qnum x) * m) * Qpower 2 e).

(** Conversion of a (64-bit or Python) integer to a float. *)
Definition of_int (z : Z) : float64 := Fin (round53 (inject_Z z)).

Definition fsgn (a : float64) : Z :=
  match a with
  | Fin x => Z.sgn (Qnum x)
  | PInf => 1
  | NInf => -1
  | NaN => 0
  end.

Definition inf_of_sign (s : Z) : float64 :=
  match s with
  | Z0 => NaN
  | Zpos _ => PInf
  | Zneg _ => NInf
  end.

Definition fopp (a : float64) : float64 :=
  match a with
  | Fin x => Fin (- x)
  | PInf => NInf
  | NInf => PInf
  | NaN => NaN
  end.

Definition fadd (a b : float64) : float64 :=
  match a, b with
  | Fin x, Fin y => Fin (round53 (x + y))
  | NaN, _ | _, NaN => NaN
  | PInf, NInf | NInf, PInf => NaN
  | PInf, _ | _, PInf => PInf
  | NInf, _ | _, NInf => NInf
  end.

Definition fsub (a b : float64) : float64 := fadd a (fopp b).

Definition fmul (a b : float64) : float64 :=
  match a, b with
  | Fin x, Fin y => Fin (round53 (x * y))
  | NaN, _ | _, NaN => NaN
  | _, _ => inf_of_sign (fsgn a * fsgn b)
  end.

(** Division with the IEEE results for a zero divisor, as numpy's
    [true_divide] returns them (a warning, no exception). *)
Definition fdiv (a b : float64) : float64 :=
  match a, b with
  | Fin x, Fin y =>
      if Qeq_bool y 0 then inf_of_sign (Z.sgn (Qnum x))
      else Fin (round53 (x / y))
  | NaN, _ | _, NaN => NaN
  | Fin _, _ => Fin 0
  | _, Fin y => inf_of_sign (fsgn a * (if Qeq_bool y 0 then 1 else fsgn b))
  | _, _ => NaN
  end.

Definition is_finite (a : float64) : bool :=
  match a with Fin _ => true | _ => false end.

(** [a >= b], false as soon as a NaN is involved. *)
Definition fge (a b : float64) : bool :=
  match a, b with
  | NaN, _ | _, NaN => false
  | PInf, _ | _, NInf => true
  | _, PInf | NInf, _ => false
  | Fin x, Fin y => Qle_bool y x
  end.

End Float64.
Export Float64.

(* ===================================================================== *)
(** ** numpy primitives *)
(* ===================================================================== *)

Module Numpy.

Definition count_of (v : Z) (a : list Z) : Z :=
  Z.of_nat (length (filter (λ x, x = v) a)).

(** [numpy.unique(a, return_counts=True)]: the distinct values in
    ascending order, and how often each occurs. *)
Definition np_unique (a : list Z) : list Z * list Z :=
  let unique := merge_sort Z.le (remove_dups a) in
  (unique, map (λ v, count_of v a) unique).

(** [a != v], element-wise. *)
Definition np_ne (a : list Z) (v : Z) : list bool :=
  map (λ x, negb (x =? v)) a.

(** [a[mask]] for a boolean mask of the same length. *)
Fixpoint bool_index {A} (a : list A) (mask : list bool) : list A :=
  match a, mask with
  | x :: a', b :: mask' =>
      if b then x :: bool_index a' mask' else bool_index a' mask'
  | _, _ => []
  end.

(** [numpy.sum] of an integer array; the sum of an empty array is [0].
    The arrays summed here hold pixel counts of one in-memory band, so the
    64-bit accumulator cannot wrap. *)
Definition np_sum (a : list Z) : Z := foldr Z.add 0 a.

(** [x / y] on two numpy integers: both become floats, then IEEE
    division. *)
Definition np_true_divide (x y : Z) : float64 := fdiv (of_int x) (of_int y).

End Numpy.
Export Numpy.

(* ===================================================================== *)
(** ** Files, exceptions, console *)
(* ===================================================================== *)

Module Env.

(** One legend record, [{"PT": ..., "HEX_COL": ...}]. *)
Record legend_entry : Type := { PT : string; HEX_COL : string }.

(** What a path can hold: a single-band integer raster (its band 1 as a
    grid of class codes), a legend document of the fixed shape
    [{code: {"PT", "HEX_COL"}}], or bytes that are neither. *)
Inductive disk_file : Type :=
| RasterFile (band1 : list (list Z))
| JsonFile (legend : gmap string legend_entry)
| Garbage.

Inductive exn : Type :=
| FileNotFoundError (path : string)
| JSONDecodeError (path : string)
| RasterioIOError (path : string)
| KeyError (key : string)
| IndexError.

(** [os.path.exists]. *)
Definition path_exists (fs : gmap string disk_file) (path : string) : bool :=
  bool_decide (is_Some (fs !! path)).

(** [open(path)] followed by [json.load]. *)
Definition json_load (fs : gmap string disk_file) (path : string)
  : exn + gmap string legend_entry :=
  match fs !! path with
  | None => inl (FileNotFoundError path)
  | Some (JsonFile legend) => inr legend
  | Some _ => inl (JSONDecodeError path)
  end.

(** [rasterio.open(path)] followed by [src.read(1)]. *)
Definition rasterio_read1 (fs : gmap string disk_file) (path : string)
  : exn + list (list Z) :=
  match fs !! path with
  | Some (RasterFile band1) => inr band1
  | _ => inl (RasterioIOError path)
  end.

(** A template with one substitution point, [prefix{}suffix], and
    [template.format(year)]. *)
Definition str_format (template : string * string) (year : Z) : string :=
  template.1 +:+ pretty year +:+ template.2.

(** The lines the scripts print, one constructor per [print] statement,
    carrying the values that the f-string interpolates. *)
Inductive msg : Type :=
| ErroJson (e : exn)
| ArquivoNaoEncontrado (raster_path : string)
| ProcessandoAno (year : Z)
| AnoProcessado (year : Z) (total_px : Z)
| NumeroDeClasses (n : nat)
| Top5Classes (nomes : list string)
| ErroAoProcessar (year : Z) (e : exn)
| DataframeFinalCriado (registros : nat)
| ArquivoCsvSalvo (csv_path : string)
| NenhumDadoProcessado.

End Env.
Export Env.

(* ===================================================================== *)
(** ** mapbiomas_csv.py *)
(* ===================================================================== *)

Module Csv.

Record row : Type :=
  { ano : Z; classe : Z; num_px : Z; porc_rel : float64 }.

(** [pd.DataFrame({'ano': year, 'classe': .., 'num_px': .., 'porc_rel': ..})]:
    the scalar is broadcast along the three columns. *)
Fixpoint data_frame (year : Z) (cls cnt : list Z) (pct : list float64)
  : list row :=
  match cls, cnt, pct with
  | c :: cls', n :: cnt', p :: pct' =>
      {| ano := year; classe := c; num_px := n; porc_rel := p |}
        :: data_frame year cls' cnt' pct'
  | _, _, _ => []
  end.

(** [df.sort_values('num_px', ascending=False)]. pandas leaves the order
    of rows with equal counts open; the merge sort used here keeps one. *)
Definition num_px_desc (r1 r2 : row) : Prop := num_px r2 <= num_px r1.
Global Instance num_px_desc_dec : RelDecision num_px_desc :=
  λ r1 r2, decide (num_px r2 <= num_px r1).
Definition sort_by_num_px : list row → list row := merge_sort num_px_desc.

(** [df.sort_values(['ano', 'num_px'], ascending=[True, False])]. *)
Definition ano_asc_num_px_desc (r1 r2 : row) : Prop :=
  ano r1 < ano r2 ∨ (ano r1 = ano r2 ∧ num_px r2 <= num_px r1).
Global Instance ano_asc_num_px_desc_dec : RelDecision ano_asc_num_px_desc :=
  λ r1 r2,
    decide (ano r1 < ano r2 ∨ (ano r1 = ano r2 ∧ num_px r2 <= num_px r1)).
Definition sort_by_ano_num_px : list row → list row :=
  merge_sort ano_asc_num_px_desc.

Definition load_legend (fs : gmap string disk_file) (json_path : string)
  : gmap string legend_entry * list msg :=
  match json_load fs json_path with
  | inr legend_data => (legend_data, [])
  | inl e => (∅, [ErroJson e])
  end.

Definition process_raster_for_csv (fs : gmap string disk_file)
    (raster_path : string) (year : Z)
    (legend_data : gmap string legend_entry) : exn + list row :=
  match rasterio_read1 fs raster_path with
  | inl e => inl e
  | inr raster_data =>
      let '(unique, counts) := np_unique (concat raster_data) in
      let mask := np_ne unique 0 in
      let unique_filtered := bool_index unique mask in
      let counts_filtered := bool_index counts mask in
      let total_pixels := np_sum counts_filtered in
      let percentages :=
        map (λ count, fmul (np_true_divide count total_pixels) (of_int 100))
            counts_filtered in
      let df := data_frame year unique_filtered counts_filtered percentages in
      inr (sort_by_num_px df)
  end.

Definition json_path : string :=
  "C:\Users\mateu\OneDrive\Projetos\FIAT_FIRMS\FIAT_FIRMS-dados\dicionarios_json\mapbiomas_colec_10.json".
Definition base_raster_path : string * string :=
  ("C:\Users\mateu\OneDrive\Projetos\FIAT_FIRMS\FIAT_FIRMS-dados\tiff\mapbiomas_cerradoSP_1985_2024_30m\classificacao_",
   ".tif").
Definition csv_path : string :=
  "C:\Users\mateu\OneDrive\Projetos\FIAT_FIRMS\FIAT_FIRMS-CIC_2025\resultados\classes_mapbiomas_1985-2024.csv".

(** [list(range(1985, 2025))]. *)
Definition years : list Z := (λ i, 1985 + Z.of_nat i) <$> seq 0 40.

(** One iteration of the year loop, on the pair
    ([all_dataframes], console so far). *)
Definition year_step (fs : gmap string disk_file)
    (legend_data : gmap string legend_entry)
    (st : list (list row) * list msg) (year : Z)
  : list (list row) * list msg :=
  let '(all_dataframes, out) := st in
  let raster_path := str_format base_raster_path year in
  if negb (path_exists fs raster_path) then
    (all_dataframes, out ++ [ArquivoNaoEncontrado raster_path])
  else
    let out := out ++ [ProcessandoAno year] in
    match process_raster_for_csv fs raster_path year legend_data with
    | inr df_ano =>
        (all_dataframes ++ [df_ano],
         out ++ [AnoProcessado year (np_sum (num_px <$> df_ano));
                 NumeroDeClasses (length df_ano)])
    | inl e => (all_dataframes, out ++ [ErroAoProcessar year e])
    end.

(** A cell of the written table, and [to_csv(index=False)]: the header
    line with the column names, then one line per row. *)
Inductive cell : Type :=
| CStr (s : string)
| CInt (z : Z)
| CFloat (f : float64).

Definition columns : list string := ["ano"; "classe"; "num_px"; "porc_rel"].

Definition csv_line (r : row) : list cell :=
  [CInt (ano r); CInt (classe r); CInt (num_px r); CFloat (porc_rel r)].

Definition to_csv (df : list row) : list (list cell) :=
  (CStr <$> columns) :: (csv_line <$> df).

Record run : Type :=
  { final_df : option (list row);
    csv_file : option (list (list cell));
    stdout : list msg }.

(** The script from top to bottom.  The summary statistics printed after
    the file is written are left out. *)
Definition main (fs : gmap string disk_file) : run :=
  let '(legend_data, out0) := load_legend fs json_path in
  let '(all_dataframes, out) :=
    foldl (year_step fs legend_data) ([], out0) years in
  match all_dataframes with
  | [] => {| final_df := None; csv_file := None;
             stdout := out ++ [NenhumDadoProcessado] |}
  | _ =>
      let final_df := sort_by_ano_num_px (concat all_dataframes) in
      {| final_df := Some final_df;
         csv_file := Some (to_csv final_df);
         stdout := out ++ [DataframeFinalCriado (length final_df);
                           ArquivoCsvSalvo csv_path] |}
  end.

End Csv.

(* ===================================================================== *)
(** ** mapbiomas_mudancas_grafico_animado.py *)
(* ===================================================================== *)

Module Chart.

Record row : Type :=
  { classe : Z; cont_px : Z; porcent : float64;
    nome_pt : string; cor_hex : string }.

(** Rows of the unified table. *)
Module Unified.
Record row : Type :=
  { year : Z; classe : Z; porcent : float64;
    nome_pt : string; cor_hex : string; rank : Z }.
End Unified.

Fixpoint data_frame (cls cnt : list Z) (pct : list float64)
    (nomes cores : list string) : list row :=
  match cls, cnt, pct, nomes, cores with
  | c :: cls', n :: cnt', p :: pct', nm :: nomes', co :: cores' =>
      {| classe := c; cont_px := n; porcent := p;
         nome_pt := nm; cor_hex := co |}
        :: data_frame cls' cnt' pct' nomes' cores'
  | _, _, _, _, _ => []
  end.

(** [df.sort_values('cont_px', ascending=False)]. *)
Definition cont_px_desc (r1 r2 : row) : Prop := cont_px r2 <= cont_px r1.
Global Instance cont_px_desc_dec : RelDecision cont_px_desc :=
  λ r1 r2, decide (cont_px r2 <= cont_px r1).
Definition sort_by_cont_px : list row → list row := merge_sort cont_px_desc.

Definition load_legend (fs : gmap string disk_file) (json_path : string)
  : gmap string legend_entry * list msg :=
  match json_load fs json_path with
  | inr legend_data => (legend_data, [])
  | inl e => (∅, [ErroJson e])
  end.

(** The body of the legend loop for one class code: name and colour. *)
Definition legend_fields (legend_data : gmap string legend_entry)
    (code : Z) : string * string :=
  let code_str := pretty code in
  match legend_data !! code_str with
  | Some entry => (PT entry, HEX_COL entry)
  | None => ("Classe " +:+ pretty code +:+ " (não encontrada)", "#808080")
  end.

Definition read_raster_and_get_value_counts (fs : gmap string disk_file)
    (raster_path : string) (legend_data : gmap string legend_entry)
  : exn + list row :=
  match rasterio_read1 fs raster_path with
  | inl e => inl e
  | inr raster_data =>
      let '(unique, counts) := np_unique (concat raster_data) in
      let mask := np_ne unique 0 in
      let unique_filtered := bool_index unique mask in
      let counts_filtered := bool_index counts mask in
      let total_pixels := np_sum counts_filtered in
      let percentages :=
        map (λ count, fmul (np_true_divide count total_pixels) (of_int 100))
            counts_filtered in
      let nomes_pt := map (λ code, (legend_fields legend_data code).1)
                          unique_filtered in
      let cores_hex := map (λ code, (legend_fields legend_data code).2)
                           unique_filtered in
      let df := data_frame unique_filtered counts_filtered percentages
                           nomes_pt cores_hex in
      inr (sort_by_cont_px df)
  end.

(** [df[df['classe'] == classe].iloc[0]], when there is such a row. *)
Definition find_row (c : Z) (df : list row) : option row :=
  snd <$> list_find (λ r, classe r = c) df.

(** The search loop over [dataframes] that stops at the first table
    holding the class. *)
Fixpoint find_other (c : Z) (dataframes : list (list row)) : option row :=
  match dataframes with
  | [] => None
  | other_df :: rest =>
      match find_row c other_df with
      | Some other_row => Some other_row
      | None => find_other c rest
      end
  end.

(** [top_classes.index(classe)]. *)
Definition index_of (c : Z) (l : list Z) : option nat :=
  fst <$> list_find (λ x, x = c) l.

(** The set [all_classes]; a Python set fixes no iteration order, and
    neither does [elements]. *)
Definition all_classes (dataframes : list (list row)) (top_n : nat)
  : gset Z :=
  foldl (λ acc df, acc ∪ list_to_set (take top_n (classe <$> df)))
        ∅ dataframes.

Definition unified_row (dataframes : list (list row)) (top_n : nat)
    (year : Z) (df : list row) (c : Z) : Unified.row :=
  let top_classes := classe <$> take top_n df in
  match find_row c df with
  | Some row =>
      {| Unified.year := year; Unified.classe := c;
         Unified.porcent := porcent row;
         Unified.nome_pt := nome_pt row;
         Unified.cor_hex := cor_hex row;
         Unified.rank :=
           match index_of c top_classes with
           | Some i => Z.of_nat i + 1
           | None => Z.of_nat top_n + 1
           end |}
  | None =>
      match find_other c dataframes with
      | Some other_row =>
          {| Unified.year := year; Unified.classe := c;
             Unified.porcent := of_int 0;
             Unified.nome_pt := nome_pt other_row;
             Unified.cor_hex := cor_hex other_row;
             Unified.rank := Z.of_nat top_n + 1 |}
      | None =>
          {| Unified.year := year; Unified.classe := c;
             Unified.porcent := of_int 0;
             Unified.nome_pt := "Classe " +:+ pretty c;
             Unified.cor_hex := "#808080";
             Unified.rank := Z.of_nat top_n + 1 |}
      end
  end.

Definition create_unified_dataframe (dataframes : list (list row))
    (years : list Z) (top_n : nat) : list Unified.row :=
  mjoin ((λ '(year, df),
           unified_row dataframes top_n year df
             <$> elements (all_classes dataframes top_n))
         <$> zip years dataframes).

(** A frame year: an element of [years] (a Python int) or an interpolated
    float. *)
Inductive pynum : Type :=
| PyInt (z : Z)
| PyFloat (f : float64).

Definition to_float (x : pynum) : float64 :=
  match x with PyInt z => of_int z | PyFloat f => f end.

(** [x == y] for an int [y]; Python compares the two numbers exactly. *)
Definition num_eq_int (x : pynum) (y : Z) : bool :=
  match x with
  | PyInt z => bool_decide (z = y)
  | PyFloat (Fin q) => Qeq_bool q (inject_Z y)
  | PyFloat _ => false
  end.

(** [year in years]. *)
Definition year_in (year : pynum) (years : list Z) : bool :=
  existsb (num_eq_int year) years.

(** [int(year)]: truncation.  On an infinity or a NaN Python raises; no
    frame year is one (lemma [all_years_finite]), the value there is
    arbitrary. *)
Definition py_int (year : pynum) : Z :=
  match year with
  | PyInt z => z
  | PyFloat (Fin q) => Qnum q ÷ Z.pos (Qden q)
  | PyFloat _ => 0
  end.

(** [x - y] for an int [y], and [1 - a]. *)
Definition py_sub_int (x : pynum) (y : Z) : pynum :=
  match x with
  | PyInt z => PyInt (z - y)
  | PyFloat f => PyFloat (fsub f (of_int y))
  end.
Definition py_int_sub (x : Z) (a : pynum) : pynum :=
  match a with
  | PyInt z => PyInt (x - z)
  | PyFloat f => PyFloat (fsub (of_int x) f)
  end.

(** The frame years.  [1.0 / frames_per_year] is only evaluated inside
    [range(1, frames_per_year)], hence with [frames_per_year >= 2]. *)
Definition all_years (years : list Z) (frames_per_year : nat)
  : exn + list pynum :=
  match last years with
  | None => inl IndexError
  | Some year_last =>
      inr (mjoin ((λ year_i,
                    PyInt year_i ::
                    ((λ j, PyFloat
                             (fadd (of_int year_i)
                                (fmul (of_int (Z.of_nat j))
                                   (fdiv (Fin 1)
                                      (of_int (Z.of_nat frames_per_year))))))
                     <$> seq 1 (frames_per_year - 1)))
                  <$> take (length years - 1) years)
           ++ [PyInt year_last])
  end.

(** [unified_df[unified_df['year'] == year]]. *)
Definition rows_of_year (unified_df : list Unified.row) (year : pynum)
  : list Unified.row :=
  List.filter (λ r, num_eq_int year (Unified.year r)) unified_df.

(** [data_next[data_next['classe'] == classe]['porcent'].values[0]]. *)
Definition next_val (c : Z) (data_next : list Unified.row)
  : option float64 :=
  Unified.porcent <$> List.find (λ r, bool_decide (Unified.classe r = c))
                                data_next.

Definition with_porcent (r : Unified.row) (p : float64) : Unified.row :=
  {| Unified.year := Unified.year r; Unified.classe := Unified.classe r;
     Unified.porcent := p;
     Unified.nome_pt := Unified.nome_pt r;
     Unified.cor_hex := Unified.cor_hex r;
     Unified.rank := Unified.rank r |}.

(** The body of the loop that fills [interpolated_data]. *)
Definition interpolated_frame (years : list Z)
    (unified_df : list Unified.row) (year : pynum) : list Unified.row :=
  if year_in year years then rows_of_year unified_df year
  else
    let year_prev := py_int year in
    let year_next := year_prev + 1 in
    let data_prev := rows_of_year unified_df (PyInt year_prev) in
    let data_next := rows_of_year unified_df (PyInt year_next) in
    let alpha := py_sub_int year year_prev in
    (λ row,
       match next_val (Unified.classe row) data_next with
       | Some nv =>
           with_porcent row
             (fadd (fmul (Unified.porcent row) (to_float (py_int_sub 1 alpha)))
                   (fmul nv (to_float alpha)))
       | None => row
       end) <$> data_prev.

(** [sort_values('porcent', ascending=False)], NaN last. *)
Definition porcent_geb (p1 p2 : float64) : bool :=
  match p1, p2 with
  | _, NaN => true
  | NaN, _ => false
  | _, _ => fge p1 p2
  end.
Definition porcent_desc (r1 r2 : Unified.row) : Prop :=
  porcent_geb (Unified.porcent r1) (Unified.porcent r2) = true.
Global Instance porcent_desc_dec : RelDecision porcent_desc :=
  λ r1 r2,
    decide (porcent_geb (Unified.porcent r1) (Unified.porcent r2) = true).

(** The rows [update] selects in a frame, in the order of their bars:
    [year_data.sort_values('porcent', ascending=False).head(top_n)].  The
    call of [ax.bar] asks for one bar per selected row, and the title shows
    [int(year)] of the frame year.  What matplotlib then draws (the colour
    it makes of each [cor_hex] string, axes, value labels) is not
    modelled. *)
Definition year_data_top (year_data : list Unified.row) (top_n : nat)
  : list Unified.row :=
  take top_n (merge_sort porcent_desc year_data).

(** What [create_smooth_animation] prepares before anything is drawn, and
    what the nested [update] then reads: [all_years] and
    [interpolated_data]. *)
Record animation : Type :=
  { frame_years : list pynum;
    interpolated_data : list (list Unified.row) }.

(** The function up to the construction of the animation object.  An empty
    [unified_df] comes from [pd.DataFrame([])] and has no columns: the first
    [unified_df['year']] raises.  [top_n] is only read by [update].  The
    frames are drawn later, by matplotlib calling [update] when the
    animation is saved or shown: drawing and the encoding of the GIF are
    outside the model, and [inr] says that the preparation raised
    nothing. *)
Definition create_smooth_animation (years : list Z)
    (unified_df : list Unified.row) (top_n : nat) (frames_per_year : nat)
  : exn + animation :=
  match all_years years frames_per_year with
  | inl e => inl e
  | inr ys =>
      match unified_df with
      | [] => inl (KeyError "year")
      | _ =>
          inr {| frame_years := ys;
                 interpolated_data :=
                   interpolated_frame years unified_df <$> ys |}
      end
  end.

Definition json_path : string := "mapbiomas_colec_10.json".
Definition base_raster_path : string * string := ("classificacao_", ".tif").

(** [list(range(1985, 2025))]. *)
Definition years : list Z := (λ i, 1985 + Z.of_nat i) <$> seq 0 40.

Record loop_state : Type :=
  { dataframes : list (list row);
    out : list msg;
    raised : option exn }.

(** One iteration of the year loop.  Nothing catches an exception of the
    tabulator here: it ends the run. *)
Definition year_step (fs : gmap string disk_file)
    (legend_data : gmap string legend_entry)
    (st : loop_state) (year : Z) : loop_state :=
  match raised st with
  | Some _ => st
  | None =>
      let raster_path := str_format base_raster_path year in
      if negb (path_exists fs raster_path) then
        {| dataframes := dataframes st;
           out := out st ++ [ArquivoNaoEncontrado raster_path];
           raised := None |}
      else
        match read_raster_and_get_value_counts fs raster_path legend_data with
        | inr df_resultado =>
            {| dataframes := dataframes st ++ [df_resultado];
               out := out st ++
                 [ProcessandoAno year;
                  AnoProcessado year (np_sum (cont_px <$> df_resultado));
                  Top5Classes (nome_pt <$> take 5 df_resultado)];
               raised := None |}
        | inl e =>
            {| dataframes := dataframes st;
               out := out st ++ [ProcessandoAno year];
               raised := Some e |}
        end
  end.

(** [outcome]: the exception that ends the run before a frame is drawn, or
    the prepared animation, which is then saved and shown. *)
Record run : Type :=
  { stdout : list msg;
    tables : list (list row);
    unified_df : list Unified.row;
    outcome : exn + animation }.

(** The script from top to bottom. *)
Definition main (fs : gmap string disk_file) : run :=
  let '(legend_data, out0) := load_legend fs json_path in
  let st := foldl (year_step fs legend_data)
                  {| dataframes := []; out := out0; raised := None |}
                  years in
  match raised st with
  | Some e =>
      {| stdout := out st; tables := dataframes st; unified_df := [];
         outcome := inl e |}
  | None =>
      let unified := create_unified_dataframe (dataframes st) years 5 in
      {| stdout := out st; tables := dataframes st; unified_df := unified;
         outcome := create_smooth_animation years unified 5 10 |}
  end.

End Chart.

(* ===================================================================== *)
(** ** Notions used in the statements *)
(* ===================================================================== *)

(** Half a unit in the last place, [2^-53]: the relative error of one
    rounding; and [2^-52], which also covers one rounded division. *)
Definition ulp_half : Q := 1 # 9007199254740992.
Definition eps : Q := 1 # 4503599627370496.

Fixpoint qpow (b : Q) (k : nat) : Q :=
  match k with
  | O => 1
  | S k' => b * qpow b k'
  end.

(** [y] is [x] up to [k] relative perturbations of size [eps]. *)
Definition near (k : nat) (x y : Q) : Prop :=
  (x * qpow (1 - eps) k <= y ∧ y <= x * qpow (1 + eps) k)%Q.

(** The same operations in the Standard Library's executable IEEE 754
    specification, at the binary64 parameters, to compare [Float64] with. *)
Definition b64_of_Z (z : Z) : spec_float := binary_normalize 53 1024 z 0 false.

Definition b64_value (f : spec_float) : float64 :=
  match f with
  | S754_zero _ => Fin 0
  | S754_infinity false => PInf
  | S754_infinity true => NInf
  | S754_nan => NaN
  | S754_finite s m e =>
      Fin (Qred (inject_Z (if s then Z.neg m else Z.pos m) * Qpower 2 e))
  end.

Definition b64_percent (count total : Z) : spec_float :=
  SFmul 53 1024 (SFdiv 53 1024 (b64_of_Z count) (b64_of_Z total))
        (b64_of_Z 100).

Definition b64_frame_year (year j frames_per_year : Z) : spec_float :=
  SFadd 53 1024 (b64_of_Z year)
    (SFmul 53 1024 (b64_of_Z j)
       (SFdiv 53 1024 (b64_of_Z 1) (b64_of_Z frames_per_year))).

(** The value of a finite float; the exact sum of a list of floats; and
    their floating-point sum taken from left to right, starting from the
    integer [0], as a plain accumulation loop computes it. *)
Definition fval (a : float64) : Q :=
  match a with Fin q => q | _ => 0 end.
Definition exact_sum (l : list float64) : Q :=
  foldr (λ a s, fval a + s)%Q 0%Q l.
Definition fsum (l : list float64) : float64 := foldl fadd (of_int 0) l.

(** The class codes a raster tabulates: its distinct non-zero values in
    ascending order; and its valid pixels. *)
Definition valid_classes (a : list Z) : list Z :=
  filter (λ x, x ≠ 0) (merge_sort Z.le (remove_dups a)).
Definition valid_pixels (a : list Z) : list Z := filter (λ x, x ≠ 0) a.

(** The percentage the tabulators compute from a count and the total. *)
Definition percent_of (count total : Z) : float64 :=
  fmul (np_true_divide count total) (of_int 100).

(** The total the tabulators divide by, and the rows they build before
    sorting: one per valid class. *)
Definition total_valid (a : list Z) : Z :=
  np_sum ((λ v, count_of v a) <$> valid_classes a).

Definition csv_rows (year : Z) (a : list Z) : list Csv.row :=
  (λ v, {| Csv.ano := year; Csv.classe := v; Csv.num_px := count_of v a;
           Csv.porc_rel := percent_of (count_of v a) (total_valid a) |})
    <$> valid_classes a.

Definition chart_rows (legend_data : gmap string legend_entry) (a : list Z)
  : list Chart.row :=
  (λ v, {| Chart.classe := v; Chart.cont_px := count_of v a;
           Chart.porcent := percent_of (count_of v a) (total_valid a);
           Chart.nome_pt := (Chart.legend_fields legend_data v).1;
           Chart.cor_hex := (Chart.legend_fields legend_data v).2 |})
    <$> valid_classes a.

(** A column of percentages adds up to 100 within the relative tolerance
    [1e-6]: every entry is a finite float; their exact sum is within the
    tolerance; and so is their floating-point sum [fsum] as long as the
    column has at most [2^32] entries. *)
Definition within_tolerance (s : Q) : Prop :=
  (Qabs (s - 100) <= (1 # 1000000) * 100)%Q.

Definition sums_to_100 (ps : list float64) : Prop :=
  Forall (λ f, is_finite f = true) ps ∧
  within_tolerance (exact_sum ps) ∧
  (Z.of_nat (length ps) <= 2 ^ 32 →
   ∃ s, fsum ps = Fin s ∧ within_tolerance s).

(** The years the console reports as being processed. *)
Definition processed_years (out : list msg) : list Z :=
  omap (λ m, match m with ProcessandoAno y => Some y | _ => None end) out.

(** Sample disks.  [disk_scenario]: one raster with the pixels
    [0,0,3,3,3,4] and a legend that knows class 3, for both scripts.
    [disk_only_1986]: the chart script finds the raster of 1986 and none
    of 1985.  [disk_zero_1986]: the raster of 1986 is all zeros. *)
Definition legend_forest : gmap string legend_entry :=
  {[ "3"%string := {| PT := "Forest"; HEX_COL := "#006400" |} ]}.

Definition disk_scenario : gmap string disk_file :=
  {[ str_format Csv.base_raster_path 1990 := RasterFile [[0; 0; 3]; [3; 3; 4]];
     str_format Chart.base_raster_path 1985 := RasterFile [[0; 0; 3]; [3; 3; 4]];
     str_format Chart.base_raster_path 1986 := RasterFile [[3; 4]; [4; 4]];
     Chart.json_path := JsonFile legend_forest ]}.

Definition disk_only_1986 : gmap string disk_file :=
  {[ str_format Chart.base_raster_path 1986 := RasterFile [[3]] ]}.


(** Further sample disks.  [disk_unreadable]: for each script a readable
    raster followed, a year later, by a file that is no raster.
    [disk_blank_1990]: the only raster of the chart script holds zeros only.
    [disk_csv_1990]: the raster of 1990 of [disk_scenario] and nothing
    else. *)
Definition disk_unreadable : gmap string disk_file :=
  {[ str_format Csv.base_raster_path 1990 := RasterFile [[0; 0; 3]; [3; 3; 4]];
     str_format Csv.base_raster_path 1991 := Garbage;
     str_format Chart.base_raster_path 1985 := RasterFile [[3; 4]; [4; 4]];
     str_format Chart.base_raster_path 1986 := Garbage ]}.

Definition disk_blank_1990 : gmap string disk_file :=
  {[ str_format Chart.base_raster_path 1990 := RasterFile [[0; 0]] ]}.

Definition disk_csv_1990 : gmap string disk_file :=
  {[ str_format Csv.base_raster_path 1990
       := RasterFile [[0; 0; 3]; [3; 3; 4]] ]}.

(* ===================================================================== *)
(** ** Rounding *)
(* ===================================================================== *)

Lemma rne_near a b : 0 <= a → 0 < b → 2 * Z.abs (rne a b * b - a) <= b.
Proof.
  intros Ha Hb. unfold rne.
  pose proof (Z.div_mod a b ltac:(lia)) as Hdm.
  pose proof (Z.mod_pos_bound a b Hb) as Hr.
  destruct (Z.compare_spec (2 * (a mod b)) b) as [He|Hl|Hg];
    [destruct (Z.even (a / b))| |]; nia.
Qed.

Lemma binade_lower n d :
  0 < n → 0 < d →
  d * 2 ^ Z.max 0 (binade n d) <= n * 2 ^ Z.max 0 (- binade n d).
Proof.
  intros Hn Hd. unfold binade.
  set (k := Z.log2 n - Z.log2 d).
  destruct (Z.leb_spec (d * 2 ^ Z.max 0 k) (n * 2 ^ Z.max 0 (- k))) as [H|H];
    [exact H|].
  pose proof (Z.log2_spec n Hn) as [Hn1 Hn2].
  pose proof (Z.log2_spec d Hd) as [Hd1 Hd2].
  pose proof (Z.log2_nonneg n). pose proof (Z.log2_nonneg d).
  destruct (Z.le_gt_cases 1 k) as [Hk|Hk].
  - rewrite (Z.max_r 0 (k - 1)), (Z.max_l 0 (- (k - 1))) by lia.
    rewrite Z.pow_0_r, Z.mul_1_r.
    assert (2 ^ Z.log2 n = 2 ^ (k - 1) * 2 ^ Z.succ (Z.log2 d)) as E.
    { rewrite <- Z.pow_add_r by lia. f_equal. lia. }
    assert (0 < 2 ^ (k - 1)) by (apply Z.pow_pos_nonneg; lia).
    nia.
  - rewrite (Z.max_l 0 (k - 1)), (Z.max_r 0 (- (k - 1))) by lia.
    rewrite Z.pow_0_r, Z.mul_1_r.
    assert (2 ^ Z.succ (Z.log2 d) = 2 ^ Z.log2 n * 2 ^ (- (k - 1))) as E.
    { rewrite <- Z.pow_add_r by lia. f_equal. lia. }
    assert (0 < 2 ^ (- (k - 1))) by (apply Z.pow_pos_nonneg; lia).
    nia.
Qed.

(** The scaled quotient handed to [rne] is at least [2^52]. *)
Lemma scaled_lower n d :
  0 < n → 0 < d →
  let e := binade n d - 52 in
  2 ^ 52 * (d * 2 ^ Z.max 0 e) <= n * 2 ^ Z.max 0 (- e).
Proof.
  intros Hn Hd e. pose proof (binade_lower n d Hn Hd) as H.
  set (k := binade n d) in *. subst e.
  destruct (Z.le_gt_cases k 0) as [Hk|Hk];
    [|destruct (Z.le_gt_cases 52 k) as [Hk'|Hk']].
  - rewrite (Z.max_l 0 k), (Z.max_r 0 (- k)) in H by lia.
    rewrite (Z.max_l 0 (k - 52)), (Z.max_r 0 (- (k - 52))) by lia.
    replace (- (k - 52)) with (- k + 52) by lia.
    rewrite Z.pow_add_r by lia. rewrite Z.pow_0_r in *. nia.
  - rewrite (Z.max_r 0 k), (Z.max_l 0 (- k)) in H by lia.
    rewrite (Z.max_r 0 (k - 52)), (Z.max_l 0 (- (k - 52))) by lia.
    rewrite Z.pow_0_r in *.
    replace (2 ^ k) with (2 ^ 52 * 2 ^ (k - 52)) in H
      by (rewrite <- Z.pow_add_r by lia; f_equal; lia).
    nia.
  - rewrite (Z.max_r 0 k), (Z.max_l 0 (- k)) in H by lia.
    rewrite (Z.max_l 0 (k - 52)), (Z.max_r 0 (- (k - 52))) by lia.
    rewrite Z.pow_0_r in *.
    replace (2 ^ 52) with (2 ^ k * 2 ^ (- (k - 52)))
      by (rewrite <- Z.pow_add_r by lia; f_equal; lia).
    assert (0 < 2 ^ (- (k - 52))) by (apply Z.pow_pos_nonneg; lia).
    nia.
Qed.

Lemma Qpower2_split e :
  (Qpower 2 e == inject_Z (2 ^ Z.max 0 e) / inject_Z (2 ^ Z.max 0 (- e)))%Q.
Proof.
  destruct (Z.le_gt_cases 0 e) as [He|He].
  - rewrite (Z.max_r 0 e), (Z.max_l 0 (- e)) by lia.
    rewrite Zpower_Qpower by lia.
    change (inject_Z (2 ^ 0)) with 1%Q. change (inject_Z 2) with 2%Q.
    generalize (Qpower 2 e). intros y. field.
  - rewrite (Z.max_l 0 e), (Z.max_r 0 (- e)) by lia.
    change (inject_Z (2 ^ 0)) with 1%Q.
    rewrite Zpower_Qpower by lia. change (inject_Z 2) with 2%Q.
    assert (Qpower 2 e == / Qpower 2 (- e))%Q as ->
      by (rewrite <- Qpower_opp, Z.opp_involutive; reflexivity).
    assert (~ Qpower 2 (- e) == 0)%Q as Hy by (apply Qpower_not_0; discriminate).
    revert Hy. generalize (Qpower 2 (- e)). intros y Hy. field. exact Hy.
Qed.

(** One rounding moves a positive number by at most [2^-53] of itself. *)
Lemma round53_rel (x : Q) :
  (0 < x → (1 - ulp_half) * x <= round53 x ∧ round53 x <= (1 + ulp_half) * x)%Q.
Proof.
  destruct x as [n d]. intros Hx.
  assert (0 < n) as Hn by (unfold Qlt in Hx; simpl in Hx; lia).
  unfold round53. cbn [Qnum Qden].
  rewrite (Z.abs_eq n) by lia.
  destruct (Z.eqb_spec n 0) as [->|_]; [lia|].
  rewrite (Z.sgn_pos n Hn), Z.mul_1_l.
  set (e := binade n (Z.pos d) - 52).
  set (N := 2 ^ Z.max 0 (- e)). set (P := 2 ^ Z.max 0 e).
  set (m := rne (n * N) (Z.pos d * P)).
  rewrite Qred_correct, Qpower2_split. fold N P.
  assert (0 < N) as HN by (apply Z.pow_pos_nonneg; lia).
  assert (0 < P) as HP by (apply Z.pow_pos_nonneg; lia).
  pose proof (scaled_lower n (Z.pos d) Hn ltac:(lia)) as Hlow.
  cbv zeta in Hlow. fold e N P in Hlow.
  pose proof (rne_near (n * N) (Z.pos d * P) ltac:(lia) ltac:(lia)) as Hnear.
  fold m in Hnear.
  assert (2 ^ 53 * (m * (Z.pos d * P) - n * N) <= n * N
          ∧ - (n * N) <= 2 ^ 53 * (m * (Z.pos d * P) - n * N)) as [H1 H2].
  { change (2 ^ 53) with (2 * 2 ^ 52). lia. }
  rewrite Zle_Qle in H1, H2. unfold Z.sub in H1, H2.
  rewrite ?inject_Z_opp, ?inject_Z_mult, ?inject_Z_plus,
          ?inject_Z_opp, ?inject_Z_mult in H1, H2.
  assert (0 < inject_Z N)%Q as HNq
    by (change 0%Q with (inject_Z 0); rewrite <- Zlt_Qlt; lia).
  assert (0 < inject_Z P)%Q as HPq
    by (change 0%Q with (inject_Z 0); rewrite <- Zlt_Qlt; lia).
  assert (0 < inject_Z (Z.pos d))%Q as Hdq
    by (change 0%Q with (inject_Z 0); rewrite <- Zlt_Qlt; lia).
  set (r := (inject_Z m * (inject_Z P / inject_Z N))%Q).
  assert (n # d == inject_Z n / inject_Z (Z.pos d))%Q as Ex
    by (rewrite (Qmake_Qdiv n d); reflexivity).
  set (t := (n # d)%Q) in *.
  set (D := (inject_Z N * inject_Z (Z.pos d))%Q).
  assert (0 < D)%Q as HD by (unfold D; nra).
  assert (r * D == inject_Z m * (inject_Z (Z.pos d) * inject_Z P))%Q as Er.
  { unfold r, D. field. lra. }
  assert (t * D == inject_Z n * inject_Z N)%Q as Et.
  { rewrite Ex. unfold D. field. lra. }
  rewrite <- Er, <- Et in H1, H2.
  change (inject_Z (2 ^ 53)) with (9007199254740992%Q) in H1, H2.
  unfold ulp_half.
  split; apply (Qmult_le_r _ _ D HD); nra.
Qed.

Lemma round53_pos (x : Q) : (0 < x → 0 < round53 x)%Q.
Proof.
  intros Hx. destruct (round53_rel x Hx) as [H _].
  unfold ulp_half in H. nra.
Qed.

Lemma round53_0 (x : Q) : (x == 0 → round53 x = 0)%Q.
Proof.
  intros Hx. unfold round53.
  assert (Qnum x = 0) as -> by (unfold Qeq in Hx; simpl in Hx; lia).
  reflexivity.
Qed.

(* ===================================================================== *)
(** ** Accumulated relative error *)
(* ===================================================================== *)

Lemma qpow_pos b k : (0 < b → 0 < qpow b k)%Q.
Proof. intros Hb. induction k as [|k IH]; simpl; [reflexivity | nra]. Qed.

Lemma qpow_add b j k : (qpow b (j + k) == qpow b j * qpow b k)%Q.
Proof.
  induction j as [|j IH]; simpl; [ring|]. rewrite IH. ring.
Qed.

Lemma qpow_hi_ge_1 k : (1 <= qpow (1 + eps) k)%Q.
Proof.
  induction k as [|k IH]; simpl; [apply Qle_refl|].
  unfold eps in *. nra.
Qed.

Lemma qpow_lo_le_1 k : (0 < qpow (1 - eps) k ∧ qpow (1 - eps) k <= 1)%Q.
Proof.
  induction k as [|k [IH1 IH2]]; simpl; [split; [reflexivity|apply Qle_refl]|].
  unfold eps in *. split; nra.
Qed.

Lemma near_0 x : near 0 x x.
Proof. unfold near. simpl. split; lra. Qed.

Lemma near_nonneg k x y : (0 <= x)%Q → near k x y → (0 <= y)%Q.
Proof.
  intros Hx [H _]. pose proof (qpow_lo_le_1 k) as [Hp _]. nra.
Qed.

Lemma near_pos k x y : (0 < x)%Q → near k x y → (0 < y)%Q.
Proof.
  intros Hx [H _]. pose proof (qpow_lo_le_1 k) as [Hp _]. nra.
Qed.

Lemma near_eq k x x' y y' :
  (x == x')%Q → (y == y')%Q → near k x y → near k x' y'.
Proof. unfold near. intros -> ->. tauto. Qed.

Lemma near_S k x y : (0 <= x)%Q → near k x y → near (S k) x y.
Proof.
  intros Hx [H1 H2]. unfold near. simpl.
  pose proof (qpow_lo_le_1 k) as [Hl1 Hl2].
  pose proof (qpow_hi_ge_1 k) as Hh.
  unfold eps in *. split; nra.
Qed.

Lemma near_le j k x y : (j ≤ k)%nat → (0 <= x)%Q → near j x y → near k x y.
Proof.
  intros Hjk Hx H. induction Hjk as [|k Hjk IH]; [exact H|].
  apply near_S; assumption.
Qed.

Lemma near_trans j k x y z :
  (0 <= x)%Q → near j x y → near k y z → near (j + k) x z.
Proof.
  intros Hx [H1 H2] [H3 H4]. unfold near.
  rewrite !qpow_add.
  pose proof (qpow_lo_le_1 j) as [Hj1 _]. pose proof (qpow_lo_le_1 k) as [Hk1 _].
  pose proof (qpow_hi_ge_1 j). pose proof (qpow_hi_ge_1 k).
  split.
  - apply Qle_trans with (y * qpow (1 - eps) k)%Q; [|exact H3].
    setoid_replace (x * (qpow (1 - eps) j * qpow (1 - eps) k))%Q
      with (x * qpow (1 - eps) j * qpow (1 - eps) k)%Q using relation Qeq by ring.
    apply Qmult_le_compat_r; [exact H1 | lra].
  - apply Qle_trans with (y * qpow (1 + eps) k)%Q; [exact H4|].
    setoid_replace (x * (qpow (1 + eps) j * qpow (1 + eps) k))%Q
      with (x * qpow (1 + eps) j * qpow (1 + eps) k)%Q using relation Qeq by ring.
    apply Qmult_le_compat_r; [exact H2 | lra].
Qed.

Lemma near_add k x y x' y' :
  near k x y → near k x' y' → near k (x + x') (y + y').
Proof. unfold near. intros [H1 H2] [H3 H4]. split; nra. Qed.

Lemma near_mul j k x y x' y' :
  (0 <= x)%Q → (0 <= x')%Q →
  near j x y → near k x' y' → near (j + k) (x * x') (y * y').
Proof.
  intros Hx Hx' [H1 H2] [H3 H4]. unfold near. rewrite !qpow_add.
  pose proof (qpow_lo_le_1 j) as [Hj1 _]. pose proof (qpow_lo_le_1 k) as [Hk1 _].
  pose proof (qpow_hi_ge_1 j). pose proof (qpow_hi_ge_1 k).
  set (a := qpow (1 - eps) j) in *. set (b := qpow (1 - eps) k) in *.
  set (c := qpow (1 + eps) j) in *. set (d := qpow (1 + eps) k) in *.
  assert (0 <= x * a)%Q by nra. assert (0 <= x' * b)%Q by nra.
  split.
  - setoid_replace (x * x' * (a * b))%Q with ((x * a) * (x' * b))%Q using relation Qeq by ring.
    apply Qle_trans with (y * (x' * b))%Q.
    + apply Qmult_le_compat_r; assumption.
    + rewrite (Qmult_comm y (x' * b)), (Qmult_comm y y').
      apply Qmult_le_compat_r; [assumption | lra].
  - setoid_replace (x * x' * (c * d))%Q with ((x * c) * (x' * d))%Q using relation Qeq by ring.
    apply Qle_trans with (y * (x' * d))%Q.
    + rewrite (Qmult_comm y y'), (Qmult_comm y (x' * d)).
      apply Qmult_le_compat_r; [assumption | lra].
    + apply Qmult_le_compat_r; [assumption | nra].
Qed.

Lemma near_round x : (0 < x)%Q → near 1 x (round53 x).
Proof.
  intros Hx. destruct (round53_rel x Hx) as [H1 H2].
  unfold near. simpl. unfold ulp_half, eps in *. split; nra.
Qed.

(** A quotient of two rounded positive numbers. *)
Lemma near_div_round x y :
  (0 < x)%Q → (0 < y)%Q → near 2 (x / y) (round53 x / round53 y).
Proof.
  intros Hx Hy.
  destruct (round53_rel x Hx) as [Hx1 Hx2].
  destruct (round53_rel y Hy) as [Hy1 Hy2].
  pose proof (round53_pos y Hy) as Hry.
  unfold near. simpl. unfold ulp_half, eps in *.
  set (rx := round53 x) in *. set (ry := round53 y) in *.
  assert (x / y * y == x)%Q as Exy by (field; lra).
  assert (rx / ry * ry == rx)%Q as Er by (field; lra).
  set (t := (x / y)%Q) in *. set (r := (rx / ry)%Q) in *.
  assert (0 < t)%Q as Ht.
  { apply (Qmult_lt_r _ _ y Hy). rewrite Exy. lra. }
  assert (t * ry <= (1 + (1 # 9007199254740992)) * (t * y))%Q as Hb1.
  { setoid_replace ((1 + (1 # 9007199254740992)) * (t * y))%Q
      with (((1 + (1 # 9007199254740992)) * y) * t)%Q using relation Qeq by ring.
    rewrite (Qmult_comm t). apply Qmult_le_compat_r; lra. }
  assert ((1 - (1 # 9007199254740992)) * (t * y) <= t * ry)%Q as Hb2.
  { setoid_replace ((1 - (1 # 9007199254740992)) * (t * y))%Q
      with (((1 - (1 # 9007199254740992)) * y) * t)%Q using relation Qeq by ring.
    rewrite (Qmult_comm t). apply Qmult_le_compat_r; lra. }
  assert (0 < t * y)%Q as Hty by nra.
  rewrite <- Exy in Hx1, Hx2.
  split; apply (Qmult_le_r _ _ ry Hry); rewrite Er.
  - apply Qle_trans with ((1 - (1 # 9007199254740992)) * (t * y))%Q;
      [|exact Hx1].
    assert (t * ((1 - (1 # 4503599627370496)) *
                   ((1 - (1 # 4503599627370496)) * 1)) * ry ==
            (1 - (1 # 4503599627370496)) * (1 - (1 # 4503599627370496)) *
              (t * ry))%Q as -> by ring.
    revert Hb1 Hb2 Hty. generalize (t * y)%Q (t * ry)%Q. intros B A. lra.
  - apply Qle_trans with ((1 + (1 # 9007199254740992)) * (t * y))%Q;
      [exact Hx2|].
    assert (t * ((1 + (1 # 4503599627370496)) *
                   ((1 + (1 # 4503599627370496)) * 1)) * ry ==
            (1 + (1 # 4503599627370496)) * (1 + (1 # 4503599627370496)) *
              (t * ry))%Q as -> by ring.
    revert Hb1 Hb2 Hty. generalize (t * y)%Q (t * ry)%Q. intros B A. lra.
Qed.

(** Bernoulli's bounds on the two error factors. *)
Lemma qpow_lo_bernoulli k :
  (1 - inject_Z (Z.of_nat k) * eps <= qpow (1 - eps) k)%Q.
Proof.
  induction k as [|k IH].
  - change (inject_Z (Z.of_nat 0)) with 0%Q. simpl qpow. lra.
  - rewrite Nat2Z.inj_succ. unfold Z.succ. rewrite inject_Z_plus.
    simpl qpow. pose proof (qpow_lo_le_1 k) as [H1 H2].
    assert (0 <= inject_Z (Z.of_nat k))%Q
      by (change 0%Q with (inject_Z 0); rewrite <- Zle_Qle; lia).
    change (inject_Z 1) with 1%Q. unfold eps in *. nra.
Qed.

Lemma qpow_hi_bernoulli k :
  (qpow (1 + eps) k * (1 - inject_Z (Z.of_nat k) * eps) <= 1)%Q.
Proof.
  induction k as [|k IH].
  - change (inject_Z (Z.of_nat 0)) with 0%Q. simpl qpow. lra.
  - rewrite Nat2Z.inj_succ. unfold Z.succ. rewrite inject_Z_plus.
    simpl qpow. pose proof (qpow_pos (1 + eps) k ltac:(reflexivity)) as H1.
    assert (0 <= inject_Z (Z.of_nat k))%Q
      by (change 0%Q with (inject_Z 0); rewrite <- Zle_Qle; lia).
    change (inject_Z 1) with 1%Q. unfold eps in *.
    set (p := qpow (1 + (1 # 4503599627370496)) k) in *.
    set (n := inject_Z (Z.of_nat k)) in *.
    assert (0 <= p * n)%Q by nra.
    nra.
Qed.

(** Up to [2^32 + 4] perturbations stay inside a relative [1e-6]. *)
Lemma near_tolerance k x y :
  Z.of_nat k <= 4294967300 → (0 <= x)%Q → near k x y →
  (Qabs (y - x) <= (1 # 1000000) * x)%Q.
Proof.
  intros Hk Hx [H1 H2].
  pose proof (qpow_lo_bernoulli k) as Hlo.
  pose proof (qpow_hi_bernoulli k) as Hhi.
  pose proof (qpow_pos (1 + eps) k ltac:(reflexivity)) as Hp.
  assert (0 <= inject_Z (Z.of_nat k) ∧ inject_Z (Z.of_nat k) <= 4294967300)%Q
    as [Hk0 Hk1].
  { split.
    - change 0%Q with (inject_Z 0). rewrite <- Zle_Qle. lia.
    - change 4294967300%Q with (inject_Z 4294967300). rewrite <- Zle_Qle. lia. }
  unfold eps in *.
  set (lo := qpow (1 - (1 # 4503599627370496)) k) in *.
  set (hi := qpow (1 + (1 # 4503599627370496)) k) in *.
  set (n := inject_Z (Z.of_nat k)) in *.
  assert (1 - (1 # 1000000) <= lo)%Q by lra.
  assert (hi <= 1 + (1 # 1000000))%Q.
  { assert (hi * (1 - 4294967300 * (1 # 4503599627370496)) <= 1)%Q by nra.
    nra. }
  apply Qabs_Qle_condition. split; nra.
Qed.

(* ===================================================================== *)
(** ** Percentages and their sums *)
(* ===================================================================== *)

Lemma inject_Z_pos z : 0 < z → (0 < inject_Z z)%Q.
Proof. intros H. change 0%Q with (inject_Z 0). rewrite <- Zlt_Qlt. exact H. Qed.

Lemma Qeq_bool_pos_false q : (0 < q)%Q → Qeq_bool q 0 = false.
Proof.
  intros Hq. destruct (Qeq_bool q 0) eqn:E; [|reflexivity].
  apply Qeq_bool_eq in E. lra.
Qed.

(** A percentage of a positive count is a finite float, within four
    perturbations of the exact [100 * count / total]. *)
Lemma percent_of_near count total :
  0 < count → 0 < total →
  ∃ p, percent_of count total = Fin p ∧
       near 4 (100 * (inject_Z count / inject_Z total)) p.
Proof.
  intros Hc Ht.
  pose proof (inject_Z_pos count Hc) as Hcq.
  pose proof (inject_Z_pos total Ht) as Htq.
  unfold percent_of, np_true_divide, of_int, fdiv.
  rewrite (Qeq_bool_pos_false _ (round53_pos _ Htq)).
  change (round53 (inject_Z 100)) with 100%Q. cbn [fmul].
  eexists. split; [reflexivity|].
  set (t := (inject_Z count / inject_Z total)%Q).
  assert (0 < t)%Q as Htpos.
  { apply (Qmult_lt_r _ _ (inject_Z total) Htq).
    unfold t. setoid_replace (inject_Z count / inject_Z total * inject_Z total)%Q
      with (inject_Z count) using relation Qeq by (field; lra).
    rewrite Qmult_0_l. exact Hcq. }
  pose proof (near_div_round _ _ Hcq Htq) as H2. fold t in H2.
  clearbody t.
  set (q := (round53 (inject_Z count) / round53 (inject_Z total))%Q) in *.
  clearbody q.
  pose proof (near_pos _ _ _ Htpos H2) as Hq.
  pose proof (near_trans 2 1 _ _ _ (Qlt_le_weak _ _ Htpos) H2
                (near_round q Hq)) as H3.
  set (q' := round53 q) in *. clearbody q'.
  pose proof (near_pos _ _ _ Htpos H3) as Hq'.
  assert (0 <= 100)%Q as H100 by discriminate.
  pose proof (near_mul (2 + 1) 0 t q' 100 100 (Qlt_le_weak _ _ Htpos) H100
                H3 (near_0 100)) as H3'.
  assert (0 < t * 100)%Q as Hp by lra.
  pose proof (near_pos _ _ _ Hp H3') as Hq''.
  pose proof (near_trans _ 1 _ _ _ (Qlt_le_weak _ _ Hp) H3'
                (near_round (q' * 100) Hq'')) as H4.
  eapply near_eq; [|reflexivity|exact H4]. ring.
Qed.

Lemma np_sum_pos (cs : list Z) : Forall (λ c, 0 < c) cs → cs ≠ [] → 0 < np_sum cs.
Proof.
  intros H Hne. destruct H as [|c cs Hc H]; [congruence|].
  clear Hne. simpl. induction H as [|c' cs' Hc' H IH]; simpl in *; lia.
Qed.

Lemma percent_of_pos count total :
  0 < count → 0 < total → ∃ p, percent_of count total = Fin p ∧ (0 < p)%Q.
Proof.
  intros Hc Ht. destruct (percent_of_near count total Hc Ht) as (p & E & Hp).
  exists p. split; [exact E|]. eapply near_pos; [|exact Hp].
  pose proof (inject_Z_pos count Hc) as Hcq.
  pose proof (inject_Z_pos total Ht) as Htq.
  assert (0 < inject_Z count / inject_Z total)%Q; [|lra].
  apply (Qmult_lt_r _ _ (inject_Z total) Htq).
  setoid_replace (inject_Z count / inject_Z total * inject_Z total)%Q
    with (inject_Z count) using relation Qeq by (field; lra).
  rewrite Qmult_0_l. exact Hcq.
Qed.

(** The exact sum of the percentages of positive counts. *)
Lemma exact_sum_percent (cs : list Z) (total : Z) :
  0 < total → Forall (λ c, 0 < c) cs →
  near 4 (100 * (inject_Z (np_sum cs) / inject_Z total))
         (exact_sum (map (λ c, percent_of c total) cs)).
Proof.
  intros Ht H. pose proof (inject_Z_pos total Ht) as Htq.
  induction H as [|c cs Hc H IH]; simpl.
  - eapply near_eq; [| reflexivity | apply (near_le 0 4 0); [lia | lra | apply near_0]].
    change (inject_Z 0) with 0%Q. field. lra.
  - destruct (percent_of_near c total Hc Ht) as (p & -> & Hp). simpl.
    eapply near_eq; [|reflexivity|exact (near_add _ _ _ _ _ Hp IH)].
    rewrite inject_Z_plus. field. lra.
Qed.

(** Summing positive floats from left to right. *)
Lemma foldl_fadd_near (l : list float64) (a : Q) :
  (0 <= a)%Q → Forall (λ f, ∃ q, f = Fin q ∧ (0 < q)%Q) l →
  ∃ s, foldl fadd (Fin a) l = Fin s ∧ near (length l) (a + exact_sum l) s.
Proof.
  intros Ha H. revert a Ha.
  induction H as [|f l (q & -> & Hq) H IH]; intros a Ha; simpl.
  - exists a. split; [reflexivity|]. eapply near_eq; [|reflexivity|apply near_0].
    ring.
  - assert (0 < a + q)%Q as Haq by lra.
    pose proof (round53_pos _ Haq) as Hr.
    destruct (IH (round53 (a + q)) (Qlt_le_weak _ _ Hr)) as (s & Es & Hs).
    exists s. split; [exact Es|].
    assert (0 <= exact_sum l)%Q as Hl.
    { clear -H. induction H as [|f l (q' & -> & Hq') H IH]; simpl; lra. }
    pose proof (near_add 1 _ _ _ _ (near_round _ Haq)
                  (near_le 0 1 _ _ ltac:(lia) Hl (near_0 _))) as H1.
    assert (0 <= a + q + exact_sum l)%Q as Hnn by lra.
    pose proof (near_trans 1 _ _ _ _ Hnn H1 Hs) as H2.
    eapply near_eq; [|reflexivity|exact H2]. ring.
Qed.

Lemma fsum_near (l : list float64) :
  Forall (λ f, ∃ q, f = Fin q ∧ (0 < q)%Q) l →
  ∃ s, fsum l = Fin s ∧ near (length l) (exact_sum l) s.
Proof.
  intros H. unfold fsum. change (of_int 0) with (Fin 0).
  destruct (foldl_fadd_near l 0 ltac:(lra) H) as (s & Es & Hs).
  exists s. split; [exact Es|]. eapply near_eq; [|reflexivity|exact Hs]. ring.
Qed.

(** The percentages of a non-empty list of positive counts add up to 100
    within a relative [1e-6]: exactly summed, and summed in floating point
    when there are at most [2^32] of them. *)
Lemma percentages_sum_to_100 (cs : list Z) :
  Forall (λ c, 0 < c) cs → cs ≠ [] →
  sums_to_100 (map (λ c, percent_of c (np_sum cs)) cs).
Proof.
  intros H Hne. set (ps := map (λ c, percent_of c (np_sum cs)) cs).
  pose proof (np_sum_pos cs H Hne) as Ht.
  pose proof (inject_Z_pos _ Ht) as Htq.
  pose proof (exact_sum_percent cs _ Ht H) as Hex. fold ps in Hex.
  assert (near 4 100 (exact_sum ps)) as Hex'.
  { eapply near_eq; [|reflexivity|exact Hex]. field. lra. }
  assert (Forall (λ f, ∃ q, f = Fin q ∧ (0 < q)%Q) ps) as Hpos.
  { subst ps. rewrite Forall_fmap. eapply Forall_impl; [exact H|].
    intros c Hc. simpl. apply percent_of_pos; assumption. }
  assert (0 <= 100)%Q as H100 by discriminate.
  split; [|split].
  - eapply Forall_impl; [exact Hpos|]. intros f (q & -> & _). reflexivity.
  - apply near_tolerance with (k := 4%nat); [lia | exact H100 | exact Hex'].
  - intros Hlen. destruct (fsum_near ps Hpos) as (s & Es & Hs).
    exists s. split; [exact Es|].
    pose proof (near_trans 4 _ _ _ _ H100 Hex' Hs) as Hs'.
    apply near_tolerance with (k := (4 + length ps)%nat);
      [|exact H100|exact Hs'].
    lia.
Qed.

(* ===================================================================== *)
(** ** Roundings that are exact *)
(* ===================================================================== *)

Lemma binade_upper n d :
  0 < n → 0 < d →
  n * 2 ^ Z.max 0 (- binade n d) < 2 * (d * 2 ^ Z.max 0 (binade n d)).
Proof.
  intros Hn Hd. unfold binade.
  set (k := Z.log2 n - Z.log2 d).
  pose proof (Z.log2_spec n Hn) as [Hn1 Hn2].
  pose proof (Z.log2_spec d Hd) as [Hd1 Hd2].
  pose proof (Z.log2_nonneg n). pose proof (Z.log2_nonneg d).
  destruct (Z.leb_spec (d * 2 ^ Z.max 0 k) (n * 2 ^ Z.max 0 (- k))) as [H1|H1].
  - destruct (Z.le_gt_cases 0 k) as [Hk|Hk].
    + rewrite (Z.max_r 0 k), (Z.max_l 0 (- k)) by lia.
      rewrite Z.pow_0_r, Z.mul_1_r.
      assert (2 ^ Z.succ (Z.log2 n) = 2 * (2 ^ Z.log2 d * 2 ^ k)) as E.
      { rewrite <- Z.pow_add_r, <- Z.pow_succ_r by lia. f_equal. lia. }
      assert (0 < 2 ^ k) by (apply Z.pow_pos_nonneg; lia). nia.
    + rewrite (Z.max_l 0 k), (Z.max_r 0 (- k)) by lia.
      rewrite Z.pow_0_r, Z.mul_1_r.
      assert (2 ^ Z.succ (Z.log2 n) * 2 ^ (- k) = 2 * 2 ^ Z.log2 d) as E.
      { rewrite <- Z.pow_add_r, <- Z.pow_succ_r by lia. f_equal. lia. }
      assert (0 < 2 ^ (- k)) by (apply Z.pow_pos_nonneg; lia). nia.
  - destruct (Z.le_gt_cases 1 k) as [Hk|Hk].
    + rewrite (Z.max_r 0 k), (Z.max_l 0 (- k)) in H1 by lia.
      rewrite (Z.max_r 0 (k - 1)), (Z.max_l 0 (- (k - 1))) by lia.
      rewrite Z.pow_0_r, Z.mul_1_r in *.
      replace (2 ^ k) with (2 * 2 ^ (k - 1)) in H1
        by (rewrite <- Z.pow_succ_r by lia; f_equal; lia).
      lia.
    + rewrite (Z.max_l 0 k), (Z.max_r 0 (- k)) in H1 by lia.
      rewrite (Z.max_l 0 (k - 1)), (Z.max_r 0 (- (k - 1))) by lia.
      rewrite Z.pow_0_r, Z.mul_1_r in *.
      replace (2 ^ (- (k - 1))) with (2 * 2 ^ (- k))
        by (rewrite <- Z.pow_succ_r by lia; f_equal; lia).
      lia.
Qed.

Lemma rne_exact I b : 0 <= I → 0 < b → rne (I * b) b = I.
Proof.
  intros HI Hb. unfold rne.
  rewrite Z.mod_mul, Z.div_mul by lia.
  change (2 * 0) with 0. destruct (Z.compare_spec 0 b); lia.
Qed.

Lemma Qpower2_pos e : (0 < Qpower 2 e)%Q.
Proof. apply Qpower_0_lt. reflexivity. Qed.

Lemma binade_bounds (x : Q) :
  (0 < x)%Q →
  let k := binade (Qnum x) (Z.pos (Qden x)) in
  (Qpower 2 k <= x ∧ x < Qpower 2 (k + 1))%Q.
Proof.
  destruct x as [n d]. intros Hx k. cbn [Qnum Qden] in k.
  assert (0 < n) as Hn by (unfold Qlt in Hx; simpl in Hx; lia).
  pose proof (binade_lower n (Z.pos d) Hn ltac:(lia)) as Hlo.
  pose proof (binade_upper n (Z.pos d) Hn ltac:(lia)) as Hup.
  fold k in Hlo, Hup.
  rewrite Qpower_plus by discriminate. change (Qpower 2 1) with 2%Q.
  rewrite Qpower2_split.
  set (P := 2 ^ Z.max 0 k) in *. set (N := 2 ^ Z.max 0 (- k)) in *.
  assert (0 < N) as HN by (apply Z.pow_pos_nonneg; lia).
  assert (0 < P) as HP by (apply Z.pow_pos_nonneg; lia).
  pose proof (inject_Z_pos N HN) as HNq.
  pose proof (inject_Z_pos P HP) as HPq.
  pose proof (inject_Z_pos (Z.pos d) ltac:(lia)) as Hdq.
  rewrite Zle_Qle in Hlo. rewrite Zlt_Qlt in Hup.
  rewrite ?inject_Z_mult in Hlo, Hup. change (inject_Z 2) with 2%Q in Hup.
  rewrite (Qmake_Qdiv n d).
  set (D := (inject_Z N * inject_Z (Z.pos d))%Q).
  assert (0 < D)%Q as HD by (unfold D; nra).
  assert (inject_Z P / inject_Z N * D == inject_Z (Z.pos d) * inject_Z P)%Q
    as E1 by (unfold D; field; lra).
  assert (inject_Z n / inject_Z (Z.pos d) * D == inject_Z n * inject_Z N)%Q
    as E2 by (unfold D; field; lra).
  split.
  - apply (Qmult_le_r _ _ D HD). rewrite E1, E2. exact Hlo.
  - apply (Qmult_lt_r _ _ D HD).
    setoid_replace (inject_Z P / inject_Z N * 2 * D)%Q
      with (2 * (inject_Z P / inject_Z N * D))%Q using relation Qeq by ring.
    rewrite E1, E2. exact Hup.
Qed.

(** A positive number that is an integer multiple of the unit in the last
    place of its binade is not changed by rounding. *)
Lemma round53_scaled_integer (x : Q) (I : Z) :
  (0 < x)%Q →
  (x == inject_Z I * Qpower 2 (binade (Qnum x) (Z.pos (Qden x)) - 52))%Q →
  (round53 x == x)%Q.
Proof.
  destruct x as [n d]. intros Hx HI. cbn [Qnum Qden] in HI.
  assert (0 < n) as Hn by (unfold Qlt in Hx; simpl in Hx; lia).
  unfold round53. cbn [Qnum Qden].
  rewrite (Z.abs_eq n) by lia.
  destruct (Z.eqb_spec n 0) as [->|_]; [lia|].
  rewrite (Z.sgn_pos n Hn), Z.mul_1_l.
  set (e := binade n (Z.pos d) - 52) in *.
  set (N := 2 ^ Z.max 0 (- e)). set (P := 2 ^ Z.max 0 e).
  rewrite Qred_correct.
  assert (0 < N) as HN by (apply Z.pow_pos_nonneg; lia).
  assert (0 < P) as HP by (apply Z.pow_pos_nonneg; lia).
  pose proof (inject_Z_pos N HN) as HNq.
  pose proof (inject_Z_pos P HP) as HPq.
  pose proof (inject_Z_pos (Z.pos d) ltac:(lia)) as Hdq.
  assert (0 < I) as HIpos.
  { pose proof (Qpower2_pos e) as Hp. rewrite HI in Hx.
    assert (0 < inject_Z I)%Q as H by nra.
    change 0%Q with (inject_Z 0) in H. rewrite <- Zlt_Qlt in H. exact H. }
  assert (n * N = I * (Z.pos d * P)) as E.
  { apply inject_Z_injective. rewrite !inject_Z_mult.
    rewrite Qpower2_split in HI. fold N P in HI.
    rewrite (Qmake_Qdiv n d) in HI.
    assert (inject_Z n == inject_Z n / inject_Z (Z.pos d) * inject_Z (Z.pos d))%Q
      as -> by (field; lra).
    rewrite HI. field. lra. }
  rewrite E, rne_exact by lia. rewrite HI. reflexivity.
Qed.

(** Numbers with a mantissa of at most 53 bits are not changed by
    rounding. *)
Lemma round53_exact (x : Q) (M E : Z) :
  0 < M <= 2 ^ 53 →
  (x == inject_Z M * Qpower 2 E)%Q →
  (round53 x == x)%Q.
Proof.
  assert (∀ x M E, 0 < M < 2 ^ 53 → (x == inject_Z M * Qpower 2 E)%Q →
                   (round53 x == x)%Q) as Hstrict.
  { clear. intros x M E HM Hx.
    pose proof (Qpower2_pos E) as HpE.
    pose proof (inject_Z_pos M ltac:(lia)) as HMq.
    assert (0 < x)%Q as Hpos by (rewrite Hx; nra).
    pose proof (binade_bounds x Hpos) as [Hlo _]. cbv zeta in Hlo.
    set (k := binade (Qnum x) (Z.pos (Qden x))) in *.
    assert (k < 53 + E) as Hk.
    { apply (Qpower_lt_compat_l_inv 2); [|reflexivity].
      eapply Qle_lt_trans; [exact Hlo|]. rewrite Hx.
      rewrite Qpower_plus by discriminate.
      apply Qmult_lt_compat_r; [exact HpE|].
      change (Qpower 2 53) with (inject_Z (2 ^ 53)). rewrite <- Zlt_Qlt. lia. }
    apply (round53_scaled_integer x (M * 2 ^ (E - (k - 52))) Hpos).
    fold k. rewrite Hx, inject_Z_mult, Zpower_Qpower by lia.
    change (inject_Z 2) with 2%Q.
    rewrite <- Qmult_assoc, <- Qpower_plus by discriminate.
    replace (E - (k - 52) + (k - 52)) with E by lia. reflexivity. }
  intros [HM1 HM2] Hx.
  destruct (Z.eq_dec M (2 ^ 53)) as [->|Hne].
  - apply (Hstrict x 1 (53 + E)); [lia|].
    rewrite Hx, Qpower_plus by discriminate.
    change (inject_Z (2 ^ 53)) with (Qpower 2 53). ring.
  - apply (Hstrict x M E); [lia|exact Hx].
Qed.

Lemma scaled_upper n d :
  0 < n → 0 < d →
  let e := binade n d - 52 in
  n * 2 ^ Z.max 0 (- e) < 2 ^ 53 * (d * 2 ^ Z.max 0 e).
Proof.
  intros Hn Hd e. pose proof (binade_upper n d Hn Hd) as H.
  set (k := binade n d) in *. subst e.
  destruct (Z.le_gt_cases k 0) as [Hk|Hk];
    [|destruct (Z.le_gt_cases 52 k) as [Hk'|Hk']].
  - rewrite (Z.max_l 0 k), (Z.max_r 0 (- k)) in H by lia.
    rewrite (Z.max_l 0 (k - 52)), (Z.max_r 0 (- (k - 52))) by lia.
    replace (- (k - 52)) with (- k + 52) by lia.
    rewrite Z.pow_add_r by lia. rewrite Z.pow_0_r in *.
    change (2 ^ 53) with (2 * 2 ^ 52). nia.
  - rewrite (Z.max_r 0 k), (Z.max_l 0 (- k)) in H by lia.
    rewrite (Z.max_r 0 (k - 52)), (Z.max_l 0 (- (k - 52))) by lia.
    rewrite Z.pow_0_r in *.
    replace (2 ^ k) with (2 ^ 52 * 2 ^ (k - 52)) in H
      by (rewrite <- Z.pow_add_r by lia; f_equal; lia).
    change (2 ^ 53) with (2 * 2 ^ 52). nia.
  - rewrite (Z.max_r 0 k), (Z.max_l 0 (- k)) in H by lia.
    rewrite (Z.max_l 0 (k - 52)), (Z.max_r 0 (- (k - 52))) by lia.
    rewrite Z.pow_0_r in *.
    replace (2 ^ 53) with (2 * (2 ^ k * 2 ^ (- (k - 52))))
      by (rewrite <- Z.pow_add_r by lia; replace (k + - (k - 52)) with 52 by lia;
          reflexivity).
    assert (0 < 2 ^ (- (k - 52))) by (apply Z.pow_pos_nonneg; lia).
    nia.
Qed.

(** The result of a rounding has a mantissa of at most 53 bits. *)
Lemma round53_format (x : Q) :
  (0 < x)%Q →
  ∃ M E, 0 < M <= 2 ^ 53 ∧ (round53 x == inject_Z M * Qpower 2 E)%Q.
Proof.
  destruct x as [n d]. intros Hx.
  assert (0 < n) as Hn by (unfold Qlt in Hx; simpl in Hx; lia).
  unfold round53. cbn [Qnum Qden].
  rewrite (Z.abs_eq n) by lia.
  destruct (Z.eqb_spec n 0) as [->|_]; [lia|].
  rewrite (Z.sgn_pos n Hn), Z.mul_1_l.
  set (e := binade n (Z.pos d) - 52).
  set (N := 2 ^ Z.max 0 (- e)). set (P := 2 ^ Z.max 0 e).
  set (m := rne (n * N) (Z.pos d * P)).
  assert (0 < N) as HN by (apply Z.pow_pos_nonneg; lia).
  assert (0 < P) as HP by (apply Z.pow_pos_nonneg; lia).
  pose proof (scaled_lower n (Z.pos d) Hn ltac:(lia)) as Hlow.
  pose proof (scaled_upper n (Z.pos d) Hn ltac:(lia)) as Hupp.
  cbv zeta in Hlow, Hupp. fold e N P in Hlow, Hupp.
  pose proof (rne_near (n * N) (Z.pos d * P) ltac:(lia) ltac:(lia)) as Hnear.
  fold m in Hnear.
  exists m, e. split; [|apply Qred_correct].
  change (2 ^ 53) with 9007199254740992 in *.
  change (2 ^ 52) with 4503599627370496 in *.
  assert (0 < Z.pos d * P) by lia.
  split; nia.
Qed.

(** Subtracting its integer part from a non-integral rounded number is
    exact. *)
Lemma fractional_part_exact (y : Q) :
  let q := round53 y in
  (0 < q)%Q → (inject_Z (Qfloor q) < q)%Q →
  (round53 (inject_Z (Qfloor q)) == inject_Z (Qfloor q))%Q ∧
  (round53 (q + - round53 (inject_Z (Qfloor q))) == q - inject_Z (Qfloor q))%Q.
Proof.
  intros q Hq Hfrac.
  assert (0 < y)%Q as Hy.
  { destruct (Qlt_le_dec 0 y) as [H|H]; [exact H|]. exfalso.
    destruct (Qeq_dec y 0) as [E|E].
    - subst q. rewrite (round53_0 y E) in Hq. discriminate.
    - subst q. unfold round53 in Hq.
      destruct (Z.abs (Qnum y) =? 0); [discriminate|].
      rewrite Qred_correct in Hq.
      assert (Qnum y < 0) as Hneg.
      { destruct y as [n d]. unfold Qle, Qeq in *. cbn in *. lia. }
      rewrite (Z.sgn_neg _ Hneg) in Hq.
      set (m := rne _ _) in Hq.
      assert (0 <= m) as Hm.
      { unfold m, rne.
        set (a := Z.abs (Qnum y) * _). set (b := Z.pos (Qden y) * _).
        assert (0 <= a) by (unfold a; apply Z.mul_nonneg_nonneg;
                            [lia|apply Z.pow_nonneg; lia]).
        assert (0 < b) by (unfold b; apply Z.mul_pos_pos;
                           [lia|apply Z.pow_pos_nonneg; lia]).
        pose proof (Z.div_pos a b ltac:(lia) ltac:(lia)).
        destruct (_ ?= _); [destruct (Z.even _)| |]; lia. }
      pose proof (Qpower2_pos (binade (Z.abs (Qnum y)) (Z.pos (Qden y)) - 52))
        as Hp.
      assert (inject_Z (-1 * m) <= 0)%Q as Hle.
      { change 0%Q with (inject_Z 0). rewrite <- Zle_Qle. lia. }
      nra. }
  destruct (round53_format y Hy) as (M & E & HM & HME). fold q in HME.
  set (f := Qfloor q) in *.
  pose proof (Qfloor_le q) as Hfle. fold f in Hfle.
  assert (0 <= f) as Hf0.
  { change 0 with (Qfloor 0). apply Qfloor_resp_le. lra. }
  pose proof (Qpower2_pos E) as HpE.
  assert (E < 0) as HE.
  { destruct (Z.lt_ge_cases E 0) as [H|H]; [exact H|]. exfalso.
    assert (q == inject_Z (M * 2 ^ E))%Q as Hint.
    { rewrite HME, inject_Z_mult, Zpower_Qpower by lia. reflexivity. }
    unfold f in Hfrac. rewrite (Qfloor_comp _ _ Hint), Qfloor_Z in Hfrac.
    rewrite Hint in Hfrac. lra. }
  assert (Qpower 2 E * Qpower 2 (- E) == 1)%Q as Hinv.
  { rewrite <- Qpower_plus by discriminate.
    replace (E + - E) with 0 by lia. reflexivity. }
  assert (Qpower 2 (- E) == inject_Z (2 ^ (- E)))%Q as HNE.
  { rewrite Zpower_Qpower by lia. reflexivity. }
  assert (1 <= Qpower 2 (- E))%Q as Hge1.
  { change 1%Q with (Qpower 2 0). apply Qpower_le_compat_l; [lia|discriminate]. }
  assert (f < 2 ^ 53) as Hf53.
  { rewrite Zlt_Qlt. eapply Qle_lt_trans; [exact Hfle|]. rewrite HME.
    assert (inject_Z M <= inject_Z (2 ^ 53))%Q as HMq by (rewrite <- Zle_Qle; lia).
    assert (0 < inject_Z M)%Q as HM0 by (apply inject_Z_pos; lia).
    assert (Qpower 2 E < 1)%Q.
    { change 1%Q with (Qpower 2 0). apply Qpower_lt_compat_l; [lia|reflexivity]. }
    nra. }
  assert (round53 (inject_Z f) == inject_Z f)%Q as Hrf.
  { destruct (Z.eq_dec f 0) as [->|Hne]; [reflexivity|].
    apply (round53_exact _ f 0); [lia|]. change (Qpower 2 0) with 1%Q. ring. }
  split; [exact Hrf|].
  assert (q + - round53 (inject_Z f) == q - inject_Z f)%Q as Harg
    by (rewrite Hrf; ring).
  apply Qeq_trans with (q + - round53 (inject_Z f))%Q; [|exact Harg].
  apply (round53_exact _ (M - f * 2 ^ (- E)) E).
  - assert (0 < 2 ^ (- E)) by (apply Z.pow_pos_nonneg; lia).
    split; [|nia].
    assert (inject_Z f * Qpower 2 (- E) < inject_Z M)%Q as Hlt.
    { assert (inject_Z M == q * Qpower 2 (- E))%Q as ->.
      { rewrite HME, <- Qmult_assoc, Hinv. ring. }
      apply Qmult_lt_compat_r; [lra|exact Hfrac]. }
    rewrite HNE, <- inject_Z_mult, <- Zlt_Qlt in Hlt. lia.
  - rewrite Harg, HME. unfold Z.sub.
    rewrite inject_Z_plus, inject_Z_opp, inject_Z_mult, <- HNE.
    setoid_replace ((inject_Z M + - (inject_Z f * Qpower 2 (- E))) * Qpower 2 E)%Q
      with (inject_Z M * Qpower 2 E
            - inject_Z f * (Qpower 2 E * Qpower 2 (- E)))%Q
      using relation Qeq by ring.
    rewrite Hinv. ring.
Qed.

Lemma fadd_Fin_rounded a x q : fadd (Fin a) x = Fin q → ∃ y, q = round53 y.
Proof. destruct x; cbn; intros [= <-]. eauto. Qed.

(* ===================================================================== *)
(** ** The tabulators *)
(* ===================================================================== *)

Lemma bool_index_fmap {A} (f : Z → A) (l : list Z) :
  bool_index (f <$> l) (np_ne l 0) = f <$> filter (λ x, x ≠ 0) l.
Proof.
  induction l as [|x l IH]; [reflexivity|].
  cbn [fmap list_fmap np_ne map bool_index]. rewrite filter_cons.
  fold (np_ne l 0). fold (list_fmap _ _ f l).
  destruct (Z.eqb_spec x 0) as [->|Hx]; simpl.
  - exact IH.
  - rewrite decide_True by exact Hx. cbn. f_equal. exact IH.
Qed.

Lemma bool_index_id (l : list Z) :
  bool_index l (np_ne l 0) = filter (λ x, x ≠ 0) l.
Proof.
  pose proof (bool_index_fmap id l) as H.
  rewrite !list_fmap_id in H. exact H.
Qed.

Lemma csv_data_frame_fmap year (g : Z → Z) (h : Z → float64) (l : list Z) :
  Csv.data_frame year l (g <$> l) (map h (g <$> l)) =
  (λ v, {| Csv.ano := year; Csv.classe := v; Csv.num_px := g v;
           Csv.porc_rel := h (g v) |}) <$> l.
Proof. induction l as [|x l IH]; [reflexivity|]. cbn. f_equal. exact IH. Qed.

Lemma chart_data_frame_fmap (g : Z → Z) (h : Z → float64)
    (n c : Z → string) (l : list Z) :
  Chart.data_frame l (g <$> l) (map h (g <$> l)) (map n l) (map c l) =
  (λ v, {| Chart.classe := v; Chart.cont_px := g v; Chart.porcent := h (g v);
           Chart.nome_pt := n v; Chart.cor_hex := c v |}) <$> l.
Proof. induction l as [|x l IH]; [reflexivity|]. cbn. f_equal. exact IH. Qed.

(** What the CSV tabulator returns for a readable raster. *)
Lemma process_raster_for_csv_rows fs raster_path year legend_data raster_data :
  rasterio_read1 fs raster_path = inr raster_data →
  Csv.process_raster_for_csv fs raster_path year legend_data =
  inr (Csv.sort_by_num_px (csv_rows year (concat raster_data))).
Proof.
  intros E. unfold Csv.process_raster_for_csv. rewrite E.
  unfold np_unique. cbv zeta. cbn match.
  set (a := concat raster_data).
  set (unique := merge_sort Z.le (remove_dups a)).
  change (map (λ v, count_of v a) unique) with ((λ v, count_of v a) <$> unique).
  rewrite bool_index_fmap, bool_index_id.
  fold (valid_classes a). fold (total_valid a).
  rewrite (csv_data_frame_fmap year (λ v, count_of v a)
             (λ count, fmul (np_true_divide count (total_valid a)) (of_int 100))).
  reflexivity.
Qed.

(** What the chart tabulator returns for a readable raster. *)
Lemma read_raster_rows fs raster_path legend_data raster_data :
  rasterio_read1 fs raster_path = inr raster_data →
  Chart.read_raster_and_get_value_counts fs raster_path legend_data =
  inr (Chart.sort_by_cont_px (chart_rows legend_data (concat raster_data))).
Proof.
  intros E. unfold Chart.read_raster_and_get_value_counts. rewrite E.
  unfold np_unique. cbv zeta. cbn match.
  set (a := concat raster_data).
  set (unique := merge_sort Z.le (remove_dups a)).
  change (map (λ v, count_of v a) unique) with ((λ v, count_of v a) <$> unique).
  rewrite bool_index_fmap, bool_index_id.
  fold (valid_classes a). fold (total_valid a).
  rewrite (chart_data_frame_fmap (λ v, count_of v a)
             (λ count, fmul (np_true_divide count (total_valid a)) (of_int 100))
             (λ code, (Chart.legend_fields legend_data code).1)
             (λ code, (Chart.legend_fields legend_data code).2)).
  reflexivity.
Qed.

Lemma rasterio_read1_inr fs raster_path raster_data :
  rasterio_read1 fs raster_path = inr raster_data ↔
  fs !! raster_path = Some (RasterFile raster_data).
Proof.
  unfold rasterio_read1.
  destruct (fs !! raster_path) as [[b|l|]|]; split; intros H;
    try discriminate; congruence.
Qed.

Lemma elem_of_valid_classes v a : v ∈ valid_classes a ↔ v ∈ a ∧ v ≠ 0.
Proof.
  unfold valid_classes.
  rewrite list_elem_of_filter, merge_sort_Permutation, elem_of_remove_dups.
  tauto.
Qed.

Lemma NoDup_valid_classes a : NoDup (valid_classes a).
Proof.
  unfold valid_classes. apply NoDup_filter.
  rewrite merge_sort_Permutation. apply NoDup_remove_dups.
Qed.

Lemma count_of_cons v x a :
  count_of v (x :: a) = (if decide (x = v) then 1 else 0) + count_of v a.
Proof.
  unfold count_of. rewrite filter_cons.
  destruct (decide (x = v)); simpl; lia.
Qed.

Lemma count_of_pos v a : v ∈ a → 0 < count_of v a.
Proof.
  induction 1 as [v a|v x a _ IH]; rewrite count_of_cons.
  - rewrite decide_True by reflexivity. unfold count_of. lia.
  - destruct (decide (x = v)); lia.
Qed.

Lemma np_sum_indicator (x : Z) (l : list Z) :
  NoDup l →
  np_sum ((λ v, if decide (x = v) then 1 else 0) <$> l) =
  if decide (x ∈ l) then 1 else 0.
Proof.
  induction 1 as [|y l Hy Hl IH]; cbn.
  - rewrite decide_False by apply not_elem_of_nil. reflexivity.
  - fold (np_sum ((λ v, if decide (x = v) then 1 else 0) <$> l)). rewrite IH.
    repeat case_decide; subst; try lia; exfalso;
      rewrite ?elem_of_cons in *; tauto.
Qed.

Lemma np_sum_add (f g : Z → Z) (l : list Z) :
  np_sum ((λ v, f v + g v) <$> l) = np_sum (f <$> l) + np_sum (g <$> l).
Proof.
  induction l as [|y l IH]; cbn; [reflexivity|].
  fold (np_sum ((λ v, f v + g v) <$> l)) (np_sum (f <$> l)) (np_sum (g <$> l)).
  lia.
Qed.

(** Summing the counts over a duplicate-free list of values counts the
    pixels that carry one of them. *)
Lemma np_sum_counts (l a : list Z) :
  NoDup l →
  np_sum ((λ v, count_of v a) <$> l) =
  Z.of_nat (length (filter (λ x, x ∈ l) a)).
Proof.
  intros Hl. induction a as [|x a IH].
  - cbn. induction l as [|y l IHl]; cbn; [reflexivity|].
    apply NoDup_cons in Hl as [_ Hl]. specialize (IHl Hl).
    unfold np_sum in IHl. cbn in IHl. rewrite IHl. reflexivity.
  - erewrite (list_fmap_ext _ (λ v, (if decide (x = v) then 1 else 0)
                                      + count_of v a) l);
      [|intros i v _; apply count_of_cons].
    rewrite (np_sum_add (λ v, if decide (x = v) then 1 else 0)
               (λ v, count_of v a)), IH, np_sum_indicator by exact Hl.
    rewrite filter_cons. destruct (decide (x ∈ l)); simpl; lia.
Qed.

Lemma filter_ext_in {A} (P Q : A → Prop) `{∀ x, Decision (P x)}
    `{∀ x, Decision (Q x)} (l : list A) :
  (∀ x, x ∈ l → (P x ↔ Q x)) → filter P l = filter Q l.
Proof.
  induction l as [|x l IH]; intros HPQ; [reflexivity|].
  rewrite !filter_cons.
  rewrite IH by (intros y Hy; apply HPQ, list_elem_of_further, Hy).
  pose proof (HPQ x (list_elem_of_here _ _)).
  repeat case_decide; tauto.
Qed.

(** The divisor of the percentages is the number of valid pixels. *)
Lemma total_valid_pixels a : total_valid a = Z.of_nat (length (valid_pixels a)).
Proof.
  unfold total_valid. rewrite np_sum_counts by apply NoDup_valid_classes.
  unfold valid_pixels. f_equal. f_equal.
  apply filter_ext_in. intros x Hx. rewrite elem_of_valid_classes. tauto.
Qed.

Lemma np_sum_Permutation (l1 l2 : list Z) : l1 ≡ₚ l2 → np_sum l1 = np_sum l2.
Proof.
  unfold np_sum. induction 1; cbn in *; lia.
Qed.

(** A table that permutes rows carrying positive counts and the
    percentages of these counts in their sum. *)
Lemma table_sums {R} (num : R → Z) (pct : R → float64)
    (rows table : list R) (total : Z) :
  table ≡ₚ rows → rows ≠ [] →
  Forall (λ r, 0 < num r ∧ pct r = percent_of (num r) total) rows →
  np_sum (num <$> rows) = total →
  Forall (λ r, pct r = percent_of (num r) total) table ∧
  np_sum (num <$> table) = total ∧
  sums_to_100 (pct <$> table).
Proof.
  intros Hperm Hne Hrows Hsum.
  rewrite <- Hperm in Hrows.
  assert (np_sum (num <$> table) = total) as Hsum'.
  { rewrite <- Hsum. apply np_sum_Permutation. rewrite Hperm. reflexivity. }
  split; [|split; [exact Hsum'|]].
  - eapply Forall_impl; [exact Hrows|]. intros r [_ E]. exact E.
  - assert (pct <$> table = map (λ c, percent_of c (np_sum (num <$> table)))
                              (num <$> table)) as ->.
    { rewrite Hsum'. change (map ?f ?l) with (f <$> l).
      rewrite <- list_fmap_compose.
      apply Forall_fmap_ext_1. eapply Forall_impl; [exact Hrows|].
      intros r [_ E]. exact E. }
    apply percentages_sum_to_100.
    + rewrite Forall_fmap. eapply Forall_impl; [exact Hrows|].
      intros r [Hpos _]. exact Hpos.
    + intros E. apply fmap_nil_inv in E. subst table.
      apply Permutation_nil_l in Hperm. congruence.
Qed.

Lemma valid_classes_nonempty a x : x ∈ a → x ≠ 0 → valid_classes a ≠ [].
Proof.
  intros Hx Hx0 E.
  assert (x ∈ valid_classes a) as H by (apply elem_of_valid_classes; tauto).
  rewrite E in H. exact (not_elem_of_nil _ H).
Qed.

Lemma csv_rows_invariant year a :
  Forall (λ r, 0 < Csv.num_px r ∧
               Csv.porc_rel r = percent_of (Csv.num_px r) (total_valid a))
         (csv_rows year a).
Proof.
  unfold csv_rows. rewrite Forall_fmap, Forall_forall. intros v Hv. cbn.
  split; [|reflexivity].
  apply count_of_pos. apply elem_of_valid_classes in Hv. tauto.
Qed.

Lemma chart_rows_invariant legend_data a :
  Forall (λ r, 0 < Chart.cont_px r ∧
               Chart.porcent r = percent_of (Chart.cont_px r) (total_valid a))
         (chart_rows legend_data a).
Proof.
  unfold chart_rows. rewrite Forall_fmap, Forall_forall. intros v Hv. cbn.
  split; [|reflexivity].
  apply count_of_pos. apply elem_of_valid_classes in Hv. tauto.
Qed.

Lemma csv_rows_num_px year a :
  Csv.num_px <$> csv_rows year a = (λ v, count_of v a) <$> valid_classes a.
Proof. unfold csv_rows. rewrite <- list_fmap_compose. reflexivity. Qed.

Lemma chart_rows_cont_px legend_data a :
  Chart.cont_px <$> chart_rows legend_data a =
  (λ v, count_of v a) <$> valid_classes a.
Proof. unfold chart_rows. rewrite <- list_fmap_compose. reflexivity. Qed.

(** C1. For a raster with at least one non-zero pixel, both tabulators
    return a table whose percentages are computed from the number of valid
    pixels, whose pixel counts add up to that number, and whose percentages
    add up to 100 within the relative tolerance 1e-6. *)
Theorem year_table_percentages_sum_to_100
    fs raster_path year legend_data raster_data x :
  fs !! raster_path = Some (RasterFile raster_data) →
  x ∈ concat raster_data → x ≠ 0 →
  ∃ csv_table chart_table total,
    Csv.process_raster_for_csv fs raster_path year legend_data = inr csv_table ∧
    Chart.read_raster_and_get_value_counts fs raster_path legend_data
      = inr chart_table ∧
    total = Z.of_nat (length (valid_pixels (concat raster_data))) ∧
    (Forall (λ r, Csv.porc_rel r = percent_of (Csv.num_px r) total) csv_table ∧
     np_sum (Csv.num_px <$> csv_table) = total ∧
     sums_to_100 (Csv.porc_rel <$> csv_table)) ∧
    (Forall (λ r, Chart.porcent r = percent_of (Chart.cont_px r) total)
            chart_table ∧
     np_sum (Chart.cont_px <$> chart_table) = total ∧
     sums_to_100 (Chart.porcent <$> chart_table)).
Proof.
  intros Hfile Hx Hx0. apply rasterio_read1_inr in Hfile.
  set (a := concat raster_data) in *.
  eexists _, _, _. split; [|split; [|split; [reflexivity|split]]].
  - apply process_raster_for_csv_rows. exact Hfile.
  - apply read_raster_rows. exact Hfile.
  - rewrite <- total_valid_pixels. fold a.
    apply (table_sums Csv.num_px Csv.porc_rel (csv_rows year a)).
    + apply merge_sort_Permutation.
    + unfold csv_rows. intros E. apply fmap_nil_inv in E.
      exact (valid_classes_nonempty a x Hx Hx0 E).
    + apply csv_rows_invariant.
    + rewrite csv_rows_num_px. reflexivity.
  - rewrite <- total_valid_pixels. fold a.
    apply (table_sums Chart.cont_px Chart.porcent (chart_rows legend_data a)).
    + apply merge_sort_Permutation.
    + unfold chart_rows. intros E. apply fmap_nil_inv in E.
      exact (valid_classes_nonempty a x Hx Hx0 E).
    + apply chart_rows_invariant.
    + rewrite chart_rows_cont_px. reflexivity.
Qed.

(* ===================================================================== *)
(** ** The CSV script as a whole *)
(* ===================================================================== *)

Lemma elem_of_concat {A} (x : A) (ls : list (list A)) :
  x ∈ concat ls ↔ ∃ l, x ∈ l ∧ l ∈ ls.
Proof.
  rewrite list_elem_of_In, in_concat. split; intros (l & H1 & H2); exists l.
  - rewrite !list_elem_of_In. tauto.
  - rewrite !list_elem_of_In in *. tauto.
Qed.

(** One iteration appends to the tables and to the console. *)
Lemma csv_year_step_app fs legend_data dfs out year :
  Csv.year_step fs legend_data (dfs, out) year =
  (dfs ++ (Csv.year_step fs legend_data ([], []) year).1,
   out ++ (Csv.year_step fs legend_data ([], []) year).2).
Proof.
  unfold Csv.year_step.
  destruct (negb (path_exists fs _)); [cbn; rewrite app_nil_r; reflexivity|].
  destruct (Csv.process_raster_for_csv _ _ _ _) as [e|df]; cbn;
    rewrite <- ?app_assoc; try rewrite app_nil_r; reflexivity.
Qed.

Lemma csv_loop fs legend_data ys dfs out :
  foldl (Csv.year_step fs legend_data) (dfs, out) ys =
  (dfs ++ mjoin ((λ y, (Csv.year_step fs legend_data ([], []) y).1) <$> ys),
   out ++ mjoin ((λ y, (Csv.year_step fs legend_data ([], []) y).2) <$> ys)).
Proof.
  revert dfs out. induction ys as [|y ys IH]; intros dfs out.
  - cbn. rewrite !app_nil_r. reflexivity.
  - cbn [foldl]. rewrite csv_year_step_app, IH, !fmap_cons.
    cbn [mjoin list_join]. rewrite <- !app_assoc. reflexivity.
Qed.

(** The table one iteration contributes comes from an existing raster of
    that very year. *)
Lemma csv_year_step_table fs legend_data year df :
  df ∈ (Csv.year_step fs legend_data ([], []) year).1 →
  ∃ raster_data,
    fs !! str_format Csv.base_raster_path year = Some (RasterFile raster_data) ∧
    df = Csv.sort_by_num_px (csv_rows year (concat raster_data)).
Proof.
  unfold Csv.year_step.
  destruct (negb (path_exists fs _)); cbn; [intros H; inv H|].
  destruct (rasterio_read1 fs (str_format Csv.base_raster_path year))
    as [e|raster_data] eqn:E.
  - unfold Csv.process_raster_for_csv. rewrite E. cbn. intros H; inv H.
  - rewrite (process_raster_for_csv_rows _ _ _ _ _ E). cbn.
    intros H. apply list_elem_of_singleton in H. subst df.
    exists raster_data. split; [|reflexivity].
    apply rasterio_read1_inr. exact E.
Qed.

Lemma csv_year_step_missing fs legend_data year :
  fs !! str_format Csv.base_raster_path year = None →
  Csv.year_step fs legend_data ([], []) year =
  ([], [ArquivoNaoEncontrado (str_format Csv.base_raster_path year)]).
Proof.
  intros H. unfold Csv.year_step, path_exists. rewrite H.
  rewrite bool_decide_eq_false_2; [reflexivity|].
  intros [? ?]; discriminate.
Qed.

(** The messages of one iteration mention no other year. *)
Lemma csv_year_step_msgs fs legend_data year y :
  ProcessandoAno y ∈ (Csv.year_step fs legend_data ([], []) year).2 →
  y = year ∧ path_exists fs (str_format Csv.base_raster_path year) = true.
Proof.
  unfold Csv.year_step.
  destruct (path_exists fs _); cbn.
  - destruct (Csv.process_raster_for_csv _ _ _ _) as [e|df]; cbn;
      rewrite !elem_of_cons; intros H;
      repeat (destruct H as [H|H]; try discriminate; try (inv H; tauto));
      inv H.
  - rewrite list_elem_of_singleton. discriminate.
Qed.

Lemma csv_main_unfold fs :
  let legend_data := (Csv.load_legend fs Csv.json_path).1 in
  let out0 := (Csv.load_legend fs Csv.json_path).2 in
  let all_dataframes :=
    mjoin ((λ y, (Csv.year_step fs legend_data ([], []) y).1) <$> Csv.years) in
  let out :=
    out0 ++ mjoin ((λ y, (Csv.year_step fs legend_data ([], []) y).2)
                     <$> Csv.years) in
  Csv.main fs =
  match all_dataframes with
  | [] => {| Csv.final_df := None; Csv.csv_file := None;
             Csv.stdout := out ++ [NenhumDadoProcessado] |}
  | _ =>
      let final_df := Csv.sort_by_ano_num_px (concat all_dataframes) in
      {| Csv.final_df := Some final_df;
         Csv.csv_file := Some (Csv.to_csv final_df);
         Csv.stdout := out ++ [DataframeFinalCriado (length final_df);
                               ArquivoCsvSalvo Csv.csv_path] |}
  end.
Proof.
  cbv zeta. unfold Csv.main.
  destruct (Csv.load_legend fs Csv.json_path) as [legend_data out0]. cbn [fst snd].
  rewrite csv_loop. rewrite app_nil_l. reflexivity.
Qed.

(** The written file is the serialisation of [final_df]. *)
Lemma csv_file_final_df fs file :
  Csv.csv_file (Csv.main fs) = Some file →
  ∃ df, Csv.final_df (Csv.main fs) = Some df ∧ file = Csv.to_csv df.
Proof.
  rewrite csv_main_unfold. cbv zeta.
  set (tables := mjoin _). clearbody tables.
  destruct tables; [discriminate|].
  cbn [Csv.csv_file Csv.final_df].
  intros [= <-]. eexists. split; reflexivity.
Qed.

(** Every row of [final_df] was tabulated from the existing raster of its
    own year. *)
Lemma csv_final_df_row fs df r :
  Csv.final_df (Csv.main fs) = Some df → r ∈ df →
  ∃ raster_data,
    Csv.ano r ∈ Csv.years ∧
    fs !! str_format Csv.base_raster_path (Csv.ano r)
      = Some (RasterFile raster_data) ∧
    r ∈ csv_rows (Csv.ano r) (concat raster_data).
Proof.
  rewrite csv_main_unfold. cbv zeta.
  set (legend_data := (Csv.load_legend fs Csv.json_path).1).
  set (tables := mjoin _).
  assert (∀ t, t ∈ tables →
            ∃ y, y ∈ Csv.years ∧
                 t ∈ (Csv.year_step fs legend_data ([], []) y).1) as Htables.
  { intros t Ht. apply list_elem_of_join in Ht as (ts & Ht & Hts).
    apply list_elem_of_fmap in Hts as (y & -> & Hy). eauto. }
  clearbody tables. destruct tables as [|d ds]; [discriminate|].
  cbn [Csv.final_df]. intros [= <-]. unfold Csv.sort_by_ano_num_px.
  change (d ++ concat ds) with (concat (d :: ds)).
  rewrite merge_sort_Permutation, elem_of_concat. intros (t & Hr & Ht).
  apply Htables in Ht as (y & Hy & Ht).
  apply csv_year_step_table in Ht as (raster_data & Hfile & ->).
  unfold Csv.sort_by_num_px in Hr. rewrite merge_sort_Permutation in Hr.
  assert (Csv.ano r = y) as Hano.
  { unfold csv_rows in Hr. apply list_elem_of_fmap in Hr as (v & -> & _).
    reflexivity. }
  rewrite Hano. exists raster_data. tauto.
Qed.

Global Instance ano_asc_num_px_desc_trans : Transitive Csv.ano_asc_num_px_desc.
Proof. intros r1 r2 r3. unfold Csv.ano_asc_num_px_desc. lia. Qed.

Global Instance ano_asc_num_px_desc_total : Total Csv.ano_asc_num_px_desc.
Proof. intros r1 r2. unfold Csv.ano_asc_num_px_desc. lia. Qed.

Lemma csv_final_df_sorted fs df :
  Csv.final_df (Csv.main fs) = Some df →
  StronglySorted Csv.ano_asc_num_px_desc df.
Proof.
  rewrite csv_main_unfold. cbv zeta.
  set (tables := mjoin _). clearbody tables.
  destruct tables; [discriminate|].
  cbn [Csv.final_df]. intros [= <-].
  apply StronglySorted_merge_sort; apply _.
Qed.

Lemma elem_of_csv_years year : year ∈ Csv.years ↔ 1985 <= year < 2025.
Proof.
  unfold Csv.years. rewrite list_elem_of_fmap. split.
  - intros (i & -> & Hi). apply elem_of_seq in Hi. lia.
  - intros H. exists (Z.to_nat (year - 1985)). split; [lia|].
    apply elem_of_seq. lia.
Qed.

(** The console of the CSV script: the legend loader's lines, the lines of
    the year loop, and a closing part that reports no year. *)
Lemma csv_stdout fs :
  ∃ closing,
    Csv.stdout (Csv.main fs) =
      (Csv.load_legend fs Csv.json_path).2
      ++ mjoin ((λ y, (Csv.year_step fs (Csv.load_legend fs Csv.json_path).1
                         ([], []) y).2) <$> Csv.years)
      ++ closing ∧
    ∀ y, ProcessandoAno y ∉ closing.
Proof.
  rewrite csv_main_unfold. cbv zeta.
  set (tables := mjoin _). clearbody tables.
  destruct tables; cbn [Csv.stdout]; rewrite <- app_assoc;
    eexists; (split; [reflexivity|]); intros y Hy;
    repeat (apply elem_of_cons in Hy as [Hy|Hy]; [discriminate|]);
    exact (not_elem_of_nil _ Hy).
Qed.

Lemma csv_load_legend_out fs y :
  ProcessandoAno y ∉ (Csv.load_legend fs Csv.json_path).2.
Proof.
  unfold Csv.load_legend. destruct (json_load _ _); cbn; intros H.
  - apply list_elem_of_singleton in H. discriminate.
  - exact (not_elem_of_nil _ H).
Qed.

(** C4. The rows of the written CSV file follow the header
    [ano, classe, num_px, porc_rel], hold their four fields in that order,
    and are sorted by [ano] ascending, then by [num_px] descending. *)
Theorem csv_rows_sorted_with_fixed_columns fs file :
  Csv.csv_file (Csv.main fs) = Some file →
  ∃ df,
    file =
      [Csv.CStr "ano"; Csv.CStr "classe"; Csv.CStr "num_px"; Csv.CStr "porc_rel"]
      :: ((λ r, [Csv.CInt (Csv.ano r); Csv.CInt (Csv.classe r);
                 Csv.CInt (Csv.num_px r); Csv.CFloat (Csv.porc_rel r)]) <$> df) ∧
    StronglySorted
      (λ r1 r2, Csv.ano r1 < Csv.ano r2 ∨
                (Csv.ano r1 = Csv.ano r2 ∧ Csv.num_px r2 <= Csv.num_px r1))
      df.
Proof.
  intros Hfile. apply csv_file_final_df in Hfile as (df & Hdf & ->).
  exists df. split; [reflexivity|].
  exact (csv_final_df_sorted fs df Hdf).
Qed.

(** C6. A year of the configured range whose raster path does not exist is
    reported as not found and not processed, and neither the final table
    nor the written CSV file has a row of that year. *)
Theorem missing_raster_year_is_skipped fs year :
  (1985 <= year < 2025) →
  fs !! str_format Csv.base_raster_path year = None →
  ArquivoNaoEncontrado (str_format Csv.base_raster_path year)
    ∈ Csv.stdout (Csv.main fs) ∧
  (ProcessandoAno year ∉ Csv.stdout (Csv.main fs)) ∧
  (∀ df r, Csv.final_df (Csv.main fs) = Some df → r ∈ df → Csv.ano r ≠ year) ∧
  (∀ file line, Csv.csv_file (Csv.main fs) = Some file → line ∈ file →
                line !! 0%nat ≠ Some (Csv.CInt year)).
Proof.
  intros Hrange Hmissing. apply elem_of_csv_years in Hrange.
  assert (∀ df r, Csv.final_df (Csv.main fs) = Some df → r ∈ df →
                  Csv.ano r ≠ year) as Hrows.
  { intros df r Hdf Hr Hano.
    destruct (csv_final_df_row fs df r Hdf Hr) as (rd & _ & Hfile & _).
    rewrite Hano in Hfile. congruence. }
  destruct (csv_stdout fs) as (closing & -> & Hclosing).
  split; [|split; [|split; [exact Hrows|]]].
  - rewrite !elem_of_app. right. left.
    apply list_elem_of_join. eexists. split; [|apply list_elem_of_fmap_2, Hrange].
    cbn beta. rewrite csv_year_step_missing by exact Hmissing.
    apply list_elem_of_here.
  - rewrite !elem_of_app. intros [H|[H|H]].
    + exact (csv_load_legend_out fs year H).
    + apply list_elem_of_join in H as (ms & H & Hms).
      apply list_elem_of_fmap in Hms as (y & -> & Hy).
      apply csv_year_step_msgs in H as [<- Hex].
      unfold path_exists in Hex. rewrite Hmissing in Hex.
      apply bool_decide_eq_true in Hex as [? ?]. discriminate.
    + exact (Hclosing year H).
  - intros file line Hfile Hline.
    apply csv_file_final_df in Hfile as (df & Hdf & ->).
    unfold Csv.to_csv in Hline. apply elem_of_cons in Hline as [->|Hline].
    + discriminate.
    + apply list_elem_of_fmap in Hline as (r & -> & Hr). cbn.
      intros [= E]. exact (Hrows df r Hdf Hr E).
Qed.

(** C9. The CSV tabulator ignores the legend: two legends give the same
    result, table or exception. *)
Theorem process_raster_for_csv_ignores_legend
    fs raster_path year (legend1 legend2 : gmap string legend_entry) :
  Csv.process_raster_for_csv fs raster_path year legend1 =
  Csv.process_raster_for_csv fs raster_path year legend2.
Proof. reflexivity. Qed.

(* ===================================================================== *)
(** ** Animation frames *)
(* ===================================================================== *)

Lemma create_smooth_animation_inr years unified_df top_n frames_per_year a :
  Chart.create_smooth_animation years unified_df top_n frames_per_year = inr a →
  Chart.all_years years frames_per_year = inr (Chart.frame_years a) ∧
  Chart.interpolated_data a =
    Chart.interpolated_frame years unified_df <$> Chart.frame_years a ∧
  unified_df ≠ [].
Proof.
  unfold Chart.create_smooth_animation.
  destruct (Chart.all_years years frames_per_year) as [e|ys]; [discriminate|].
  destruct unified_df as [|r rs]; [discriminate|].
  intros [= <-]. cbn. done.
Qed.

(** The integer frame years are the elements of [years]. *)
Lemma all_years_int years frames_per_year ys y :
  Chart.all_years years frames_per_year = inr ys →
  Chart.PyInt y ∈ ys → y ∈ years.
Proof.
  unfold Chart.all_years. destruct (last years) as [year_last|] eqn:El;
    [|discriminate].
  intros [= <-]. rewrite elem_of_app, list_elem_of_singleton.
  intros [H|[= ->]].
  - apply list_elem_of_join in H as (l & H & Hl).
    apply list_elem_of_fmap in Hl as (year_i & -> & Hi).
    apply elem_of_cons in H as [[= ->]|H].
    + apply elem_of_take in Hi as (i & Hi & _).
      eapply list_elem_of_lookup_2. exact Hi.
    + apply list_elem_of_fmap in H as (j & [=] & _).
  - apply last_Some in El as (l & ->). rewrite elem_of_app.
    right. apply list_elem_of_here.
Qed.

Lemma year_in_int y years : y ∈ years → Chart.year_in (Chart.PyInt y) years = true.
Proof.
  intros H. unfold Chart.year_in. apply existsb_exists. exists y.
  split; [apply list_elem_of_In, H|]. cbn. apply bool_decide_eq_true. reflexivity.
Qed.

(** A float with a non-zero fractional part equals no element of
    [years]. *)
Lemma year_in_fractional q years :
  (inject_Z (Qfloor q) < q)%Q →
  Chart.year_in (Chart.PyFloat (Fin q)) years = false.
Proof.
  intros Hq. unfold Chart.year_in.
  destruct (existsb _ years) eqn:E; [|reflexivity].
  apply existsb_exists in E as (y & _ & Hy). cbn in Hy.
  apply Qeq_bool_eq in Hy.
  rewrite (Qfloor_comp _ _ Hy), Qfloor_Z in Hq. lra.
Qed.

(** Truncation is the floor for a non-negative value. *)
Lemma py_int_floor q :
  (0 <= q)%Q → Chart.py_int (Chart.PyFloat (Fin q)) = Qfloor q.
Proof.
  intros Hq. destruct q as [n d]. cbn.
  assert (0 <= n) by (unfold Qle in Hq; cbn in Hq; lia).
  apply Z.quot_div_nonneg; lia.
Qed.

Lemma rows_of_year_year unified_df y r :
  r ∈ Chart.rows_of_year unified_df (Chart.PyInt y) → Chart.Unified.year r = y.
Proof.
  unfold Chart.rows_of_year. rewrite list_elem_of_In, filter_In.
  intros [_ H]. cbn in H. apply bool_decide_eq_true in H. congruence.
Qed.

(** Every interpolated frame year is a finite float, the result of a
    rounding. *)
Lemma all_years_float years frames_per_year ys f :
  Chart.all_years years frames_per_year = inr ys →
  Chart.PyFloat f ∈ ys →
  ∃ y, f = Fin (round53 y).
Proof.
  unfold Chart.all_years. destruct (last years) as [year_last|]; [|discriminate].
  intros [= <-]. rewrite elem_of_app, list_elem_of_singleton.
  intros [H|[=]].
  apply list_elem_of_join in H as (l & H & Hl).
  apply list_elem_of_fmap in Hl as (year_i & -> & _).
  apply elem_of_cons in H as [[=]|H].
  apply list_elem_of_fmap in H as (j & [= ->] & Hj).
  apply elem_of_seq in Hj.
  assert (0 < Z.of_nat frames_per_year) as Hfpy by lia.
  unfold of_int, fdiv.
  rewrite (Qeq_bool_pos_false _ (round53_pos _ (inject_Z_pos _ Hfpy))).
  cbn [fmul fadd]. eauto.
Qed.

Lemma all_years_finite years frames_per_year ys f :
  Chart.all_years years frames_per_year = inr ys →
  Chart.PyFloat f ∈ ys → is_finite f = true.
Proof.
  intros Hys Hf. destruct (all_years_float _ _ _ _ Hys Hf) as (y & ->).
  reflexivity.
Qed.

(** The rows of a year, and the row [next_val] reads, told from the
    unified table itself. *)
Lemma rows_of_year_filter unified_df y :
  Chart.rows_of_year unified_df (Chart.PyInt y) =
  filter (λ r, Chart.Unified.year r = y) unified_df.
Proof.
  unfold Chart.rows_of_year. cbn [Chart.num_eq_int].
  induction unified_df as [|r l IH]; [reflexivity|].
  cbn [List.filter]. rewrite filter_cons, <- IH.
  destruct (decide (Chart.Unified.year r = y)) as [E|E].
  - rewrite bool_decide_eq_true_2 by congruence. reflexivity.
  - rewrite bool_decide_eq_false_2 by congruence. reflexivity.
Qed.

Lemma next_val_head c unified_df y :
  Chart.next_val c (Chart.rows_of_year unified_df (Chart.PyInt y)) =
  Chart.Unified.porcent
    <$> head (filter (λ r, Chart.Unified.year r = y ∧
                           Chart.Unified.classe r = c) unified_df).
Proof.
  unfold Chart.next_val, Chart.rows_of_year. cbn [Chart.num_eq_int].
  induction unified_df as [|r l IH]; [reflexivity|].
  cbn [List.filter]. rewrite filter_cons.
  destruct (decide (Chart.Unified.year r = y)) as [Ey|Ey].
  - rewrite bool_decide_eq_true_2 by congruence. cbn [List.find].
    destruct (decide (Chart.Unified.classe r = c)) as [Ec|Ec].
    + rewrite bool_decide_eq_true_2 by exact Ec.
      rewrite decide_True by tauto. reflexivity.
    + rewrite bool_decide_eq_false_2 by exact Ec.
      rewrite decide_False by tauto. exact IH.
  - rewrite bool_decide_eq_false_2 by congruence.
    rewrite decide_False by tauto. exact IH.
Qed.

(** C7, as the code behaves.  An integer-year frame holds exactly the rows
    of the unified table of that year.  A frame whose year value [q] has a
    fractional part strictly between 0 and 1 has one row per row of the
    unified table of the year [int(q)], in the same order and of the same
    class.  With [alpha = q - int(q)] as the code computes it, the row gets
    the percentage [prev * (1 - alpha) + next * alpha], evaluated in
    floating point, when the unified table has a row of the class at the
    year [int(q) + 1] ([next] being the first one); when it has none, the
    row is the row of [int(q)] unchanged, its percentage not interpolated.
    For a non-negative [q], [int(q)] is the floor of [q] and the
    subtraction is exact: [alpha] is the fractional part of [q]. *)
Theorem frame_percentages_are_interpolated
    years unified_df top_n frames_per_year a k :
  Chart.create_smooth_animation years unified_df top_n frames_per_year = inr a →
  (∀ y, Chart.frame_years a !! k = Some (Chart.PyInt y) →
        Chart.interpolated_data a !! k =
          Some (filter (λ r, Chart.Unified.year r = y) unified_df)) ∧
  (∀ q, Chart.frame_years a !! k = Some (Chart.PyFloat (Fin q)) →
        (0 < q - inject_Z (Qfloor q))%Q → (q - inject_Z (Qfloor q) < 1)%Q →
        let year_prev := Chart.py_int (Chart.PyFloat (Fin q)) in
        let alpha := fsub (Fin q) (of_int year_prev) in
        ((0 <= q)%Q →
         year_prev = Qfloor q ∧
         ∃ fraction, alpha = Fin fraction ∧
                     (fraction == q - inject_Z (Qfloor q))%Q) ∧
        ∃ frame,
          Chart.interpolated_data a !! k = Some frame ∧
          Forall2
            (λ row prev,
               Chart.Unified.classe row = Chart.Unified.classe prev ∧
               match head (filter (λ r, Chart.Unified.year r = year_prev + 1 ∧
                                        Chart.Unified.classe r =
                                          Chart.Unified.classe prev)
                                  unified_df) with
               | Some next =>
                   Chart.Unified.porcent row =
                     fadd (fmul (Chart.Unified.porcent prev)
                                (fsub (of_int 1) alpha))
                          (fmul (Chart.Unified.porcent next) alpha)
               | None => row = prev
               end)
            frame
            (filter (λ r, Chart.Unified.year r = year_prev) unified_df)).
Proof.
  intros Ha.
  destruct (create_smooth_animation_inr _ _ _ _ _ Ha) as (Hys & Hdata & _).
  split.
  - intros y Hk. rewrite Hdata, list_lookup_fmap, Hk. cbn. f_equal.
    unfold Chart.interpolated_frame.
    rewrite year_in_int; [apply rows_of_year_filter|].
    eapply all_years_int; [exact Hys|].
    eapply list_elem_of_lookup_2. exact Hk.
  - intros q Hk Hfrac _ year_prev alpha. split.
    + intros Hq. pose proof (py_int_floor q Hq) as Hprev.
      fold year_prev in Hprev. split; [exact Hprev|].
      destruct (all_years_float _ _ _ _ Hys (list_elem_of_lookup_2 _ _ _ Hk))
        as (y & [= Hy]).
      unfold alpha. rewrite Hprev. eexists. split; [reflexivity|].
      assert (0 < q)%Q as Hqpos.
      { pose proof (Qfloor_le q) as Hfle.
        assert (0 <= Qfloor q) as Hf0
          by (change 0 with (Qfloor 0); apply Qfloor_resp_le; exact Hq).
        rewrite Zle_Qle in Hf0. change (inject_Z 0) with 0%Q in Hf0. lra. }
      pose proof (fractional_part_exact y) as Hex. cbv zeta in Hex.
      rewrite <- Hy in Hex. apply Hex; [exact Hqpos|lra].
    + rewrite Hdata, list_lookup_fmap, Hk. cbn [fmap option_fmap option_map].
      eexists. split; [reflexivity|].
      unfold Chart.interpolated_frame.
      rewrite year_in_fractional by lra. cbv zeta.
      fold year_prev. cbn [Chart.py_sub_int Chart.py_int_sub Chart.to_float].
      fold alpha. rewrite (rows_of_year_filter unified_df year_prev).
      apply Forall2_fmap_l, Forall_Forall2_diag, Forall_forall.
      intros prev Hprev. cbv beta delta [compose]. rewrite next_val_head.
      destruct (head _) as [next|]; cbn [fmap option_fmap option_map];
        split; reflexivity.
Qed.

(** C10. In a frame whose year is not an element of [years], every row is
    a row of the unified table at the year [int(year)], the floor of a
    non-negative [year], in which at most the percentage was replaced:
    class, name, colour, rank and the stored year are those of that row. *)
Theorem fractional_frame_keeps_other_fields
    years unified_df top_n frames_per_year a k year :
  Chart.create_smooth_animation years unified_df top_n frames_per_year = inr a →
  Chart.frame_years a !! k = Some year →
  Chart.year_in year years = false →
  (∀ q, year = Chart.PyFloat (Fin q) → (0 <= q)%Q →
        Chart.py_int year = Qfloor q) ∧
  ∃ frame,
    Chart.interpolated_data a !! k = Some frame ∧
    Forall2
      (λ row prev,
         Chart.Unified.year prev = Chart.py_int year ∧
         Chart.Unified.year row = Chart.Unified.year prev ∧
         Chart.Unified.classe row = Chart.Unified.classe prev ∧
         Chart.Unified.nome_pt row = Chart.Unified.nome_pt prev ∧
         Chart.Unified.cor_hex row = Chart.Unified.cor_hex prev ∧
         Chart.Unified.rank row = Chart.Unified.rank prev)
      frame
      (Chart.rows_of_year unified_df (Chart.PyInt (Chart.py_int year))).
Proof.
  intros Ha Hk Hin.
  split; [intros q -> Hq; exact (py_int_floor q Hq)|].
  destruct (create_smooth_animation_inr _ _ _ _ _ Ha) as (_ & Hdata & _).
  rewrite Hdata, list_lookup_fmap, Hk. cbn. eexists. split; [reflexivity|].
  unfold Chart.interpolated_frame. rewrite Hin.
  apply Forall2_fmap_l, Forall_Forall2_diag, Forall_forall.
  intros prev Hprev.
  split; [exact (rows_of_year_year _ _ _ Hprev)|].
  destruct (Chart.next_val _ _); cbn; tauto.
Qed.

(* ===================================================================== *)
(** ** The unified table *)
(* ===================================================================== *)

Lemma elem_of_all_classes c dataframes top_n :
  c ∈ Chart.all_classes dataframes top_n ↔
  ∃ df, df ∈ dataframes ∧ c ∈ take top_n (Chart.classe <$> df).
Proof.
  unfold Chart.all_classes.
  assert (∀ acc : gset Z,
            c ∈ foldl (λ acc df, acc ∪ list_to_set
                         (take top_n (Chart.classe <$> df))) acc dataframes ↔
            c ∈ acc ∨ ∃ df, df ∈ dataframes ∧
                            c ∈ take top_n (Chart.classe <$> df)) as H.
  { induction dataframes as [|df dfs IH]; intros acc; cbn [foldl].
    - split; [tauto|]. intros [H|(df & H & _)]; [exact H|].
      exfalso. exact (not_elem_of_nil _ H).
    - rewrite IH, elem_of_union, elem_of_list_to_set. split.
      + intros [[H|H]|(df' & H1 & H2)]; [tauto| |].
        * right. exists df. split; [apply list_elem_of_here|exact H].
        * right. exists df'. split; [apply list_elem_of_further, H1|exact H2].
      + intros [H|(df' & H1 & H2)]; [tauto|].
        apply elem_of_cons in H1 as [->|H1]; [tauto|].
        right. exists df'. tauto. }
  rewrite H. split; [|tauto]. intros [Hc|Hc]; [|exact Hc].
  exfalso. exact (not_elem_of_empty _ Hc).
Qed.

Lemma elem_of_take_elem_of {A} (x : A) n l : x ∈ take n l → x ∈ l.
Proof.
  intros H. apply elem_of_take in H as (i & H & _).
  eapply list_elem_of_lookup_2. exact H.
Qed.

Lemma find_row_Some c df r :
  Chart.find_row c df = Some r → r ∈ df ∧ Chart.classe r = c.
Proof.
  unfold Chart.find_row. destruct (list_find _ df) as [[i r']|] eqn:E;
    [|discriminate].
  intros [= <-]. apply list_find_Some in E as (Hi & Hc & _).
  split; [eapply list_elem_of_lookup_2; exact Hi | exact Hc].
Qed.

Lemma find_row_None c df :
  Chart.find_row c df = None ↔ c ∉ Chart.classe <$> df.
Proof.
  unfold Chart.find_row. rewrite fmap_None, list_find_None, Forall_forall.
  rewrite list_elem_of_fmap. split.
  - intros H (r & -> & Hr). exact (H r Hr eq_refl).
  - intros H r Hr Hc. apply H. exists r. split; [symmetry; exact Hc|exact Hr].
Qed.

Lemma find_row_is_Some c df :
  c ∈ Chart.classe <$> df → is_Some (Chart.find_row c df).
Proof.
  intros H. destruct (Chart.find_row c df) eqn:E; [eauto|].
  apply find_row_None in E. contradiction.
Qed.

(** The search for another table stops at the first one holding the
    class. *)
Lemma find_other_first c dataframes :
  (∃ df, df ∈ dataframes ∧ c ∈ Chart.classe <$> df) →
  ∃ j other_df other_row,
    dataframes !! j = Some other_df ∧
    (∀ j' df', (j' < j)%nat → dataframes !! j' = Some df' →
               c ∉ Chart.classe <$> df') ∧
    Chart.find_row c other_df = Some other_row ∧
    Chart.find_other c dataframes = Some other_row.
Proof.
  induction dataframes as [|d ds IH]; intros (df & Hdf & Hc).
  - exfalso. exact (not_elem_of_nil _ Hdf).
  - cbn [Chart.find_other]. destruct (Chart.find_row c d) as [r|] eqn:E.
    + exists 0%nat, d, r. split; [reflexivity|]. split; [intros; lia|].
      split; [exact E|reflexivity].
    + apply find_row_None in E.
      apply elem_of_cons in Hdf as [->|Hdf]; [contradiction|].
      destruct IH as (j & od & orow & Hj & Hfirst & Hfind & Hother);
        [eauto|].
      exists (S j), od, orow. split; [exact Hj|]. split; [|tauto].
      intros [|j'] df' Hlt Hl; cbn in Hl.
      * congruence.
      * apply (Hfirst j' df'); [lia | exact Hl].
Qed.

Lemma unified_row_year_classe dataframes top_n year df c :
  Chart.Unified.year (Chart.unified_row dataframes top_n year df c) = year ∧
  Chart.Unified.classe (Chart.unified_row dataframes top_n year df c) = c.
Proof.
  unfold Chart.unified_row.
  destruct (Chart.find_row c df); [|destruct (Chart.find_other c dataframes)];
    cbn; tauto.
Qed.

Lemma elem_of_unified r dataframes years top_n :
  r ∈ Chart.create_unified_dataframe dataframes years top_n ↔
  ∃ i year df c,
    years !! i = Some year ∧ dataframes !! i = Some df ∧
    c ∈ Chart.all_classes dataframes top_n ∧
    r = Chart.unified_row dataframes top_n year df c.
Proof.
  unfold Chart.create_unified_dataframe.
  rewrite list_elem_of_join. split.
  - intros (l & Hr & Hl).
    apply list_elem_of_fmap in Hl as ([year df] & -> & Hyd).
    apply list_elem_of_lookup in Hyd as (i & Hi).
    apply lookup_zip_with_Some in Hi as (y' & d' & [= <- <-] & Hy & Hd).
    apply list_elem_of_fmap in Hr as (c & -> & Hc).
    apply elem_of_elements in Hc.
    exists i, year, df, c. tauto.
  - intros (i & year & df & c & Hy & Hd & Hc & ->).
    exists (Chart.unified_row dataframes top_n year df
              <$> elements (Chart.all_classes dataframes top_n)).
    split; [apply list_elem_of_fmap_2, elem_of_elements, Hc|].
    apply list_elem_of_fmap. exists (year, df). split; [reflexivity|].
    apply list_elem_of_lookup. exists i.
    apply lookup_zip_with_Some. eauto.
Qed.

Lemma mjoin_cons {A} (l : list A) (ls : list (list A)) :
  mjoin (l :: ls) = l ++ mjoin ls.
Proof. reflexivity. Qed.

Lemma filter_join {A} (P : A → Prop) `{∀ x, Decision (P x)}
    (ls : list (list A)) :
  filter P (mjoin ls) = mjoin (filter P <$> ls).
Proof.
  induction ls as [|l ls IH]; [reflexivity|].
  rewrite fmap_cons, !mjoin_cons, filter_app, IH. reflexivity.
Qed.

Lemma filter_none {A} (P : A → Prop) `{∀ x, Decision (P x)} (l : list A) :
  (∀ x, x ∈ l → ¬ P x) → filter P l = [].
Proof.
  induction l as [|x l IH]; intros HP; [reflexivity|].
  rewrite filter_cons_False by (apply HP, list_elem_of_here).
  apply IH. intros y Hy. apply HP, list_elem_of_further, Hy.
Qed.

Lemma filter_eq_NoDup (c : Z) (l : list Z) :
  NoDup l → c ∈ l → filter (λ x, x = c) l = [c].
Proof.
  induction 1 as [|x l Hx Hl IH]; intros Hc.
  - exfalso. exact (not_elem_of_nil _ Hc).
  - rewrite filter_cons. destruct (decide (x = c)) as [->|Hxc].
    + f_equal. apply filter_none. intros y Hy ->. contradiction.
    + apply elem_of_cons in Hc as [->|Hc]; [congruence|]. exact (IH Hc).
Qed.

Section one_row_per_year_and_class.
Context (dataframes : list (list Chart.row)) (top_n : nat) (Y C : Z).

Let P (r : Chart.Unified.row) : Prop :=
  Chart.Unified.year r = Y ∧ Chart.Unified.classe r = C.
Let block (yd : Z * list Chart.row) : list Chart.Unified.row :=
  Chart.unified_row dataframes top_n yd.1 yd.2
    <$> elements (Chart.all_classes dataframes top_n).

Lemma block_other_year yd : yd.1 ≠ Y → filter P (block yd) = [].
Proof.
  intros Hy. apply filter_none.
  intros r Hr [Hyr _]. unfold block in Hr.
  apply list_elem_of_fmap in Hr as (c & -> & _).
  destruct (unified_row_year_classe dataframes top_n yd.1 yd.2 c) as [E _].
  congruence.
Qed.

Lemma block_same_year df :
  C ∈ Chart.all_classes dataframes top_n →
  filter P (block (Y, df)) = [Chart.unified_row dataframes top_n Y df C].
Proof.
  intros HC. unfold block. cbn [fst snd].
  pose proof (NoDup_elements (Chart.all_classes dataframes top_n)) as Hnd.
  apply elem_of_elements in HC. revert Hnd HC.
  generalize (elements (Chart.all_classes dataframes top_n)). intros l Hnd HC.
  assert (filter P (Chart.unified_row dataframes top_n Y df <$> l) =
          Chart.unified_row dataframes top_n Y df <$> filter (λ x, x = C) l)
    as ->.
  { clear Hnd HC. induction l as [|c l IH]; [reflexivity|].
    rewrite fmap_cons, !filter_cons, IH.
    destruct (unified_row_year_classe dataframes top_n Y df c) as [E1 E2].
    unfold P. repeat case_decide; try reflexivity; exfalso; intuition congruence. }
  rewrite filter_eq_NoDup by assumption. reflexivity.
Qed.

Lemma blocks_without_year (zs : list (Z * list Chart.row)) :
  Y ∉ zs.*1 → filter P (mjoin (block <$> zs)) = [].
Proof.
  induction zs as [|yd zs IH]; intros HY; [reflexivity|].
  rewrite fmap_cons in HY. apply not_elem_of_cons in HY as [HY1 HY2].
  rewrite fmap_cons, mjoin_cons.
  rewrite filter_app, block_other_year, IH by (try exact HY2; congruence).
  reflexivity.
Qed.

Lemma blocks_one_row (zs : list (Z * list Chart.row)) i df :
  NoDup zs.*1 → zs !! i = Some (Y, df) →
  C ∈ Chart.all_classes dataframes top_n →
  filter P (mjoin (block <$> zs)) =
    [Chart.unified_row dataframes top_n Y df C].
Proof.
  intros Hnd Hi HC. revert i Hnd Hi.
  induction zs as [|[y d] zs IH]; intros i Hnd Hi; [discriminate|].
  rewrite fmap_cons in Hnd. apply NoDup_cons in Hnd as [Hyd Hnd].
  cbn [fst] in Hyd.
  rewrite fmap_cons, mjoin_cons, filter_app.
  destruct i as [|i]; cbn in Hi.
  - injection Hi as -> ->.
    rewrite block_same_year, blocks_without_year by assumption.
    reflexivity.
  - assert (y ≠ Y) as Hne.
    { intros ->. apply Hyd.
      apply list_elem_of_lookup_2 in Hi.
      apply (list_elem_of_fmap_2 fst) in Hi. exact Hi. }
    rewrite block_other_year, (IH i) by assumption.
    reflexivity.
Qed.
End one_row_per_year_and_class.

Lemma NoDup_fst_zip {A B} (l : list A) (k : list B) :
  NoDup l → NoDup (zip l k).*1.
Proof.
  intros H. revert k. induction H as [|x l Hx Hl IH]; intros [|y k]; cbn;
    try apply NoDup_nil_2.
  apply NoDup_cons. split; [|apply IH].
  intros Hin. apply Hx. apply list_elem_of_fmap in Hin as ([x' y'] & -> & Hin).
  cbn. eapply elem_of_zip_l. exact Hin.
Qed.

(** The Unifier, on tables listed with their own, pairwise distinct years:
    for a year [Y] with table [df] and a class [C] of the class union, the
    unified table has exactly one row [(Y, C)]. *)
Lemma unifier_one_row_per_year_and_class dataframes years top_n i Y df C :
  NoDup years →
  years !! i = Some Y → dataframes !! i = Some df →
  C ∈ Chart.all_classes dataframes top_n →
  filter (λ r, Chart.Unified.year r = Y ∧ Chart.Unified.classe r = C)
         (Chart.create_unified_dataframe dataframes years top_n) =
  [Chart.unified_row dataframes top_n Y df C].
Proof.
  intros Hnd Hy Hdf HC. unfold Chart.create_unified_dataframe.
  erewrite (list_fmap_ext _
              (λ yd, Chart.unified_row dataframes top_n yd.1 yd.2
                       <$> elements (Chart.all_classes dataframes top_n)));
    [|intros j [y d] _; reflexivity].
  apply (blocks_one_row dataframes top_n Y C (zip years dataframes) i df).
  - apply NoDup_fst_zip, Hnd.
  - apply lookup_zip_with_Some. eauto.
  - exact HC.
Qed.

(** That row, when the class is missing from the year's table: percentage
    0, rank [top_n + 1], name and colour of the first row of the class in
    the first table that holds it. *)
Lemma unified_row_absent dataframes top_n Y df C :
  C ∈ Chart.all_classes dataframes top_n →
  C ∉ Chart.classe <$> df →
  ∃ j other_df other_row,
    dataframes !! j = Some other_df ∧
    (∀ j' df', (j' < j)%nat → dataframes !! j' = Some df' →
               C ∉ Chart.classe <$> df') ∧
    Chart.find_row C other_df = Some other_row ∧
    Chart.unified_row dataframes top_n Y df C =
      {| Chart.Unified.year := Y; Chart.Unified.classe := C;
         Chart.Unified.porcent := Fin 0;
         Chart.Unified.nome_pt := Chart.nome_pt other_row;
         Chart.Unified.cor_hex := Chart.cor_hex other_row;
         Chart.Unified.rank := Z.of_nat top_n + 1 |}.
Proof.
  intros HC Habs.
  apply elem_of_all_classes in HC as (d & Hd & Hc).
  apply elem_of_take_elem_of in Hc.
  destruct (find_other_first C dataframes) as (j & od & orow & Hj & Hfirst & Hrow & Hother);
    [eauto|].
  exists j, od, orow. split; [exact Hj|]. split; [exact Hfirst|].
  split; [exact Hrow|].
  unfold Chart.unified_row.
  apply find_row_None in Habs. rewrite Habs, Hother. reflexivity.
Qed.

(** That row, when the class is in the year's table: the percentage, name
    and colour of its row there, and its 1-based position among the top
    [top_n] classes, or [top_n + 1]. *)
Lemma unified_row_present dataframes top_n Y df C row :
  Chart.find_row C df = Some row →
  Chart.unified_row dataframes top_n Y df C =
    {| Chart.Unified.year := Y; Chart.Unified.classe := C;
       Chart.Unified.porcent := Chart.porcent row;
       Chart.Unified.nome_pt := Chart.nome_pt row;
       Chart.Unified.cor_hex := Chart.cor_hex row;
       Chart.Unified.rank :=
         match Chart.index_of C (Chart.classe <$> take top_n df) with
         | Some i => Z.of_nat i + 1
         | None => Z.of_nat top_n + 1
         end |}.
Proof. intros E. unfold Chart.unified_row. rewrite E. reflexivity. Qed.

(* ===================================================================== *)
(** ** The chart script as a whole *)
(* ===================================================================== *)

Lemma process_raster_for_csv_inr fs raster_path year legend_data df :
  Csv.process_raster_for_csv fs raster_path year legend_data = inr df →
  ∃ raster_data,
    fs !! raster_path = Some (RasterFile raster_data) ∧
    df = Csv.sort_by_num_px (csv_rows year (concat raster_data)).
Proof.
  destruct (rasterio_read1 fs raster_path) as [e|raster_data] eqn:E.
  - unfold Csv.process_raster_for_csv. rewrite E. discriminate.
  - rewrite (process_raster_for_csv_rows _ _ _ _ _ E). intros [= <-].
    exists raster_data. split; [apply rasterio_read1_inr, E|reflexivity].
Qed.

Lemma read_raster_inr fs raster_path legend_data df :
  Chart.read_raster_and_get_value_counts fs raster_path legend_data = inr df →
  ∃ raster_data,
    fs !! raster_path = Some (RasterFile raster_data) ∧
    df = Chart.sort_by_cont_px (chart_rows legend_data (concat raster_data)).
Proof.
  destruct (rasterio_read1 fs raster_path) as [e|raster_data] eqn:E.
  - unfold Chart.read_raster_and_get_value_counts. rewrite E. discriminate.
  - rewrite (read_raster_rows _ _ _ _ E). intros [= <-].
    exists raster_data. split; [apply rasterio_read1_inr, E|reflexivity].
Qed.

Lemma csv_rows_classe year a r : r ∈ csv_rows year a → Csv.classe r ≠ 0.
Proof.
  unfold csv_rows. intros H. apply list_elem_of_fmap in H as (v & -> & Hv).
  cbn. apply elem_of_valid_classes in Hv. tauto.
Qed.

Lemma chart_rows_classe legend_data a r :
  r ∈ chart_rows legend_data a → Chart.classe r ≠ 0.
Proof.
  unfold chart_rows. intros H. apply list_elem_of_fmap in H as (v & -> & Hv).
  cbn. apply elem_of_valid_classes in Hv. tauto.
Qed.

(** What holds of every table the tabulator returns holds of every table
    the year loop collects. *)
Lemma chart_loop_tables (P : list Chart.row → Prop) fs legend_data ys st :
  (∀ raster_path df,
     Chart.read_raster_and_get_value_counts fs raster_path legend_data = inr df →
     P df) →
  Forall P (Chart.dataframes st) →
  Forall P (Chart.dataframes (foldl (Chart.year_step fs legend_data) st ys)).
Proof.
  intros Hread. revert st. induction ys as [|y ys IH]; intros st Hst;
    [exact Hst|].
  cbn [foldl]. apply IH. unfold Chart.year_step.
  destruct (Chart.raised st); [exact Hst|].
  destruct (negb (path_exists fs _)); [exact Hst|].
  destruct (Chart.read_raster_and_get_value_counts _ _ _) as [e|df] eqn:E;
    [exact Hst|].
  cbn. apply Forall_app. split; [exact Hst|].
  apply Forall_singleton. eapply Hread. exact E.
Qed.

Lemma chart_main_unfold fs :
  let legend_data := (Chart.load_legend fs Chart.json_path).1 in
  let st := foldl (Chart.year_step fs legend_data)
              {| Chart.dataframes := [];
                 Chart.out := (Chart.load_legend fs Chart.json_path).2;
                 Chart.raised := None |} Chart.years in
  Chart.main fs =
  match Chart.raised st with
  | Some e =>
      {| Chart.stdout := Chart.out st; Chart.tables := Chart.dataframes st;
         Chart.unified_df := []; Chart.outcome := inl e |}
  | None =>
      let unified :=
        Chart.create_unified_dataframe (Chart.dataframes st) Chart.years 5 in
      {| Chart.stdout := Chart.out st; Chart.tables := Chart.dataframes st;
         Chart.unified_df := unified;
         Chart.outcome := Chart.create_smooth_animation Chart.years unified 5 10 |}
  end.
Proof.
  cbv zeta. unfold Chart.main.
  destruct (Chart.load_legend fs Chart.json_path) as [legend_data out0].
  reflexivity.
Qed.

Lemma chart_main_tables (P : list Chart.row → Prop) fs :
  (∀ raster_path df,
     Chart.read_raster_and_get_value_counts fs raster_path
       (Chart.load_legend fs Chart.json_path).1 = inr df → P df) →
  Forall P (Chart.tables (Chart.main fs)).
Proof.
  intros Hread. rewrite chart_main_unfold. cbv zeta.
  set (st := foldl _ _ _).
  assert (Forall P (Chart.dataframes st)) as H.
  { apply chart_loop_tables; [exact Hread|]. apply Forall_nil_2. }
  clearbody st. destruct (Chart.raised st); exact H.
Qed.

Lemma chart_main_unified fs r :
  r ∈ Chart.unified_df (Chart.main fs) →
  r ∈ Chart.create_unified_dataframe (Chart.tables (Chart.main fs))
        Chart.years 5.
Proof.
  rewrite chart_main_unfold. cbv zeta. set (st := foldl _ _ _).
  clearbody st.
  destruct (Chart.raised st); cbn [Chart.unified_df Chart.tables]; [|tauto].
  intros H. exfalso. exact (not_elem_of_nil _ H).
Qed.

Lemma chart_main_outcome fs a :
  Chart.outcome (Chart.main fs) = inr a →
  Chart.create_smooth_animation Chart.years (Chart.unified_df (Chart.main fs))
    5 10 = inr a.
Proof.
  rewrite chart_main_unfold. cbv zeta. set (st := foldl _ _ _).
  clearbody st.
  destruct (Chart.raised st); cbn [Chart.unified_df Chart.outcome];
    [discriminate|tauto].
Qed.

(** Every class of the unified table is a class of one of the tables. *)
Lemma unified_classe dataframes years top_n r :
  r ∈ Chart.create_unified_dataframe dataframes years top_n →
  ∃ df row, df ∈ dataframes ∧ row ∈ df ∧
            Chart.classe row = Chart.Unified.classe r.
Proof.
  intros H. apply elem_of_unified in H as (i & y & d & c & _ & _ & Hc & ->).
  destruct (unified_row_year_classe dataframes top_n y d c) as [_ ->].
  apply elem_of_all_classes in Hc as (df & Hdf & Hc).
  apply elem_of_take_elem_of, list_elem_of_fmap in Hc as (row & -> & Hrow).
  eauto.
Qed.

Lemma rows_of_year_elem_of unified_df year r :
  r ∈ Chart.rows_of_year unified_df year → r ∈ unified_df.
Proof.
  unfold Chart.rows_of_year. rewrite !list_elem_of_In, filter_In. tauto.
Qed.

(** Every class of a frame is a class of the unified table. *)
Lemma interpolated_frame_classe years unified_df year r :
  r ∈ Chart.interpolated_frame years unified_df year →
  ∃ p, p ∈ unified_df ∧ Chart.Unified.classe r = Chart.Unified.classe p.
Proof.
  unfold Chart.interpolated_frame. destruct (Chart.year_in year years).
  - intros H. exists r. split; [eapply rows_of_year_elem_of, H|reflexivity].
  - intros H. apply list_elem_of_fmap in H as (p & -> & Hp).
    exists p. split; [eapply rows_of_year_elem_of, Hp|].
    destruct (Chart.next_val _ _); reflexivity.
Qed.

Lemma year_data_top_elem_of year_data top_n r :
  r ∈ Chart.year_data_top year_data top_n → r ∈ year_data.
Proof.
  unfold Chart.year_data_top. intros H. apply elem_of_take_elem_of in H.
  rewrite merge_sort_Permutation in H. exact H.
Qed.

Lemma chart_tables_classe fs df r :
  df ∈ Chart.tables (Chart.main fs) → r ∈ df → Chart.classe r ≠ 0.
Proof.
  intros Hdf Hr.
  pose proof (chart_main_tables (λ df, ∀ r, r ∈ df → Chart.classe r ≠ 0) fs)
    as H.
  rewrite Forall_forall in H. eapply H; [|exact Hdf|exact Hr].
  intros raster_path df' Hread r' Hr'.
  apply read_raster_inr in Hread as (rd & _ & ->).
  unfold Chart.sort_by_cont_px in Hr'. rewrite merge_sort_Permutation in Hr'.
  exact (chart_rows_classe _ _ _ Hr').
Qed.

Lemma chart_unified_classe fs r :
  r ∈ Chart.unified_df (Chart.main fs) → Chart.Unified.classe r ≠ 0.
Proof.
  intros H. apply chart_main_unified, unified_classe in H
    as (df & row & Hdf & Hrow & <-).
  exact (chart_tables_classe fs df row Hdf Hrow).
Qed.

(** C2. Class code 0 is in no table of either tabulator, in no row of the
    final table or the written file of the CSV script, and in no row of the
    unified table or of an animation frame of the chart script.  The rows a
    frame gets its bars from are rows of that frame (with the rows left out
    they make up the frame), so no bar stands for class 0. *)
Theorem class_zero_never_appears fs :
  (∀ raster_path year legend_data df r,
     Csv.process_raster_for_csv fs raster_path year legend_data = inr df →
     r ∈ df → Csv.classe r ≠ 0) ∧
  (∀ raster_path legend_data df r,
     Chart.read_raster_and_get_value_counts fs raster_path legend_data = inr df →
     r ∈ df → Chart.classe r ≠ 0) ∧
  (∀ df r, Csv.final_df (Csv.main fs) = Some df → r ∈ df → Csv.classe r ≠ 0) ∧
  (∀ file line, Csv.csv_file (Csv.main fs) = Some file → line ∈ file →
                line !! 1%nat ≠ Some (Csv.CInt 0)) ∧
  (∀ df r, df ∈ Chart.tables (Chart.main fs) → r ∈ df → Chart.classe r ≠ 0) ∧
  (∀ r, r ∈ Chart.unified_df (Chart.main fs) → Chart.Unified.classe r ≠ 0) ∧
  (∀ a, Chart.outcome (Chart.main fs) = inr a →
        (∀ frame r, frame ∈ Chart.interpolated_data a → r ∈ frame →
                    Chart.Unified.classe r ≠ 0) ∧
        (∀ frame, frame ∈ Chart.interpolated_data a →
                  (∃ rest, Chart.year_data_top frame 5 ++ rest ≡ₚ frame) ∧
                  ∀ r, r ∈ Chart.year_data_top frame 5 →
                       r ∈ frame ∧ Chart.Unified.classe r ≠ 0)).
Proof.
  assert (∀ df r, Csv.final_df (Csv.main fs) = Some df → r ∈ df →
                  Csv.classe r ≠ 0) as Hcsv.
  { intros df r Hdf Hr.
    destruct (csv_final_df_row fs df r Hdf Hr) as (rd & _ & _ & Hrow).
    exact (csv_rows_classe _ _ _ Hrow). }
  split; [|split; [|split; [exact Hcsv|split; [|split; [|split]]]]].
  - intros raster_path year legend_data df r Hdf Hr.
    apply process_raster_for_csv_inr in Hdf as (rd & _ & ->).
    unfold Csv.sort_by_num_px in Hr. rewrite merge_sort_Permutation in Hr.
    exact (csv_rows_classe _ _ _ Hr).
  - intros raster_path legend_data df r Hdf Hr.
    apply read_raster_inr in Hdf as (rd & _ & ->).
    unfold Chart.sort_by_cont_px in Hr. rewrite merge_sort_Permutation in Hr.
    exact (chart_rows_classe _ _ _ Hr).
  - intros file line Hfile Hline.
    apply csv_file_final_df in Hfile as (df & Hdf & ->).
    unfold Csv.to_csv in Hline. apply elem_of_cons in Hline as [->|Hline].
    + discriminate.
    + apply list_elem_of_fmap in Hline as (r & -> & Hr).
      intros [= E]. exact (Hcsv df r Hdf Hr E).
  - exact (chart_tables_classe fs).
  - exact (chart_unified_classe fs).
  - intros a Ha. apply chart_main_outcome in Ha.
    destruct (create_smooth_animation_inr _ _ _ _ _ Ha) as (_ & Hdata & _).
    assert (∀ frame r, frame ∈ Chart.interpolated_data a → r ∈ frame →
                       Chart.Unified.classe r ≠ 0) as Hframes.
    { intros frame r Hframe Hr. rewrite Hdata in Hframe.
      apply list_elem_of_fmap in Hframe as (year & -> & _).
      apply interpolated_frame_classe in Hr as (p & Hp & ->).
      exact (chart_unified_classe fs p Hp). }
    split; [exact Hframes|].
    intros frame Hframe. split.
    + exists (drop 5 (merge_sort Chart.porcent_desc frame)).
      unfold Chart.year_data_top.
      rewrite take_drop. apply merge_sort_Permutation.
    + intros r Hr. apply year_data_top_elem_of in Hr.
      split; [exact Hr|exact (Hframes frame r Hframe Hr)].
Qed.

Lemma chart_rows_placeholder legend_data a r :
  r ∈ chart_rows legend_data a →
  legend_data !! pretty (Chart.classe r) = None →
  Chart.nome_pt r = "Classe " +:+ pretty (Chart.classe r) +:+ " (não encontrada)" ∧
  Chart.cor_hex r = "#808080".
Proof.
  unfold chart_rows. intros H. apply list_elem_of_fmap in H as (v & -> & _).
  cbn [Chart.classe Chart.nome_pt Chart.cor_hex]. intros Hv.
  unfold Chart.legend_fields. rewrite Hv. split; reflexivity.
Qed.

Lemma chart_stdout_prefix fs :
  ∃ rest, Chart.stdout (Chart.main fs) =
          (Chart.load_legend fs Chart.json_path).2 ++ rest.
Proof.
  rewrite chart_main_unfold. cbv zeta.
  set (legend_data := (Chart.load_legend fs Chart.json_path).1).
  set (out0 := (Chart.load_legend fs Chart.json_path).2).
  assert (∀ ys st, ∃ rest,
            Chart.out (foldl (Chart.year_step fs legend_data) st ys)
            = Chart.out st ++ rest) as H.
  { induction ys as [|y ys IH]; intros st.
    - exists []. rewrite app_nil_r. reflexivity.
    - cbn [foldl]. destruct (IH (Chart.year_step fs legend_data st y))
        as (rest & ->).
      unfold Chart.year_step. destruct (Chart.raised st); [eauto|].
      destruct (negb (path_exists fs _));
        [|destruct (Chart.read_raster_and_get_value_counts _ _ _)];
        cbn [Chart.out]; rewrite <- app_assoc; eauto. }
  destruct (H Chart.years {| Chart.dataframes := []; Chart.out := out0;
                             Chart.raised := None |}) as (rest & Hrest).
  exists rest. revert Hrest. generalize (foldl (Chart.year_step fs legend_data)
    {| Chart.dataframes := []; Chart.out := out0; Chart.raised := None |}
    Chart.years). intros st Hst.
  destruct (Chart.raised st); exact Hst.
Qed.

(* ===================================================================== *)
(** ** Rasters without valid pixels, and missing files in the chart script *)
(* ===================================================================== *)

Lemma valid_classes_all_zero a : (∀ x, x ∈ a → x = 0) → valid_classes a = [].
Proof.
  intros H. destruct (valid_classes a) as [|v l] eqn:E; [reflexivity|].
  assert (v ∈ valid_classes a) as Hv by (rewrite E; apply list_elem_of_here).
  apply elem_of_valid_classes in Hv as [Hv Hv0]. specialize (H v Hv). contradiction.
Qed.




Lemma merge_sort_nil {A} (R : relation A) `{∀ x y, Decision (R x y)} :
  merge_sort R [] = [].
Proof. reflexivity. Qed.

(** The iteration of the CSV loop over an existing raster: a table is
    appended and the year is reported. *)
Lemma csv_year_step_raster fs legend_data year raster_data :
  fs !! str_format Csv.base_raster_path year = Some (RasterFile raster_data) →
  ∃ df msgs,
    Csv.year_step fs legend_data ([], []) year
      = ([df], ProcessandoAno year :: msgs) ∧
    Csv.process_raster_for_csv fs (str_format Csv.base_raster_path year)
      year legend_data = inr df.
Proof.
  intros Hfile. unfold Csv.year_step, path_exists. rewrite Hfile.
  rewrite bool_decide_eq_true_2 by eauto. cbn [negb].
  rewrite (process_raster_for_csv_rows _ _ _ _ raster_data)
    by (apply rasterio_read1_inr, Hfile).
  eexists _, _. split; reflexivity.
Qed.

Lemma elem_of_processed_years y out :
  y ∈ processed_years out ↔ ProcessandoAno y ∈ out.
Proof.
  unfold processed_years. rewrite list_elem_of_omap. split.
  - intros (m & Hm & E). destruct m; try discriminate. congruence.
  - intros H. exists (ProcessandoAno y). split; [exact H|reflexivity].
Qed.

Lemma csv_main_written fs year raster_data :
  (1985 <= year < 2025) →
  fs !! str_format Csv.base_raster_path year = Some (RasterFile raster_data) →
  ProcessandoAno year ∈ Csv.stdout (Csv.main fs) ∧
  is_Some (Csv.csv_file (Csv.main fs)).
Proof.
  intros Hrange Hfile. apply elem_of_csv_years in Hrange.
  split.
  - destruct (csv_stdout fs) as (closing & -> & _).
    rewrite !elem_of_app. right. left.
    apply list_elem_of_join. eexists. split; [|apply list_elem_of_fmap_2, Hrange].
    cbn beta.
    destruct (csv_year_step_raster fs (Csv.load_legend fs Csv.json_path).1
                year raster_data Hfile) as (df & msgs & -> & _).
    apply list_elem_of_here.
  - rewrite csv_main_unfold. cbv zeta.
    set (legend_data := (Csv.load_legend fs Csv.json_path).1).
    set (tables := mjoin _).
    assert (∃ df, df ∈ tables) as (df & Hdf).
    { destruct (csv_year_step_raster fs legend_data year raster_data Hfile)
        as (df & msgs & E & _).
      exists df. apply list_elem_of_join. eexists.
      split; [|apply list_elem_of_fmap_2, Hrange].
      cbn beta. rewrite E. apply list_elem_of_here. }
    clearbody tables. destruct tables as [|d ds].
    + exfalso. exact (not_elem_of_nil _ Hdf).
    + cbn [Csv.csv_file]. eauto.
Qed.

(* ===================================================================== *)
(** ** The statements at sample inputs *)
(* ===================================================================== *)

(** C1 on the raster [0,0,3 / 3,3,4]. *)
Lemma year_table_percentages_witness :
  ∃ csv_table chart_table total,
    Csv.process_raster_for_csv disk_scenario
      (str_format Csv.base_raster_path 1990) 1990 legend_forest
      = inr csv_table ∧
    Chart.read_raster_and_get_value_counts disk_scenario
      (str_format Csv.base_raster_path 1990) legend_forest
      = inr chart_table ∧
    total = Z.of_nat (length (valid_pixels (concat [[0; 0; 3]; [3; 3; 4]]))) ∧
    (Forall (λ r, Csv.porc_rel r = percent_of (Csv.num_px r) total) csv_table ∧
     np_sum (Csv.num_px <$> csv_table) = total ∧
     sums_to_100 (Csv.porc_rel <$> csv_table)) ∧
    (Forall (λ r, Chart.porcent r = percent_of (Chart.cont_px r) total)
            chart_table ∧
     np_sum (Chart.cont_px <$> chart_table) = total ∧
     sums_to_100 (Chart.porcent <$> chart_table)).
Proof.
  apply (year_table_percentages_sum_to_100 disk_scenario
           (str_format Csv.base_raster_path 1990) 1990 legend_forest
           [[0; 0; 3]; [3; 3; 4]] 3).
  - vm_compute. reflexivity.
  - cbn. do 2 apply list_elem_of_further. apply list_elem_of_here.
  - discriminate.
Defined.

(** C4 on the sample disk. *)
Lemma csv_rows_sorted_witness :
  ∃ file,
    Csv.csv_file (Csv.main disk_scenario) = Some file ∧
    ∃ df,
      file =
        [Csv.CStr "ano"; Csv.CStr "classe"; Csv.CStr "num_px";
         Csv.CStr "porc_rel"]
        :: ((λ r, [Csv.CInt (Csv.ano r); Csv.CInt (Csv.classe r);
                   Csv.CInt (Csv.num_px r); Csv.CFloat (Csv.porc_rel r)])
              <$> df) ∧
      StronglySorted
        (λ r1 r2, Csv.ano r1 < Csv.ano r2 ∨
                  (Csv.ano r1 = Csv.ano r2 ∧ Csv.num_px r2 <= Csv.num_px r1))
        df.
Proof.
  eexists. split; [vm_compute; reflexivity|].
  apply (csv_rows_sorted_with_fixed_columns disk_scenario).
  vm_compute. reflexivity.
Defined.

(** C6: the sample disk has no raster of 1985 for the CSV script. *)
Lemma missing_raster_year_witness :
  ArquivoNaoEncontrado (str_format Csv.base_raster_path 1985)
    ∈ Csv.stdout (Csv.main disk_scenario) ∧
  (ProcessandoAno 1985 ∉ Csv.stdout (Csv.main disk_scenario)) ∧
  (∀ df r, Csv.final_df (Csv.main disk_scenario) = Some df → r ∈ df →
           Csv.ano r ≠ 1985) ∧
  (∀ file line, Csv.csv_file (Csv.main disk_scenario) = Some file →
                line ∈ file → line !! 0%nat ≠ Some (Csv.CInt 1985)).
Proof.
  apply (missing_raster_year_is_skipped disk_scenario 1985).
  - lia.
  - vm_compute. reflexivity.
Defined.


(** C3 fails on the script as a whole.  With the raster of 1985 missing and
    the raster of 1986 present, 1986 is the only processed year and class 3
    is in the class union, but the unified table labels the rows of that
    table 1985 and has no row for (1986, 3). *)
Theorem unified_table_mislabels_years :
  processed_years (Chart.stdout (Chart.main disk_only_1986)) = [1986] ∧
  elements (Chart.all_classes (Chart.tables (Chart.main disk_only_1986)) 5)
    = [3] ∧
  (λ r, (Chart.Unified.year r, Chart.Unified.classe r))
    <$> Chart.unified_df (Chart.main disk_only_1986) = [(1985, 3)] ∧
  filter (λ r, Chart.Unified.year r = 1986 ∧ Chart.Unified.classe r = 3)
         (Chart.unified_df (Chart.main disk_only_1986)) = [].
Proof.
  do 3 (split; [vm_compute; reflexivity|]). vm_compute. reflexivity.
Qed.

(** C7 on the unified table of the sample disk, with the frames of
    [years = [1985, 1986]] and [frames_per_year = 2]: the frames 1985,
    1985.5 and 1986.  Both classes have a row in 1986. *)
Lemma frame_percentages_witness :
  let unified := Chart.unified_df (Chart.main disk_scenario) in
  ∃ a,
    Chart.create_smooth_animation [1985; 1986] unified 1 2 = inr a ∧
    Chart.interpolated_data a !! 0%nat
      = Some (filter (λ r, Chart.Unified.year r = 1985) unified) ∧
    let year_prev := Chart.py_int (Chart.PyFloat (Fin (3971 # 2))) in
    let alpha := fsub (Fin (3971 # 2)) (of_int year_prev) in
    year_prev = 1985 ∧ alpha = Fin (1 # 2) ∧
    ∃ frame,
      Chart.interpolated_data a !! 1%nat = Some frame ∧
      Forall2
        (λ row prev,
           Chart.Unified.classe row = Chart.Unified.classe prev ∧
           match head (filter (λ r, Chart.Unified.year r = year_prev + 1 ∧
                                    Chart.Unified.classe r =
                                      Chart.Unified.classe prev)
                              unified) with
           | Some next =>
               Chart.Unified.porcent row =
                 fadd (fmul (Chart.Unified.porcent prev)
                            (fsub (of_int 1) alpha))
                      (fmul (Chart.Unified.porcent next) alpha)
           | None => row = prev
           end)
        frame
        (filter (λ r, Chart.Unified.year r = year_prev) unified).
Proof.
  intros unified. eexists. split; [vm_compute; reflexivity|].
  match goal with
  | |- context [Chart.interpolated_data ?a] =>
      assert (Chart.create_smooth_animation [1985; 1986] unified 1 2 = inr a)
        as Ha by (vm_compute; reflexivity)
  end.
  split.
  - apply (proj1 (frame_percentages_are_interpolated _ _ _ _ _ 0%nat Ha) 1985).
    vm_compute. reflexivity.
  - intros year_prev alpha.
    split; [vm_compute; reflexivity|]. split; [vm_compute; reflexivity|].
    destruct (proj2 (frame_percentages_are_interpolated _ _ _ _ _ 1%nat Ha)
                (3971 # 2)) as [_ Hframe].
    + vm_compute. reflexivity.
    + vm_compute. reflexivity.
    + vm_compute. reflexivity.
    + exact Hframe.
Defined.

(** C7 as stated fails in the chart script.  With the raster of 1985
    missing and the raster of 1986 present, the unified table has the single
    row (1985, 3, 100) and no row of 1986: in the frame after 1985, whose
    year lies strictly between 1985 and 1986, class 3 is shown with 100,
    which is no interpolation between rows of 1985 and 1986. *)
Lemma frame_without_next_year_is_not_interpolated :
  let unified := Chart.unified_df (Chart.main disk_only_1986) in
  ∃ a q frame row,
    Chart.outcome (Chart.main disk_only_1986) = inr a ∧
    Chart.frame_years a !! 1%nat = Some (Chart.PyFloat (Fin q)) ∧
    (0 < q - inject_Z (Qfloor q))%Q ∧ (q - inject_Z (Qfloor q) < 1)%Q ∧
    Qfloor q = 1985 ∧
    Chart.interpolated_data a !! 1%nat = Some frame ∧
    row ∈ frame ∧
    Chart.Unified.classe row = 3 ∧ Chart.Unified.porcent row = Fin 100 ∧
    ¬ (∃ prev next,
         prev ∈ unified ∧ next ∈ unified ∧
         Chart.Unified.year prev = Qfloor q ∧
         Chart.Unified.year next = Qfloor q + 1 ∧
         Chart.Unified.classe prev = Chart.Unified.classe row ∧
         Chart.Unified.classe next = Chart.Unified.classe row ∧
         Chart.Unified.porcent row =
           fadd (fmul (Chart.Unified.porcent prev)
                      (fsub (of_int 1) (fsub (Fin q) (of_int (Qfloor q)))))
                (fmul (Chart.Unified.porcent next)
                      (fsub (Fin q) (of_int (Qfloor q))))).
Proof.
  intros unified. eexists _, _, _, _.
  split; [vm_compute; reflexivity|].
  split; [vm_compute; reflexivity|].
  split; [vm_compute; reflexivity|].
  split; [vm_compute; reflexivity|].
  split; [vm_compute; reflexivity|].
  split; [vm_compute; reflexivity|].
  split; [apply list_elem_of_here|].
  split; [reflexivity|]. split; [reflexivity|].
  intros (prev & next & _ & Hnext & _ & Hyear & _).
  apply list_elem_of_In in Hnext. vm_compute in Hnext.
  destruct Hnext as [<-|[]]. vm_compute in Hyear. discriminate.
Qed.

(** C10 on the same frames: the frame 1985.5. *)
Lemma fractional_frame_witness :
  let unified := Chart.unified_df (Chart.main disk_scenario) in
  ∃ a,
    Chart.create_smooth_animation [1985; 1986] unified 1 2 = inr a ∧
    Chart.frame_years a !! 1%nat = Some (Chart.PyFloat (Fin (3971 # 2))) ∧
    Chart.py_int (Chart.PyFloat (Fin (3971 # 2))) = 1985 ∧
    ∃ frame,
      Chart.interpolated_data a !! 1%nat = Some frame ∧
      Forall2
        (λ row prev,
           Chart.Unified.year prev
             = Chart.py_int (Chart.PyFloat (Fin (3971 # 2))) ∧
           Chart.Unified.year row = Chart.Unified.year prev ∧
           Chart.Unified.classe row = Chart.Unified.classe prev ∧
           Chart.Unified.nome_pt row = Chart.Unified.nome_pt prev ∧
           Chart.Unified.cor_hex row = Chart.Unified.cor_hex prev ∧
           Chart.Unified.rank row = Chart.Unified.rank prev)
        frame
        (Chart.rows_of_year unified
           (Chart.PyInt (Chart.py_int (Chart.PyFloat (Fin (3971 # 2)))))).
Proof.
  intros unified. eexists. split; [vm_compute; reflexivity|].
  split; [vm_compute; reflexivity|].
  split; [vm_compute; reflexivity|].
  match goal with
  | |- context [Chart.interpolated_data ?a] =>
      apply (proj2 (fractional_frame_keeps_other_fields [1985; 1986] unified
                      1 2 a 1%nat (Chart.PyFloat (Fin (3971 # 2)))
                      ltac:(vm_compute; reflexivity)
                      ltac:(vm_compute; reflexivity)
                      ltac:(vm_compute; reflexivity)))
  end.
Defined.

(** C2 on the sample disk. *)
Lemma class_zero_witness :
  (∀ df r, Csv.final_df (Csv.main disk_scenario) = Some df → r ∈ df →
           Csv.classe r ≠ 0) ∧
  (∀ r, r ∈ Chart.unified_df (Chart.main disk_scenario) →
        Chart.Unified.classe r ≠ 0) ∧
  ∃ a,
    Chart.outcome (Chart.main disk_scenario) = inr a ∧
    length (Chart.interpolated_data a) = 391%nat ∧
    ∀ frame, frame ∈ Chart.interpolated_data a →
             (∃ rest, Chart.year_data_top frame 5 ++ rest ≡ₚ frame) ∧
             ∀ r, r ∈ Chart.year_data_top frame 5 →
                  r ∈ frame ∧ Chart.Unified.classe r ≠ 0.
Proof.
  destruct (class_zero_never_appears disk_scenario)
    as (_ & _ & Hcsv & _ & _ & Hunified & Hframes).
  split; [exact Hcsv|]. split; [exact Hunified|].
  assert (∃ a, Chart.outcome (Chart.main disk_scenario) = inr a ∧
               length (Chart.interpolated_data a) = 391%nat)
    as (a & Ha & Hlen)
    by (eexists; split; vm_compute; reflexivity).
  exists a. split; [exact Ha|]. split; [exact Hlen|].
  exact (proj2 (Hframes a Ha)).
Defined.

(** The scenario of the specification: legend [{"3": Forest}], pixels
    [0,0,3,3,3,4]. *)
Example scenario_year_tables :
  Csv.process_raster_for_csv disk_scenario
    (str_format Csv.base_raster_path 1990) 1990 legend_forest
  = inr [ {| Csv.ano := 1990; Csv.classe := 3; Csv.num_px := 3;
             Csv.porc_rel := Fin 75 |};
          {| Csv.ano := 1990; Csv.classe := 4; Csv.num_px := 1;
             Csv.porc_rel := Fin 25 |} ] ∧
  Chart.read_raster_and_get_value_counts disk_scenario
    (str_format Chart.base_raster_path 1985) legend_forest
  = inr [ {| Chart.classe := 3; Chart.cont_px := 3; Chart.porcent := Fin 75;
             Chart.nome_pt := "Forest"; Chart.cor_hex := "#006400" |};
          {| Chart.classe := 4; Chart.cont_px := 1; Chart.porcent := Fin 25;
             Chart.nome_pt := "Classe 4 (não encontrada)";
             Chart.cor_hex := "#808080" |} ].
Proof. split; vm_compute; reflexivity. Qed.

(** [Float64] against the IEEE 754 specification of the Standard Library,
    on percentages, frame years, a division by zero and an integer that
    needs rounding. *)
Example float64_agrees_with_ieee754 :
  percent_of 1 3 = b64_value (b64_percent 1 3) ∧
  percent_of 3 4 = b64_value (b64_percent 3 4) ∧
  percent_of 7 1234567 = b64_value (b64_percent 7 1234567) ∧
  percent_of 123456789 987654321987
    = b64_value (b64_percent 123456789 987654321987) ∧
  Forall
    (λ j, fadd (of_int 1985)
            (fmul (of_int j) (fdiv (Fin 1) (of_int 10)))
          = b64_value (b64_frame_year 1985 j 10))
    [1; 2; 3; 4; 5; 6; 7; 8; 9] ∧
  np_true_divide 1 0 = b64_value (SFdiv 53 1024 (b64_of_Z 1) (b64_of_Z 0)) ∧
  np_true_divide 0 0 = b64_value (SFdiv 53 1024 (b64_of_Z 0) (b64_of_Z 0)) ∧
  of_int 9007199254740993 = b64_value (b64_of_Z 9007199254740993) ∧
  of_int 9007199254740995 = b64_value (b64_of_Z 9007199254740995).
Proof.
  do 4 (split; [vm_compute; reflexivity|]).
  split; [repeat (apply Forall_cons; split; [vm_compute; reflexivity|]);
          apply Forall_nil_2|].
  do 3 (split; [vm_compute; reflexivity|]).
  vm_compute. reflexivity.
Qed.

(* ===================================================================== *)
(** ** Further properties: the tables *)
(* ===================================================================== *)

Global Instance num_px_desc_trans : Transitive Csv.num_px_desc.
Proof. intros r1 r2 r3. unfold Csv.num_px_desc. lia. Qed.

Global Instance num_px_desc_total : Total Csv.num_px_desc.
Proof. intros r1 r2. unfold Csv.num_px_desc. lia. Qed.

Global Instance cont_px_desc_trans : Transitive Chart.cont_px_desc.
Proof. intros r1 r2 r3. unfold Chart.cont_px_desc. lia. Qed.

Global Instance cont_px_desc_total : Total Chart.cont_px_desc.
Proof. intros r1 r2. unfold Chart.cont_px_desc. lia. Qed.

Lemma csv_rows_classes year a : Csv.classe <$> csv_rows year a = valid_classes a.
Proof.
  unfold csv_rows. rewrite <- list_fmap_compose. apply list_fmap_id.
Qed.

Lemma chart_rows_classes legend_data a :
  Chart.classe <$> chart_rows legend_data a = valid_classes a.
Proof.
  unfold chart_rows. rewrite <- list_fmap_compose. apply list_fmap_id.
Qed.

Lemma csv_rows_count year a r :
  r ∈ csv_rows year a →
  Csv.ano r = year ∧ Csv.num_px r = count_of (Csv.classe r) a.
Proof.
  unfold csv_rows. intros H. apply list_elem_of_fmap in H as (v & -> & _).
  split; reflexivity.
Qed.

Lemma chart_rows_count legend_data a r :
  r ∈ chart_rows legend_data a →
  Chart.cont_px r = count_of (Chart.classe r) a ∧
  Chart.nome_pt r = (Chart.legend_fields legend_data (Chart.classe r)).1 ∧
  Chart.cor_hex r = (Chart.legend_fields legend_data (Chart.classe r)).2.
Proof.
  unfold chart_rows. intros H. apply list_elem_of_fmap in H as (v & -> & _).
  repeat split; reflexivity.
Qed.

(** X1. For a readable raster both tabulators return a table with one row
    per distinct non-zero pixel value: the classes of the table are pairwise
    distinct, they are exactly the non-zero values of the band, and the
    count of a row is the number of pixels of its class; the CSV rows carry
    the year that was passed. *)
Theorem year_table_has_one_row_per_class
    fs raster_path year legend_data raster_data :
  fs !! raster_path = Some (RasterFile raster_data) →
  ∃ csv_table chart_table,
    Csv.process_raster_for_csv fs raster_path year legend_data = inr csv_table ∧
    Chart.read_raster_and_get_value_counts fs raster_path legend_data
      = inr chart_table ∧
    NoDup (Csv.classe <$> csv_table) ∧
    NoDup (Chart.classe <$> chart_table) ∧
    (∀ v, v ∈ Csv.classe <$> csv_table ↔ v ∈ concat raster_data ∧ v ≠ 0) ∧
    (∀ v, v ∈ Chart.classe <$> chart_table ↔ v ∈ concat raster_data ∧ v ≠ 0) ∧
    Forall (λ r, Csv.ano r = year ∧
                 Csv.num_px r
                   = Z.of_nat (length (filter (λ x, x = Csv.classe r)
                                              (concat raster_data))))
           csv_table ∧
    Forall (λ r, Chart.cont_px r
                   = Z.of_nat (length (filter (λ x, x = Chart.classe r)
                                              (concat raster_data))))
           chart_table.
Proof.
  intros Hfile. apply rasterio_read1_inr in Hfile.
  set (a := concat raster_data).
  exists (Csv.sort_by_num_px (csv_rows year a)),
         (Chart.sort_by_cont_px (chart_rows legend_data a)).
  split; [exact (process_raster_for_csv_rows _ _ _ _ _ Hfile)|].
  split; [exact (read_raster_rows _ _ _ _ Hfile)|].
  unfold Csv.sort_by_num_px, Chart.sort_by_cont_px.
  assert (Csv.classe <$> merge_sort Csv.num_px_desc (csv_rows year a)
          ≡ₚ valid_classes a) as Hc.
  { rewrite merge_sort_Permutation, csv_rows_classes. reflexivity. }
  assert (Chart.classe <$> merge_sort Chart.cont_px_desc (chart_rows legend_data a)
          ≡ₚ valid_classes a) as Hh.
  { rewrite merge_sort_Permutation, chart_rows_classes. reflexivity. }
  split; [rewrite Hc; apply NoDup_valid_classes|].
  split; [rewrite Hh; apply NoDup_valid_classes|].
  split; [intros v; rewrite Hc; apply elem_of_valid_classes|].
  split; [intros v; rewrite Hh; apply elem_of_valid_classes|].
  split; apply Forall_forall; intros r Hr;
    rewrite merge_sort_Permutation in Hr.
  - exact (csv_rows_count _ _ _ Hr).
  - exact (proj1 (chart_rows_count _ _ _ Hr)).
Qed.

(** X2. The table of either tabulator is in descending order of pixel
    count. *)
Theorem year_table_sorted_by_count fs raster_path year legend_data :
  (∀ df, Csv.process_raster_for_csv fs raster_path year legend_data = inr df →
         StronglySorted (λ r1 r2, Csv.num_px r2 <= Csv.num_px r1) df) ∧
  (∀ df, Chart.read_raster_and_get_value_counts fs raster_path legend_data
           = inr df →
         StronglySorted (λ r1 r2, Chart.cont_px r2 <= Chart.cont_px r1) df).
Proof.
  split; intros df Hdf.
  - apply process_raster_for_csv_inr in Hdf as (rd & _ & ->).
    apply (StronglySorted_merge_sort Csv.num_px_desc).
  - apply read_raster_inr in Hdf as (rd & _ & ->).
    apply (StronglySorted_merge_sort Chart.cont_px_desc).
Qed.

Section merge_sort_fmap.
Context {A B : Type} (f : A → B) (R : relation A) (R' : relation B).
Context `{∀ x y, Decision (R x y)} `{∀ x y, Decision (R' x y)}.
Hypothesis R_fmap : ∀ x y, R x y ↔ R' (f x) (f y).

Lemma list_merge_fmap l1 l2 :
  f <$> list_merge R l1 l2 = list_merge R' (f <$> l1) (f <$> l2).
Proof.
  revert l2. induction l1 as [|x1 l1 IH1]; intros l2.
  - destruct l2; reflexivity.
  - induction l2 as [|x2 l2 IH2]; [reflexivity|].
    rewrite !fmap_cons. simpl list_merge.
    destruct (decide (R x1 x2)) as [HR|HR],
             (decide (R' (f x1) (f x2))) as [HR'|HR'];
      try (exfalso; apply R_fmap in HR; contradiction);
      try (exfalso; apply R_fmap in HR'; contradiction).
    + rewrite fmap_cons, IH1. reflexivity.
    + rewrite fmap_cons. f_equal. exact IH2.
Qed.

Let stack_fmap (st : list (option (list A))) : list (option (list B)) :=
  fmap (M := list) (fmap (M := option) (fmap (M := list) f)) st.

Lemma merge_list_to_stack_fmap st l :
  stack_fmap (merge_list_to_stack R st l) =
  merge_list_to_stack R' (stack_fmap st) (f <$> l).
Proof.
  revert l. induction st as [|[l'|] st IH]; intros l; try reflexivity.
  unfold stack_fmap in *. cbn [merge_list_to_stack]. rewrite !fmap_cons.
  cbn [fmap option_fmap option_map merge_list_to_stack].
  rewrite IH, list_merge_fmap. reflexivity.
Qed.

Lemma merge_stack_fmap st :
  f <$> merge_stack R st = merge_stack R' (stack_fmap st).
Proof.
  unfold stack_fmap. induction st as [|[l|] st IH]; try reflexivity.
  - rewrite fmap_cons. cbn [fmap option_fmap option_map merge_stack].
    rewrite list_merge_fmap, IH. reflexivity.
  - rewrite fmap_cons. cbn [fmap option_fmap option_map merge_stack].
    exact IH.
Qed.

Lemma merge_sort_aux_fmap st l :
  f <$> merge_sort_aux R st l =
  merge_sort_aux R' (stack_fmap st) (f <$> l).
Proof.
  revert st. induction l as [|x l IH]; intros st.
  - apply merge_stack_fmap.
  - rewrite fmap_cons. cbn [merge_sort_aux].
    rewrite IH, merge_list_to_stack_fmap. reflexivity.
Qed.

(** Sorting commutes with a map that preserves the order. *)
Lemma merge_sort_fmap l : f <$> merge_sort R l = merge_sort R' (f <$> l).
Proof. apply (merge_sort_aux_fmap []). Qed.
End merge_sort_fmap.

(** X3. The two tabulators are the same computation: on every disk and path
    they raise the same exception, or return tables with the same classes,
    counts and percentages in the same order. *)
Theorem tabulators_agree fs raster_path year legend_data :
  match Csv.process_raster_for_csv fs raster_path year legend_data,
        Chart.read_raster_and_get_value_counts fs raster_path legend_data with
  | inr csv_table, inr chart_table =>
      (λ r, (Csv.classe r, Csv.num_px r, Csv.porc_rel r)) <$> csv_table =
      (λ r, (Chart.classe r, Chart.cont_px r, Chart.porcent r)) <$> chart_table
  | inl e1, inl e2 => e1 = e2
  | _, _ => False
  end.
Proof.
  destruct (rasterio_read1 fs raster_path) as [e|raster_data] eqn:E.
  - unfold Csv.process_raster_for_csv, Chart.read_raster_and_get_value_counts.
    rewrite E. reflexivity.
  - rewrite (process_raster_for_csv_rows _ _ _ _ _ E),
            (read_raster_rows _ _ _ _ E).
    unfold Csv.sort_by_num_px, Chart.sort_by_cont_px.
    set (R3 := λ t1 t2 : Z * Z * float64, t2.1.2 <= t1.1.2).
    pose (D3 := (λ t1 t2, decide (t2.1.2 <= t1.1.2))
                : ∀ t1 t2 : Z * Z * float64, Decision (R3 t1 t2)).
    rewrite (@merge_sort_fmap _ _ _ Csv.num_px_desc R3 _ D3)
      by (intros x y; reflexivity).
    rewrite (@merge_sort_fmap _ _ _ Chart.cont_px_desc R3 _ D3)
      by (intros x y; reflexivity).
    f_equal. unfold csv_rows, chart_rows.
    rewrite <- !list_fmap_compose. reflexivity.
Qed.

Lemma near_4_tight x p :
  (0 <= x)%Q → near 4 x p → (Qabs (p - x) <= (1 # 1000000000000000) * x)%Q.
Proof.
  intros Hx [H1 H2].
  pose proof (qpow_lo_bernoulli 4) as Hlo.
  pose proof (qpow_hi_bernoulli 4) as Hhi.
  pose proof (qpow_pos (1 + eps) 4 ltac:(reflexivity)) as Hp.
  change (inject_Z (Z.of_nat 4)) with 4%Q in Hlo, Hhi.
  unfold eps in *.
  set (lo := qpow (1 - (1 # 4503599627370496)) 4) in *.
  set (hi := qpow (1 + (1 # 4503599627370496)) 4) in *.
  assert (1 - (1 # 1000000000000000) <= lo)%Q by lra.
  assert (hi <= 1 + (1 # 1000000000000000))%Q by nra.
  apply Qabs_Qle_condition. split; nra.
Qed.

Lemma np_sum_ge_member (g : Z → Z) (l : list Z) v :
  v ∈ l → (∀ w, w ∈ l → 0 <= g w) → g v <= np_sum (g <$> l).
Proof.
  induction l as [|x l IH]; intros Hv Hpos.
  - exfalso. exact (not_elem_of_nil _ Hv).
  - cbn. fold (np_sum (g <$> l)).
    assert (0 <= np_sum (g <$> l)) as Hsum.
    { clear -Hpos. induction l as [|y l IH]; cbn; [lia|].
      fold (np_sum (g <$> l)).
      pose proof (Hpos y ltac:(apply list_elem_of_further, list_elem_of_here)).
      assert (0 <= np_sum (g <$> l)); [|lia].
      apply IH. intros w Hw. apply Hpos.
      apply elem_of_cons in Hw as [->|Hw];
        [apply list_elem_of_here|do 2 apply list_elem_of_further; exact Hw]. }
    apply elem_of_cons in Hv as [->|Hv]; [lia|].
    pose proof (Hpos x (list_elem_of_here _ _)).
    assert (g v <= np_sum (g <$> l)); [|lia].
    apply IH; [exact Hv|]. intros w Hw. apply Hpos, list_elem_of_further, Hw.
Qed.

Lemma count_le_total v a : v ∈ valid_classes a → count_of v a <= total_valid a.
Proof.
  intros Hv. unfold total_valid.
  apply (np_sum_ge_member (λ v, count_of v a)); [exact Hv|].
  intros w Hw. unfold count_of. lia.
Qed.

Lemma percent_accurate v a :
  v ∈ valid_classes a →
  0 < count_of v a <= total_valid a ∧
  ∃ p, percent_of (count_of v a) (total_valid a) = Fin p ∧ (0 < p)%Q ∧
       (Qabs (p - 100 * (inject_Z (count_of v a) / inject_Z (total_valid a)))
        <= (1 # 1000000000000000)
           * (100 * (inject_Z (count_of v a) / inject_Z (total_valid a))))%Q.
Proof.
  intros Hv.
  assert (0 < count_of v a) as Hc
    by (apply count_of_pos; apply elem_of_valid_classes in Hv; tauto).
  pose proof (count_le_total v a Hv) as Hle.
  assert (0 < total_valid a) as Ht by lia.
  split; [lia|].
  destruct (percent_of_near _ _ Hc Ht) as (p & E & Hp).
  destruct (percent_of_pos _ _ Hc Ht) as (p' & E' & Hp').
  rewrite E in E'. injection E' as <-.
  exists p. split; [exact E|]. split; [exact Hp'|].
  apply near_4_tight; [|exact Hp].
  pose proof (inject_Z_pos _ Hc) as Hcq. pose proof (inject_Z_pos _ Ht) as Htq.
  assert (0 < inject_Z (count_of v a) / inject_Z (total_valid a))%Q; [|lra].
  apply (Qmult_lt_r _ _ (inject_Z (total_valid a)) Htq).
  setoid_replace (inject_Z (count_of v a) / inject_Z (total_valid a)
                  * inject_Z (total_valid a))%Q
    with (inject_Z (count_of v a)) using relation Qeq by (field; lra).
  rewrite Qmult_0_l. exact Hcq.
Qed.

(** X4. In the table of a readable raster every count lies between 1 and
    the number of valid pixels, and every percentage is a positive finite
    float within the relative distance [1e-15] of the exact
    [100 * count / total]. *)
Theorem percentages_are_accurate fs raster_path year legend_data raster_data :
  fs !! raster_path = Some (RasterFile raster_data) →
  let total := Z.of_nat (length (valid_pixels (concat raster_data))) in
  (∀ df r,
     Csv.process_raster_for_csv fs raster_path year legend_data = inr df →
     r ∈ df →
     0 < Csv.num_px r <= total ∧
     ∃ p, Csv.porc_rel r = Fin p ∧ (0 < p)%Q ∧
          (Qabs (p - 100 * (inject_Z (Csv.num_px r) / inject_Z total))
           <= (1 # 1000000000000000)
              * (100 * (inject_Z (Csv.num_px r) / inject_Z total)))%Q) ∧
  (∀ df r,
     Chart.read_raster_and_get_value_counts fs raster_path legend_data
       = inr df →
     r ∈ df →
     0 < Chart.cont_px r <= total ∧
     ∃ p, Chart.porcent r = Fin p ∧ (0 < p)%Q ∧
          (Qabs (p - 100 * (inject_Z (Chart.cont_px r) / inject_Z total))
           <= (1 # 1000000000000000)
              * (100 * (inject_Z (Chart.cont_px r) / inject_Z total)))%Q).
Proof.
  intros Hfile total. apply rasterio_read1_inr in Hfile.
  unfold total. rewrite <- total_valid_pixels. clear total.
  split; intros df r Hdf Hr.
  - rewrite (process_raster_for_csv_rows _ _ _ _ _ Hfile) in Hdf.
    injection Hdf as <-.
    unfold Csv.sort_by_num_px in Hr. rewrite merge_sort_Permutation in Hr.
    unfold csv_rows in Hr. apply list_elem_of_fmap in Hr as (v & -> & Hv).
    cbn [Csv.num_px Csv.porc_rel]. exact (percent_accurate v _ Hv).
  - rewrite (read_raster_rows _ _ _ _ Hfile) in Hdf. injection Hdf as <-.
    unfold Chart.sort_by_cont_px in Hr. rewrite merge_sort_Permutation in Hr.
    unfold chart_rows in Hr. apply list_elem_of_fmap in Hr as (v & -> & Hv).
    cbn [Chart.cont_px Chart.porcent]. exact (percent_accurate v _ Hv).
Qed.

(** X5. In the chart tabulator a class whose decimal code is a key of the
    legend takes the name [PT] and the colour [HEX_COL] of that entry. *)
Theorem legend_entry_is_joined fs raster_path legend_data df r entry :
  Chart.read_raster_and_get_value_counts fs raster_path legend_data = inr df →
  r ∈ df →
  legend_data !! pretty (Chart.classe r) = Some entry →
  Chart.nome_pt r = PT entry ∧ Chart.cor_hex r = HEX_COL entry.
Proof.
  intros Hdf Hr Hentry. apply read_raster_inr in Hdf as (rd & _ & ->).
  unfold Chart.sort_by_cont_px in Hr. rewrite merge_sort_Permutation in Hr.
  destruct (chart_rows_count _ _ _ Hr) as (_ & -> & ->).
  unfold Chart.legend_fields. rewrite Hentry. split; reflexivity.
Qed.

(* ===================================================================== *)
(** ** Further properties: the CSV script *)
(* ===================================================================== *)

Lemma csv_year_step_unreadable fs legend_data year file :
  fs !! str_format Csv.base_raster_path year = Some file →
  (∀ raster_data, file ≠ RasterFile raster_data) →
  Csv.year_step fs legend_data ([], []) year =
  ([], [ProcessandoAno year;
        ErroAoProcessar year
          (RasterioIOError (str_format Csv.base_raster_path year))]).
Proof.
  intros Hfile Hbad. unfold Csv.year_step, path_exists. rewrite Hfile.
  rewrite bool_decide_eq_true_2 by eauto. cbn [negb].
  unfold Csv.process_raster_for_csv, rasterio_read1. rewrite Hfile.
  destruct file as [rd| |]; [exfalso; exact (Hbad rd eq_refl)| |]; reflexivity.
Qed.

Lemma csv_tables_nonempty fs :
  mjoin ((λ y, (Csv.year_step fs (Csv.load_legend fs Csv.json_path).1
                  ([], []) y).1) <$> Csv.years) ≠ [] ↔
  ∃ year raster_data,
    (1985 <= year < 2025) ∧
    fs !! str_format Csv.base_raster_path year = Some (RasterFile raster_data).
Proof.
  set (legend_data := (Csv.load_legend fs Csv.json_path).1). split.
  - intros Hne. destruct (mjoin _) as [|df dfs] eqn:E; [congruence|].
    assert (df ∈ mjoin ((λ y, (Csv.year_step fs legend_data ([], []) y).1)
                          <$> Csv.years)) as Hdf
      by (rewrite E; apply list_elem_of_here).
    apply list_elem_of_join in Hdf as (ts & Hdf & Hts).
    apply list_elem_of_fmap in Hts as (y & -> & Hy).
    apply csv_year_step_table in Hdf as (rd & Hfile & _).
    exists y, rd. split; [apply elem_of_csv_years, Hy|exact Hfile].
  - intros (year & rd & Hrange & Hfile) E.
    destruct (csv_year_step_raster fs legend_data year rd Hfile)
      as (df & msgs & Hstep & _).
    assert (df ∈ mjoin ((λ y, (Csv.year_step fs legend_data ([], []) y).1)
                          <$> Csv.years)) as Hdf.
    { apply list_elem_of_join. eexists.
      split; [|apply list_elem_of_fmap_2, elem_of_csv_years, Hrange].
      cbn beta. rewrite Hstep. apply list_elem_of_here. }
    rewrite E in Hdf. exact (not_elem_of_nil _ Hdf).
Qed.

(** X6. The CSV script writes a file exactly when some year of the range has
    a readable raster; otherwise there is no final table and the console
    ends with the notice that no data was processed. *)
Theorem csv_written_iff_some_raster fs :
  (is_Some (Csv.csv_file (Csv.main fs)) ↔
   ∃ year raster_data,
     (1985 <= year < 2025) ∧
     fs !! str_format Csv.base_raster_path year
       = Some (RasterFile raster_data)) ∧
  (Csv.csv_file (Csv.main fs) = None →
   Csv.final_df (Csv.main fs) = None ∧
   last (Csv.stdout (Csv.main fs)) = Some NenhumDadoProcessado).
Proof.
  pose proof (csv_tables_nonempty fs) as Hne. revert Hne.
  rewrite csv_main_unfold. cbv zeta.
  set (tables := mjoin _). clearbody tables. intros Hne. split.
  - rewrite <- Hne. destruct tables; cbn [Csv.csv_file]; split.
    + intros [? [=]].
    + congruence.
    + discriminate.
    + eauto.
  - destruct tables; cbn [Csv.csv_file Csv.final_df Csv.stdout];
      [|discriminate].
    intros _. split; [reflexivity|]. apply last_snoc.
Qed.

(** X7. A raster path of the CSV script that exists but cannot be read as a
    raster costs only its own year: the exception is caught and printed, the
    final table has no row of that year, and every year with a readable
    raster is still processed and written. *)
Theorem csv_unreadable_raster_is_caught fs year file :
  (1985 <= year < 2025) →
  fs !! str_format Csv.base_raster_path year = Some file →
  (∀ raster_data, file ≠ RasterFile raster_data) →
  ProcessandoAno year ∈ Csv.stdout (Csv.main fs) ∧
  ErroAoProcessar year (RasterioIOError (str_format Csv.base_raster_path year))
    ∈ Csv.stdout (Csv.main fs) ∧
  (∀ df r, Csv.final_df (Csv.main fs) = Some df → r ∈ df → Csv.ano r ≠ year) ∧
  (∀ year' raster_data,
     (1985 <= year' < 2025) →
     fs !! str_format Csv.base_raster_path year' = Some (RasterFile raster_data) →
     ProcessandoAno year' ∈ Csv.stdout (Csv.main fs) ∧
     ∃ df table,
       Csv.final_df (Csv.main fs) = Some df ∧
       Csv.process_raster_for_csv fs (str_format Csv.base_raster_path year')
         year' (Csv.load_legend fs Csv.json_path).1 = inr table ∧
       ∀ r, r ∈ table → r ∈ df).
Proof.
  intros Hrange Hfile Hbad.
  assert (∀ m, m ∈ (Csv.year_step fs (Csv.load_legend fs Csv.json_path).1
                      ([], []) year).2 → m ∈ Csv.stdout (Csv.main fs)) as Hout.
  { intros m Hm. destruct (csv_stdout fs) as (closing & -> & _).
    rewrite !elem_of_app. right. left. apply list_elem_of_join.
    eexists. split; [exact Hm|].
    apply (list_elem_of_fmap_2 (λ y, (Csv.year_step fs _ ([], []) y).2)).
    apply elem_of_csv_years, Hrange. }
  rewrite (csv_year_step_unreadable _ _ _ _ Hfile Hbad) in Hout. cbn [snd] in Hout.
  split; [apply Hout, list_elem_of_here|].
  split; [apply Hout, list_elem_of_further, list_elem_of_here|].
  split.
  - intros df r Hdf Hr Hano.
    destruct (csv_final_df_row fs df r Hdf Hr) as (rd & _ & Hfile' & _).
    rewrite Hano, Hfile in Hfile'. injection Hfile' as ->.
    exact (Hbad rd eq_refl).
  - intros year' rd Hrange' Hfile'.
    split; [exact (proj1 (csv_main_written fs year' rd Hrange' Hfile'))|].
    apply elem_of_csv_years in Hrange'.
    set (legend_data := (Csv.load_legend fs Csv.json_path).1).
    destruct (csv_year_step_raster fs legend_data year' rd Hfile')
      as (table & msgs & Hstep & Htable).
    revert Hstep. rewrite csv_main_unfold. cbv zeta. fold legend_data.
    intros Hstep.
    assert (table ∈ mjoin ((λ y, (Csv.year_step fs legend_data ([], []) y).1)
                             <$> Csv.years)) as Hin.
    { apply list_elem_of_join. eexists.
      split; [|apply list_elem_of_fmap_2, Hrange'].
      cbn beta. rewrite Hstep. apply list_elem_of_here. }
    revert Hin. set (tables := mjoin _). clearbody tables. intros Hin.
    destruct tables as [|d ds]; [exfalso; exact (not_elem_of_nil _ Hin)|].
    cbn [Csv.final_df]. eexists _, table. split; [reflexivity|].
    split; [exact Htable|].
    intros r Hr. unfold Csv.sort_by_ano_num_px.
    rewrite merge_sort_Permutation. apply elem_of_concat. eauto.
Qed.




Lemma NoDup_csv_years : NoDup Csv.years.
Proof.
  unfold Csv.years. apply NoDup_fmap_2; [|apply NoDup_seq].
  intros i j. lia.
Qed.


(** X9. For a year with a readable raster the CSV script prints the number
    of pixels of the raster that are not 0 and the number of distinct
    non-zero values. *)
Theorem csv_console_reports_totals fs year raster_data :
  (1985 <= year < 2025) →
  fs !! str_format Csv.base_raster_path year = Some (RasterFile raster_data) →
  AnoProcessado year (Z.of_nat (length (valid_pixels (concat raster_data))))
    ∈ Csv.stdout (Csv.main fs) ∧
  NumeroDeClasses (length (valid_classes (concat raster_data)))
    ∈ Csv.stdout (Csv.main fs).
Proof.
  intros Hrange Hfile.
  assert (∀ m, m ∈ (Csv.year_step fs (Csv.load_legend fs Csv.json_path).1
                      ([], []) year).2 → m ∈ Csv.stdout (Csv.main fs)) as Hout.
  { intros m Hm. destruct (csv_stdout fs) as (closing & -> & _).
    rewrite !elem_of_app. right. left. apply list_elem_of_join.
    eexists. split; [exact Hm|].
    apply (list_elem_of_fmap_2 (λ y, (Csv.year_step fs _ ([], []) y).2)).
    apply elem_of_csv_years, Hrange. }
  revert Hout. unfold Csv.year_step, path_exists. rewrite Hfile.
  rewrite bool_decide_eq_true_2 by eauto. cbn [negb].
  rewrite (process_raster_for_csv_rows _ _ _ _ raster_data)
    by (unfold rasterio_read1; rewrite Hfile; reflexivity).
  cbn [snd app]. intros Hout.
  assert (Csv.sort_by_num_px (csv_rows year (concat raster_data))
            ≡ₚ csv_rows year (concat raster_data)) as Hperm
    by apply merge_sort_Permutation.
  rewrite (np_sum_Permutation _ _ (fmap_Permutation Csv.num_px _ _ Hperm)),
    csv_rows_num_px in Hout.
  fold (total_valid (concat raster_data)) in Hout.
  rewrite total_valid_pixels, (Permutation_length Hperm) in Hout.
  unfold csv_rows in Hout at 1. rewrite length_fmap in Hout.
  split; apply Hout.
  - apply list_elem_of_further, list_elem_of_here.
  - do 2 apply list_elem_of_further. apply list_elem_of_here.
Qed.

(* ===================================================================== *)
(** ** Further properties: the chart script *)
(* ===================================================================== *)

Lemma chart_loop_raised fs legend_data ys st e :
  Chart.raised st = Some e →
  foldl (Chart.year_step fs legend_data) st ys = st.
Proof.
  intros Hst. induction ys as [|y ys IH]; [reflexivity|].
  cbn [foldl]. unfold Chart.year_step at 2. rewrite Hst. exact IH.
Qed.

Lemma chart_year_step_readable fs legend_data st y :
  Chart.raised st = None →
  (∀ file, fs !! str_format Chart.base_raster_path y = Some file →
           ∃ raster_data, file = RasterFile raster_data) →
  ∃ msgs,
    Chart.year_step fs legend_data st y =
      {| Chart.dataframes :=
           Chart.dataframes st ++
           match Chart.read_raster_and_get_value_counts fs
                   (str_format Chart.base_raster_path y) legend_data with
           | inr df => [df]
           | inl _ => []
           end;
         Chart.out := Chart.out st ++ msgs;
         Chart.raised := None |} ∧
    ∀ y', ProcessandoAno y' ∈ msgs → y' = y.
Proof.
  intros Hst Hok. unfold Chart.year_step. rewrite Hst. unfold path_exists.
  destruct (fs !! str_format Chart.base_raster_path y) as [file|] eqn:Hfile.
  - destruct (Hok file eq_refl) as (rd & ->).
    rewrite bool_decide_eq_true_2 by eauto. cbn [negb].
    rewrite (read_raster_rows fs _ legend_data rd)
      by (unfold rasterio_read1; rewrite Hfile; reflexivity).
    eexists. split; [reflexivity|].
    intros y' Hy'. apply elem_of_cons in Hy' as [[= ->]|Hy']; [reflexivity|].
    apply elem_of_cons in Hy' as [[=]|Hy'].
    apply elem_of_cons in Hy' as [[=]|Hy'].
    exfalso. exact (not_elem_of_nil _ Hy').
  - rewrite bool_decide_eq_false_2 by (intros [? [=]]). cbn [negb].
    unfold Chart.read_raster_and_get_value_counts, rasterio_read1.
    rewrite Hfile, app_nil_r.
    eexists. split; [reflexivity|].
    intros y' Hy'. apply elem_of_cons in Hy' as [[=]|Hy'].
    exfalso. exact (not_elem_of_nil _ Hy').
Qed.

(** The loop over years none of which has an unreadable file. *)
Lemma chart_loop_readable fs legend_data ys st :
  Chart.raised st = None →
  (∀ y file, y ∈ ys →
     fs !! str_format Chart.base_raster_path y = Some file →
     ∃ raster_data, file = RasterFile raster_data) →
  Chart.raised (foldl (Chart.year_step fs legend_data) st ys) = None ∧
  Chart.dataframes (foldl (Chart.year_step fs legend_data) st ys) =
    Chart.dataframes st ++
    omap (λ y, match Chart.read_raster_and_get_value_counts fs
                       (str_format Chart.base_raster_path y) legend_data with
               | inr df => Some df
               | inl _ => None
               end) ys ∧
  ∀ y, ProcessandoAno y
         ∈ Chart.out (foldl (Chart.year_step fs legend_data) st ys) →
       ProcessandoAno y ∈ Chart.out st ∨ y ∈ ys.
Proof.
  revert st. induction ys as [|y ys IH]; intros st Hst Hok.
  - cbn [foldl omap]. rewrite app_nil_r. auto.
  - cbn [foldl].
    destruct (chart_year_step_readable fs legend_data st y Hst)
      as (msgs & -> & Hmsgs).
    { intros file. apply Hok. left. }
    match goal with
    | |- context [foldl _ ?s ys] =>
        destruct (IH s eq_refl) as (Hr & Hd & Ho)
    end.
    { intros y' file Hy'. apply Hok. right. exact Hy'. }
    split; [exact Hr|]. split.
    + rewrite Hd. cbn [Chart.dataframes]. rewrite <- app_assoc.
      f_equal. change (omap ?f (y :: ys)) with
        (match f y with Some x => x :: omap f ys | None => omap f ys end).
      cbn beta.
      destruct (Chart.read_raster_and_get_value_counts _ _ _);
        reflexivity.
    + intros y' Hy'. apply Ho in Hy' as [Hy'|Hy']; [|right; right; exact Hy'].
      cbn [Chart.out] in Hy'. apply elem_of_app in Hy' as [Hy'|Hy'];
        [left; exact Hy'|].
      right. apply elem_of_cons. left. apply Hmsgs, Hy'.
Qed.

Lemma elem_of_chart_years year : year ∈ Chart.years ↔ 1985 <= year < 2025.
Proof. exact (elem_of_csv_years year). Qed.

Lemma chart_years_lookup (n : nat) :
  (n < 40)%nat → Chart.years !! n = Some (1985 + Z.of_nat n).
Proof.
  intros Hn. unfold Chart.years. rewrite list_lookup_fmap, lookup_seq_lt by lia.
  reflexivity.
Qed.

Lemma chart_years_take (n : nat) y :
  y ∈ take n Chart.years → 1985 <= y < 1985 + Z.of_nat n.
Proof.
  intros Hy. apply elem_of_take in Hy as (i & Hi & Hlt).
  unfold Chart.years in Hi. rewrite list_lookup_fmap in Hi.
  destruct (seq 0 40 !! i) as [k|] eqn:Hk; [|discriminate].
  apply lookup_seq in Hk as [-> _]. injection Hi as <-. lia.
Qed.

Lemma chart_load_legend_out fs y :
  ProcessandoAno y ∉ (Chart.load_legend fs Chart.json_path).2.
Proof.
  unfold Chart.load_legend. destruct (json_load _ _); cbn.
  - intros H. apply elem_of_cons in H as [[=]|H]. exact (not_elem_of_nil _ H).
  - apply not_elem_of_nil.
Qed.

(** X10. The chart script catches nothing in its year loop.  At the first
    year of the range whose raster path exists without being a readable
    raster the run ends with the exception of [rasterio]: the console stops
    at the line that announces this year, no later year is looked at, the
    tables are those of the readable years before it, and neither a unified
    table nor an animation is made. *)
Theorem chart_unreadable_raster_aborts fs year file :
  (1985 <= year < 2025) →
  fs !! str_format Chart.base_raster_path year = Some file →
  (∀ raster_data, file ≠ RasterFile raster_data) →
  (∀ year' file',
     (1985 <= year' < year) →
     fs !! str_format Chart.base_raster_path year' = Some file' →
     ∃ raster_data, file' = RasterFile raster_data) →
  Chart.outcome (Chart.main fs)
    = inl (RasterioIOError (str_format Chart.base_raster_path year)) ∧
  Chart.unified_df (Chart.main fs) = [] ∧
  last (Chart.stdout (Chart.main fs)) = Some (ProcessandoAno year) ∧
  (∀ year', year < year' →
            ProcessandoAno year' ∉ Chart.stdout (Chart.main fs)) ∧
  Chart.tables (Chart.main fs) =
    omap (λ y, match Chart.read_raster_and_get_value_counts fs
                       (str_format Chart.base_raster_path y)
                       (Chart.load_legend fs Chart.json_path).1 with
               | inr df => Some df
               | inl _ => None
               end)
         (take (Z.to_nat (year - 1985)) Chart.years).
Proof.
  intros Hrange Hfile Hbad Hbefore.
  rewrite chart_main_unfold. cbv zeta.
  set (legend_data := (Chart.load_legend fs Chart.json_path).1).
  set (n := Z.to_nat (year - 1985)).
  set (s0 := {| Chart.dataframes := [];
                Chart.out := (Chart.load_legend fs Chart.json_path).2;
                Chart.raised := None |}).
  assert (Chart.years !! n = Some year) as Hn
    by (rewrite chart_years_lookup by lia; f_equal; lia).
  destruct (chart_loop_readable fs legend_data (take n Chart.years) s0
              eq_refl) as (Hr & Hd & Ho).
  { intros y f Hy. apply chart_years_take in Hy. apply Hbefore. lia. }
  assert (foldl (Chart.year_step fs legend_data) s0 Chart.years =
          {| Chart.dataframes :=
               Chart.dataframes
                 (foldl (Chart.year_step fs legend_data) s0
                        (take n Chart.years));
             Chart.out :=
               Chart.out (foldl (Chart.year_step fs legend_data) s0
                                (take n Chart.years))
               ++ [ProcessandoAno year];
             Chart.raised :=
               Some (RasterioIOError
                       (str_format Chart.base_raster_path year)) |}) as ->.
  { rewrite <- (take_drop_middle _ _ _ Hn) at 1.
    rewrite foldl_app. cbn [foldl].
    set (st := foldl _ s0 (take n Chart.years)) in *. clearbody st.
    assert (Chart.year_step fs legend_data st year =
            {| Chart.dataframes := Chart.dataframes st;
               Chart.out := Chart.out st ++ [ProcessandoAno year];
               Chart.raised :=
                 Some (RasterioIOError
                         (str_format Chart.base_raster_path year)) |}) as ->.
    { unfold Chart.year_step. rewrite Hr. unfold path_exists. rewrite Hfile.
      rewrite bool_decide_eq_true_2 by eauto. cbn [negb].
      unfold Chart.read_raster_and_get_value_counts, rasterio_read1.
      rewrite Hfile.
      destruct file as [rd| |]; [exfalso; exact (Hbad rd eq_refl)| |];
        reflexivity. }
    apply (chart_loop_raised fs legend_data _ _
             (RasterioIOError (str_format Chart.base_raster_path year))).
    reflexivity. }
  set (st := foldl _ s0 (take n Chart.years)) in *. clearbody st.
  cbn [Chart.raised Chart.outcome Chart.unified_df Chart.stdout Chart.tables
       Chart.out Chart.dataframes].
  cbn [Chart.dataframes Chart.out s0 app] in Hd, Ho.
  split; [reflexivity|]. split; [reflexivity|].
  split; [apply last_snoc|]. split; [|exact Hd].
  intros year' Hlt Hin. apply elem_of_app in Hin as [Hin|Hin].
  - apply Ho in Hin as [Hin|Hin].
    + exact (chart_load_legend_out fs year' Hin).
    + apply chart_years_take in Hin. lia.
  - apply list_elem_of_singleton in Hin. injection Hin as ->. lia.
Qed.

(** The run when no path of the range holds an unreadable file. *)
Lemma chart_main_readable fs :
  (∀ year file,
     (1985 <= year < 2025) →
     fs !! str_format Chart.base_raster_path year = Some file →
     ∃ raster_data, file = RasterFile raster_data) →
  let tables :=
    omap (λ y, match Chart.read_raster_and_get_value_counts fs
                       (str_format Chart.base_raster_path y)
                       (Chart.load_legend fs Chart.json_path).1 with
               | inr df => Some df
               | inl _ => None
               end) Chart.years in
  Chart.tables (Chart.main fs) = tables ∧
  Chart.unified_df (Chart.main fs) =
    Chart.create_unified_dataframe tables Chart.years 5 ∧
  Chart.outcome (Chart.main fs) =
    Chart.create_smooth_animation Chart.years
      (Chart.create_unified_dataframe tables Chart.years 5) 5 10.
Proof.
  intros Hok tables. subst tables.
  rewrite chart_main_unfold. cbv zeta.
  set (legend_data := (Chart.load_legend fs Chart.json_path).1).
  assert (∀ y file, y ∈ Chart.years →
            fs !! str_format Chart.base_raster_path y = Some file →
            ∃ raster_data, file = RasterFile raster_data) as Hok'
    by (intros y f Hy; apply elem_of_chart_years in Hy; apply Hok, Hy).
  clear Hok. revert Hok'. generalize Chart.years. intros ys Hok.
  set (s0 := {| Chart.dataframes := [];
                Chart.out := (Chart.load_legend fs Chart.json_path).2;
                Chart.raised := None |}).
  destruct (chart_loop_readable fs legend_data ys s0 eq_refl Hok)
    as (Hr & Hd & _).
  set (st := foldl _ s0 ys) in *. clearbody st. rewrite Hr.
  cbn [Chart.tables Chart.unified_df Chart.outcome].
  change (Chart.dataframes s0) with (@nil (list Chart.row)) in Hd.
  rewrite app_nil_l in Hd. rewrite Hd.
  split; [reflexivity|]. split; reflexivity.
Qed.

(** X11. When no path of the range holds an unreadable file, the tables of
    the chart script are those of the years that have a raster, in the order
    of the years, and the unified table and the animation are made from
    them with the whole range as the list of years. *)
Theorem chart_tables_are_the_readable_years fs :
  (∀ year file,
     (1985 <= year < 2025) →
     fs !! str_format Chart.base_raster_path year = Some file →
     ∃ raster_data, file = RasterFile raster_data) →
  Chart.tables (Chart.main fs) =
    omap (λ y, match fs !! str_format Chart.base_raster_path y with
               | Some (RasterFile raster_data) =>
                   Some (Chart.sort_by_cont_px
                           (chart_rows (Chart.load_legend fs Chart.json_path).1
                                       (concat raster_data)))
               | _ => None
               end) Chart.years ∧
  Chart.unified_df (Chart.main fs) =
    Chart.create_unified_dataframe (Chart.tables (Chart.main fs))
      Chart.years 5 ∧
  Chart.outcome (Chart.main fs) =
    Chart.create_smooth_animation Chart.years
      (Chart.unified_df (Chart.main fs)) 5 10.
Proof.
  intros Hok. destruct (chart_main_readable fs Hok) as (Ht & Hu & Ho).
  cbv zeta in *. rewrite Hu, Ho, Ht. split; [|done].
  apply list_omap_ext, Forall_Forall2_diag, Forall_forall. intros y _.
  destruct (fs !! str_format Chart.base_raster_path y) as [[rd| |]|] eqn:Hfile.
  - rewrite (read_raster_rows fs _ _ rd)
      by (unfold rasterio_read1; rewrite Hfile; reflexivity).
    reflexivity.
  - unfold Chart.read_raster_and_get_value_counts, rasterio_read1.
    rewrite Hfile. reflexivity.
  - unfold Chart.read_raster_and_get_value_counts, rasterio_read1.
    rewrite Hfile. reflexivity.
  - unfold Chart.read_raster_and_get_value_counts, rasterio_read1.
    rewrite Hfile. reflexivity.
Qed.

Lemma join_fmap_nil {A B} (g : A → list B) (l : list A) :
  (∀ x, g x = []) → mjoin (g <$> l) = [].
Proof.
  intros Hg. induction l as [|x l IH]; [reflexivity|].
  rewrite fmap_cons, mjoin_cons, Hg, IH. reflexivity.
Qed.

(** Tables without rows give an empty unified table. *)
Lemma unified_of_empty_tables dataframes years top_n :
  Forall (λ df, df = []) dataframes →
  Chart.create_unified_dataframe dataframes years top_n = [].
Proof.
  intros Hdfs. unfold Chart.create_unified_dataframe.
  assert (elements (Chart.all_classes dataframes top_n) = []) as ->.
  { destruct (elements _) as [|c l] eqn:E; [reflexivity|]. exfalso.
    assert (c ∈ Chart.all_classes dataframes top_n) as Hc
      by (apply elem_of_elements; rewrite E; apply list_elem_of_here).
    apply elem_of_all_classes in Hc as (df & Hdf & Hc).
    rewrite Forall_forall in Hdfs. rewrite (Hdfs df Hdf) in Hc.
    rewrite fmap_nil, take_nil in Hc. exact (not_elem_of_nil _ Hc). }
  apply join_fmap_nil. intros [y df]. reflexivity.
Qed.

(** X12. When no raster of the range has a pixel other than 0 (the files
    are missing or hold only zeros), the chart script builds a unified
    table without rows and columns and ends, in the animation function, with
    the KeyError of the first column access. *)
Theorem chart_without_valid_pixels_raises_key_error fs :
  (∀ year,
     (1985 <= year < 2025) →
     fs !! str_format Chart.base_raster_path year = None ∨
     ∃ raster_data,
       fs !! str_format Chart.base_raster_path year
         = Some (RasterFile raster_data) ∧
       ∀ x, x ∈ concat raster_data → x = 0) →
  Forall (λ df, df = []) (Chart.tables (Chart.main fs)) ∧
  Chart.unified_df (Chart.main fs) = [] ∧
  Chart.outcome (Chart.main fs) = inl (KeyError "year").
Proof.
  intros Hzero.
  destruct (chart_main_readable fs) as (Ht & Hu & Ho).
  { intros year file Hrange Hfile.
    destruct (Hzero year Hrange) as [E|(rd & E & _)]; rewrite E in Hfile;
      [discriminate|]. injection Hfile as <-. eauto. }
  cbv zeta in Ht, Hu, Ho. rewrite <- Ht in Hu, Ho.
  assert (Forall (λ df, df = []) (Chart.tables (Chart.main fs))) as Hempty.
  { rewrite Ht. apply Forall_forall. intros df Hdf.
    apply list_elem_of_omap in Hdf as (y & Hy & Hdf).
    apply elem_of_chart_years in Hy.
    destruct (Chart.read_raster_and_get_value_counts _ _ _) as [|df'] eqn:Hread;
      [discriminate|]. injection Hdf as ->.
    apply read_raster_inr in Hread as (rd & Hfile & ->).
    destruct (Hzero y Hy) as [E|(rd' & E & Hrd)]; rewrite E in Hfile;
      [discriminate|]. injection Hfile as ->.
    unfold chart_rows. rewrite (valid_classes_all_zero _ Hrd). reflexivity. }
  split; [exact Hempty|].
  rewrite Ho, Hu, (unified_of_empty_tables _ _ _ Hempty).
  split; [reflexivity|].
  unfold Chart.create_smooth_animation, Chart.all_years.
  assert (last Chart.years = Some 2024) as -> by (vm_compute; reflexivity).
  reflexivity.
Qed.

Lemma omap_lookup_prefix {A B} (f : A → option B) (l : list A) i x t :
  l !! i = Some x → f x = Some t →
  (∀ j y, (j < i)%nat → l !! j = Some y → is_Some (f y)) →
  omap f l !! i = Some t.
Proof.
  revert i. induction l as [|a l IH]; intros i Hi Hx Hbefore; [discriminate|].
  change (omap f (a :: l)) with
    (match f a with Some b => b :: omap f l | None => omap f l end).
  destruct i as [|i].
  - injection Hi as ->. rewrite Hx. reflexivity.
  - destruct (Hbefore 0%nat a ltac:(lia) eq_refl) as [b ->].
    cbn [lookup list_lookup]. apply IH; [exact Hi|exact Hx|].
    intros j y Hj Hy. apply (Hbefore (S j) y); [lia|exact Hy].
Qed.

Lemma NoDup_chart_years : NoDup Chart.years.
Proof. exact NoDup_csv_years. Qed.

Lemma chart_rows_of_class legend_data a r :
  r ∈ chart_rows legend_data a →
  Chart.classe r ∈ a ∧
  Chart.porcent r = percent_of (count_of (Chart.classe r) a) (total_valid a) ∧
  Chart.nome_pt r = (Chart.legend_fields legend_data (Chart.classe r)).1 ∧
  Chart.cor_hex r = (Chart.legend_fields legend_data (Chart.classe r)).2.
Proof.
  unfold chart_rows. intros H. apply list_elem_of_fmap in H as (v & -> & Hv).
  apply elem_of_valid_classes in Hv as [Hv _]. cbn. done.
Qed.

(** X13. The chart script labels the tables with the years of the range in
    order.  For a year whose raster is readable, as are the rasters of all
    earlier years of the range (and no path of the range holds an unreadable
    file), the unified table has exactly one row for the year and each class
    of the class union: with the percentage, name and colour of the class in
    this year's raster when the class occurs there, and with percentage 0 and
    rank 6 when it does not. *)
Theorem unified_table_labels_unbroken_years fs year raster_data C :
  (∀ year' file,
     (1985 <= year' < 2025) →
     fs !! str_format Chart.base_raster_path year' = Some file →
     ∃ raster_data', file = RasterFile raster_data') →
  (∀ year',
     (1985 <= year' < year) →
     is_Some (fs !! str_format Chart.base_raster_path year')) →
  (1985 <= year < 2025) →
  fs !! str_format Chart.base_raster_path year = Some (RasterFile raster_data) →
  C ∈ Chart.all_classes (Chart.tables (Chart.main fs)) 5 →
  ∃ r,
    filter (λ r, Chart.Unified.year r = year ∧ Chart.Unified.classe r = C)
           (Chart.unified_df (Chart.main fs)) = [r] ∧
    (C ∈ concat raster_data →
     Chart.Unified.porcent r
       = percent_of (count_of C (concat raster_data))
                    (total_valid (concat raster_data)) ∧
     Chart.Unified.nome_pt r
       = (Chart.legend_fields (Chart.load_legend fs Chart.json_path).1 C).1 ∧
     Chart.Unified.cor_hex r
       = (Chart.legend_fields (Chart.load_legend fs Chart.json_path).1 C).2) ∧
    (C ∉ concat raster_data →
     Chart.Unified.porcent r = Fin 0 ∧ Chart.Unified.rank r = 6).
Proof.
  intros Hok Hprefix Hrange Hfile HC.
  destruct (chart_main_readable fs Hok) as (Ht & Hu & _).
  cbv zeta in Ht, Hu. rewrite <- Ht in Hu.
  set (legend_data := (Chart.load_legend fs Chart.json_path).1) in *.
  set (df := Chart.sort_by_cont_px (chart_rows legend_data (concat raster_data))).
  set (n := Z.to_nat (year - 1985)).
  assert (Chart.years !! n = Some year) as Hn
    by (unfold n; rewrite chart_years_lookup by lia; f_equal; lia).
  assert (Chart.tables (Chart.main fs) !! n = Some df) as Hdf.
  { rewrite Ht. apply (omap_lookup_prefix _ _ _ year); [exact Hn| |].
    - rewrite (read_raster_rows fs _ legend_data raster_data)
        by (unfold rasterio_read1; rewrite Hfile; reflexivity).
      reflexivity.
    - intros j y Hj Hy. unfold n in Hj.
      rewrite chart_years_lookup in Hy by lia. injection Hy as <-.
      assert (1985 <= 1985 + Z.of_nat j < year) as Hj' by lia.
      destruct (Hprefix _ Hj') as [file Hfile'].
      assert (1985 <= 1985 + Z.of_nat j < 2025) as Hj'' by lia.
      destruct (Hok _ file Hj'' Hfile') as [rd ->].
      rewrite (read_raster_rows fs _ legend_data rd)
        by (unfold rasterio_read1; rewrite Hfile'; reflexivity).
      eauto. }
  exists (Chart.unified_row (Chart.tables (Chart.main fs)) 5 year df C).
  split.
  { rewrite Hu.
    apply (unifier_one_row_per_year_and_class _ _ _ n);
      [apply NoDup_chart_years|exact Hn|exact Hdf|exact HC]. }
  assert (C ≠ 0) as HC0.
  { apply elem_of_all_classes in HC as (df' & Hdf' & HC).
    apply elem_of_take_elem_of, list_elem_of_fmap in HC as (row & -> & Hrow).
    exact (chart_tables_classe fs df' row Hdf' Hrow). }
  assert (C ∈ Chart.classe <$> df ↔ C ∈ concat raster_data) as Hin.
  { unfold df, Chart.sort_by_cont_px. rewrite merge_sort_Permutation.
    rewrite chart_rows_classes, elem_of_valid_classes. tauto. }
  split.
  - intros HCin. apply Hin in HCin.
    destruct (find_row_is_Some _ _ HCin) as [row Hrow].
    rewrite (unified_row_present _ _ _ _ _ _ Hrow).
    cbn [Chart.Unified.porcent Chart.Unified.nome_pt Chart.Unified.cor_hex].
    apply find_row_Some in Hrow as [Hrow <-].
    unfold df, Chart.sort_by_cont_px in Hrow.
    rewrite merge_sort_Permutation in Hrow.
    apply chart_rows_of_class in Hrow. tauto.
  - intros HCout. rewrite <- Hin in HCout.
    destruct (unified_row_absent _ 5 year df C HC HCout)
      as (j & other_df & other_row & _ & _ & _ & ->).
    split; reflexivity.
Qed.

(* ===================================================================== *)
(** ** The tables of the chart script and their years *)
(* ===================================================================== *)

Lemma chart_loop_grows fs legend_data ys st :
  ∃ dfs msgs,
    Chart.dataframes (foldl (Chart.year_step fs legend_data) st ys)
      = Chart.dataframes st ++ dfs ∧
    Chart.out (foldl (Chart.year_step fs legend_data) st ys)
      = Chart.out st ++ msgs.
Proof.
  revert st. induction ys as [|y ys IH]; intros st.
  - exists [], []. rewrite !app_nil_r. done.
  - cbn [foldl].
    destruct (IH (Chart.year_step fs legend_data st y))
      as (dfs & msgs & -> & ->).
    unfold Chart.year_step. destruct (Chart.raised st); [eauto|].
    destruct (negb (path_exists fs _));
      [|destruct (Chart.read_raster_and_get_value_counts _ _ _)];
      cbn [Chart.dataframes Chart.out]; rewrite <- ?app_assoc; eauto.
Qed.

Lemma chart_year_step_raster fs legend_data st year raster_data :
  Chart.raised st = None →
  fs !! str_format Chart.base_raster_path year
    = Some (RasterFile raster_data) →
  ∃ msgs,
    Chart.year_step fs legend_data st year =
      {| Chart.dataframes :=
           Chart.dataframes st ++
           [Chart.sort_by_cont_px
              (chart_rows legend_data (concat raster_data))];
         Chart.out := Chart.out st ++ ProcessandoAno year :: msgs;
         Chart.raised := None |}.
Proof.
  intros Hst Hfile. unfold Chart.year_step. rewrite Hst. unfold path_exists.
  rewrite Hfile, bool_decide_eq_true_2 by eauto. cbn [negb].
  rewrite (read_raster_rows fs _ legend_data raster_data)
    by (unfold rasterio_read1; rewrite Hfile; reflexivity).
  eexists. reflexivity.
Qed.

Lemma length_omap_filter {A B} (f : A → option B) (P : A → bool) (l : list A) :
  (∀ y, y ∈ l → is_Some (f y) ↔ P y = true) →
  length (omap f l) = length (List.filter P l).
Proof.
  induction l as [|x l IH]; intros H; [reflexivity|].
  change (omap f (x :: l)) with
    (match f x with Some b => b :: omap f l | None => omap f l end).
  cbn [List.filter].
  assert (length (omap f l) = length (List.filter P l)) as IH'
    by (apply IH; intros y Hy; apply H; right; exact Hy).
  pose proof (H x ltac:(left)) as Hx.
  destruct (f x) as [b|], (P x).
  - cbn [length]. rewrite IH'. reflexivity.
  - destruct Hx as [Hx _]. specialize (Hx ltac:(eauto)). discriminate.
  - destruct Hx as [_ Hx]. destruct (Hx eq_refl) as [? [=]].
  - exact IH'.
Qed.


(** The chart script reaches every raster that no unreadable file comes
    before, announces its year and keeps its table, at the position given
    by the number of earlier years whose file exists. *)
Lemma chart_main_table_of_year fs year raster_data :
  (1985 <= year < 2025) →
  fs !! str_format Chart.base_raster_path year
    = Some (RasterFile raster_data) →
  (∀ year' file',
     (1985 <= year' < year) →
     fs !! str_format Chart.base_raster_path year' = Some file' →
     ∃ raster_data', file' = RasterFile raster_data') →
  ProcessandoAno year ∈ Chart.stdout (Chart.main fs) ∧
  Chart.tables (Chart.main fs)
    !! length (List.filter
                 (λ y, path_exists fs (str_format Chart.base_raster_path y))
                 (take (Z.to_nat (year - 1985)) Chart.years))
  = Some (Chart.sort_by_cont_px
            (chart_rows (Chart.load_legend fs Chart.json_path).1
                        (concat raster_data))).
Proof.
  intros Hrange Hfile Hbefore.
  rewrite chart_main_unfold. cbv zeta.
  set (legend_data := (Chart.load_legend fs Chart.json_path).1).
  set (n := Z.to_nat (year - 1985)).
  set (s0 := {| Chart.dataframes := [];
                Chart.out := (Chart.load_legend fs Chart.json_path).2;
                Chart.raised := None |}).
  assert (Chart.years !! n = Some year) as Hn
    by (unfold n; rewrite chart_years_lookup by lia; f_equal; lia).
  assert (∀ y file, y ∈ take n Chart.years →
            fs !! str_format Chart.base_raster_path y = Some file →
            ∃ raster_data', file = RasterFile raster_data') as Hok.
  { intros y f Hy. apply chart_years_take in Hy. apply Hbefore.
    unfold n in Hy. lia. }
  destruct (chart_loop_readable fs legend_data (take n Chart.years) s0
              eq_refl Hok) as (Hr & Hd & _).
  assert (length (Chart.dataframes
                    (foldl (Chart.year_step fs legend_data) s0
                           (take n Chart.years))) =
          length (List.filter
                    (λ y, path_exists fs (str_format Chart.base_raster_path y))
                    (take n Chart.years))) as Hlen.
  { rewrite Hd. change (Chart.dataframes s0) with (@nil (list Chart.row)).
    rewrite app_nil_l. apply length_omap_filter. intros y Hy.
    unfold path_exists, Chart.read_raster_and_get_value_counts, rasterio_read1.
    destruct (fs !! str_format Chart.base_raster_path y) as [file|] eqn:E.
    - destruct (Hok y file Hy E) as (rd & ->).
      destruct (np_unique (concat rd)).
      rewrite bool_decide_eq_true_2 by eauto. split; eauto.
    - rewrite bool_decide_eq_false_2 by (intros [? [=]]).
      split; [intros [? [=]]|discriminate]. }
  revert Hlen. generalize (List.filter
    (λ y, path_exists fs (str_format Chart.base_raster_path y))
    (take n Chart.years)). intros before Hlen.
  assert (∃ st, foldl (Chart.year_step fs legend_data) s0 Chart.years = st ∧
                ProcessandoAno year ∈ Chart.out st ∧
                Chart.dataframes st !! length before
                  = Some (Chart.sort_by_cont_px
                            (chart_rows legend_data (concat raster_data))))
    as (st & -> & Hout & Htab).
  { assert (foldl (Chart.year_step fs legend_data) s0 Chart.years =
            foldl (Chart.year_step fs legend_data)
              (Chart.year_step fs legend_data
                 (foldl (Chart.year_step fs legend_data) s0
                        (take n Chart.years)) year)
              (drop (S n) Chart.years)) as ->.
    { rewrite <- (take_drop_middle _ _ _ Hn) at 1.
      rewrite foldl_app. reflexivity. }
    revert Hr Hlen.
    generalize (foldl (Chart.year_step fs legend_data) s0 (take n Chart.years)).
    intros st1 Hr Hlen.
    destruct (chart_year_step_raster fs legend_data st1 year raster_data Hr Hfile)
      as (msgs & ->).
    match goal with
    | |- context [foldl _ ?s (drop (S n) Chart.years)] =>
        destruct (chart_loop_grows fs legend_data (drop (S n) Chart.years) s)
          as (dfs & msgs' & Hd' & Ho')
    end.
    eexists. split; [reflexivity|]. rewrite Hd', Ho'.
    cbn [Chart.dataframes Chart.out]. split.
    - rewrite !elem_of_app. left. right. left.
    - rewrite <- app_assoc, <- Hlen. apply list_lookup_middle. reflexivity. }
  destruct (Chart.raised st); cbn [Chart.stdout Chart.tables];
    split; assumption.
Qed.

(** C8. When the legend file cannot be read as a legend, the loader prints
    the error and returns the empty mapping, and the run goes on.  Under any
    legend, a readable raster gets a table in which every non-zero class
    code that the legend does not hold has a row with the placeholder name
    and the grey colour, and no row of such a class carries anything else.
    After a failed load the chart script still reaches every raster that no
    unreadable raster comes before: it announces the year and keeps a table
    in which every non-zero class code of the raster has its placeholder
    row. *)
Theorem legend_failure_gives_placeholders fs :
  (∀ json_path,
     (∀ legend, fs !! json_path ≠ Some (JsonFile legend)) →
     ∃ e, Chart.load_legend fs json_path = (∅, [ErroJson e])) ∧
  (∀ raster_path legend_data df r,
     Chart.read_raster_and_get_value_counts fs raster_path legend_data = inr df →
     r ∈ df →
     legend_data !! pretty (Chart.classe r) = None →
     Chart.nome_pt r
       = "Classe " +:+ pretty (Chart.classe r) +:+ " (não encontrada)" ∧
     Chart.cor_hex r = "#808080") ∧
  (∀ raster_path legend_data raster_data,
     fs !! raster_path = Some (RasterFile raster_data) →
     ∃ df,
       Chart.read_raster_and_get_value_counts fs raster_path legend_data
         = inr df ∧
       ∀ v, v ∈ concat raster_data → v ≠ 0 →
            legend_data !! pretty v = None →
            ∃ r, r ∈ df ∧ Chart.classe r = v ∧
                 Chart.nome_pt r
                   = "Classe " +:+ pretty v +:+ " (não encontrada)" ∧
                 Chart.cor_hex r = "#808080") ∧
  ((∀ legend, fs !! Chart.json_path ≠ Some (JsonFile legend)) →
   (∃ e, head (Chart.stdout (Chart.main fs)) = Some (ErroJson e)) ∧
   (∀ df r, df ∈ Chart.tables (Chart.main fs) → r ∈ df →
      Chart.nome_pt r
        = "Classe " +:+ pretty (Chart.classe r) +:+ " (não encontrada)" ∧
      Chart.cor_hex r = "#808080") ∧
   ∀ year raster_data,
     (1985 <= year < 2025) →
     fs !! str_format Chart.base_raster_path year
       = Some (RasterFile raster_data) →
     (∀ year' file',
        (1985 <= year' < year) →
        fs !! str_format Chart.base_raster_path year' = Some file' →
        ∃ raster_data', file' = RasterFile raster_data') →
     ProcessandoAno year ∈ Chart.stdout (Chart.main fs) ∧
     ∃ df,
       df ∈ Chart.tables (Chart.main fs) ∧
       ∀ v, v ∈ concat raster_data → v ≠ 0 →
            ∃ r, r ∈ df ∧ Chart.classe r = v ∧
                 Chart.nome_pt r
                   = "Classe " +:+ pretty v +:+ " (não encontrada)" ∧
                 Chart.cor_hex r = "#808080").
Proof.
  assert (∀ json_path,
            (∀ legend, fs !! json_path ≠ Some (JsonFile legend)) →
            ∃ e, Chart.load_legend fs json_path = (∅, [ErroJson e])) as Hload.
  { intros json_path Hbad. unfold Chart.load_legend, json_load.
    destruct (fs !! json_path) as [[b|legend|]|] eqn:E; eauto.
    exfalso. exact (Hbad legend eq_refl). }
  assert (∀ raster_path legend_data df r,
            Chart.read_raster_and_get_value_counts fs raster_path legend_data
              = inr df →
            r ∈ df →
            legend_data !! pretty (Chart.classe r) = None →
            Chart.nome_pt r
              = "Classe " +:+ pretty (Chart.classe r) +:+ " (não encontrada)" ∧
            Chart.cor_hex r = "#808080") as Hrow.
  { intros raster_path legend_data df r Hdf Hr Hnone.
    apply read_raster_inr in Hdf as (rd & _ & ->).
    unfold Chart.sort_by_cont_px in Hr. rewrite merge_sort_Permutation in Hr.
    exact (chart_rows_placeholder _ _ _ Hr Hnone). }
  assert (∀ legend_data a v,
            v ∈ a → v ≠ 0 → legend_data !! pretty v = None →
            ∃ r, r ∈ Chart.sort_by_cont_px (chart_rows legend_data a) ∧
                 Chart.classe r = v ∧
                 Chart.nome_pt r
                   = "Classe " +:+ pretty v +:+ " (não encontrada)" ∧
                 Chart.cor_hex r = "#808080") as Hclass.
  { intros legend_data a v Hv Hv0 Hnone.
    assert (v ∈ Chart.classe <$> chart_rows legend_data a) as Hin
      by (rewrite chart_rows_classes; apply elem_of_valid_classes; tauto).
    apply list_elem_of_fmap in Hin as (r & -> & Hr).
    exists r. split.
    - unfold Chart.sort_by_cont_px. rewrite merge_sort_Permutation. exact Hr.
    - split; [reflexivity|]. exact (chart_rows_placeholder _ _ _ Hr Hnone). }
  split; [exact Hload|split; [exact Hrow|split]].
  - intros raster_path legend_data raster_data Hfile. eexists. split.
    + apply read_raster_rows. unfold rasterio_read1. rewrite Hfile. reflexivity.
    + intros v. apply Hclass.
  - intros Hbad. destruct (Hload _ Hbad) as (e & He). split; [|split].
    + exists e. destruct (chart_stdout_prefix fs) as (rest & ->).
      rewrite He. reflexivity.
    + intros df r Hdf Hr.
      pose proof (chart_main_tables
        (λ df, ∀ r, r ∈ df →
           Chart.nome_pt r
             = "Classe " +:+ pretty (Chart.classe r) +:+ " (não encontrada)" ∧
           Chart.cor_hex r = "#808080") fs) as H.
      rewrite Forall_forall in H. eapply H; [|exact Hdf|exact Hr].
      intros raster_path df' Hread r' Hr'. rewrite He in Hread.
      eapply Hrow; [exact Hread|exact Hr'|]. apply lookup_empty.
    + intros year raster_data Hrange Hfile Hbefore.
      destruct (chart_main_table_of_year fs year raster_data Hrange Hfile
                  Hbefore) as [Hout Htab].
      split; [exact Hout|]. eexists. split.
      * eapply list_elem_of_lookup_2. exact Htab.
      * intros v Hv Hv0. apply Hclass; [exact Hv|exact Hv0|].
        rewrite He. apply lookup_empty.
Qed.


(* ===================================================================== *)
(** ** Further properties: the unified table *)
(* ===================================================================== *)

Lemma length_join_uniform {A} (ls : list (list A)) m :
  Forall (λ l, length l = m) ls → length (mjoin ls) = (length ls * m)%nat.
Proof.
  induction 1 as [|l ls Hl _ IH]; [reflexivity|].
  rewrite mjoin_cons, length_app, IH, Hl. reflexivity.
Qed.

Lemma index_of_Some c l i :
  Chart.index_of c l = Some i →
  l !! i = Some c ∧ ∀ j, (j < i)%nat → l !! j ≠ Some c.
Proof.
  unfold Chart.index_of. destruct (list_find _ l) as [[i' x]|] eqn:E;
    [|discriminate].
  intros [= <-]. apply list_find_Some in E as (Hi & -> & Hbefore).
  split; [exact Hi|]. intros j Hj Hc. exact (Hbefore j c Hc Hj eq_refl).
Qed.

Lemma index_of_None c l : Chart.index_of c l = None ↔ c ∉ l.
Proof.
  unfold Chart.index_of. rewrite fmap_None, list_find_None, Forall_forall.
  split.
  - intros H Hc. exact (H c Hc eq_refl).
  - intros H x Hx ->. exact (H Hx).
Qed.

(** The rank of a row built by the unifier. *)
Lemma unified_row_rank dataframes top_n year df c :
  let r := Chart.unified_row dataframes top_n year df c in
  let top_classes := Chart.classe <$> take top_n df in
  1 <= Chart.Unified.rank r <= Z.of_nat top_n + 1 ∧
  (Chart.Unified.rank r = Z.of_nat top_n + 1 ↔ c ∉ top_classes) ∧
  ∀ k : nat, Chart.Unified.rank r = Z.of_nat k + 1 → (k < top_n)%nat →
             top_classes !! k = Some c ∧
             ∀ j, (j < k)%nat → top_classes !! j ≠ Some c.
Proof.
  intros r top_classes. subst r. unfold Chart.unified_row.
  fold top_classes.
  assert (length top_classes ≤ top_n)%nat as Hlen
    by (unfold top_classes; rewrite length_fmap, length_take; lia).
  destruct (Chart.find_row c df) as [row|] eqn:Hrow.
  - cbn [Chart.Unified.rank].
    destruct (Chart.index_of c top_classes) as [i|] eqn:Hi.
    + apply index_of_Some in Hi as [Hi Hfirst].
      pose proof (lookup_lt_Some _ _ _ Hi) as Hlt.
      split; [lia|]. split.
      * split; [lia|]. intros Hc. exfalso. apply Hc.
        eapply list_elem_of_lookup_2. exact Hi.
      * intros k Hk _. assert (k = i) as -> by lia. done.
    + apply index_of_None in Hi. split; [lia|]. split; [tauto|].
      intros k Hk Hlt. lia.
  - assert (c ∉ top_classes) as Hc.
    { apply find_row_None in Hrow. intros Hc. apply Hrow.
      unfold top_classes in Hc.
      apply list_elem_of_fmap in Hc as (x & -> & Hx).
      apply list_elem_of_fmap_2. exact (elem_of_take_elem_of _ _ _ Hx). }
    destruct (Chart.find_other c dataframes); cbn [Chart.Unified.rank];
      (split; [lia|]); (split; [tauto|]); intros k Hk Hlt; lia.
Qed.

Lemma length_unified dataframes years top_n :
  length (Chart.create_unified_dataframe dataframes years top_n) =
  (length years `min` length dataframes
   * size (Chart.all_classes dataframes top_n))%nat.
Proof.
  unfold Chart.create_unified_dataframe.
  rewrite (length_join_uniform _ (size (Chart.all_classes dataframes top_n))).
  - rewrite length_fmap, length_zip. reflexivity.
  - apply Forall_fmap, Forall_forall. intros [y df] _. cbn.
    rewrite length_fmap. reflexivity.
Qed.

(** X14. The unified table has one block of rows per pair of [zip(years,
    dataframes)] and in each block one row per class of the class union.
    Every row carries a year of [years] and a class of the union; when the
    years are pairwise distinct and there are as many tables as years,
    every year of [years] and every class of the union have exactly one
    row. *)
Theorem unified_table_has_one_row_per_pair dataframes years top_n :
  length (Chart.create_unified_dataframe dataframes years top_n) =
    (length years `min` length dataframes
     * size (Chart.all_classes dataframes top_n))%nat ∧
  (∀ r, r ∈ Chart.create_unified_dataframe dataframes years top_n →
        Chart.Unified.year r ∈ years ∧
        Chart.Unified.classe r ∈ Chart.all_classes dataframes top_n) ∧
  (NoDup years → length years = length dataframes →
   ∀ Y C, Y ∈ years → C ∈ Chart.all_classes dataframes top_n →
          ∃ r, filter (λ r, Chart.Unified.year r = Y ∧
                            Chart.Unified.classe r = C)
                      (Chart.create_unified_dataframe dataframes years top_n)
               = [r]).
Proof.
  split; [apply length_unified|]. split.
  - intros r Hr. apply elem_of_unified in Hr as (i & y & df & c & Hy & _ & Hc & ->).
    destruct (unified_row_year_classe dataframes top_n y df c) as [-> ->].
    split; [eapply list_elem_of_lookup_2; exact Hy|exact Hc].
  - intros Hnodup Hlen Y C HY HC.
    apply list_elem_of_lookup in HY as [i Hi].
    destruct (lookup_lt_is_Some_2 dataframes i) as [df Hdf].
    { rewrite <- Hlen. eapply lookup_lt_Some. exact Hi. }
    eexists.
    exact (unifier_one_row_per_year_and_class _ _ _ _ _ _ _ Hnodup Hi Hdf HC).
Qed.

(** X15. The rank of a row of the unified table lies between 1 and
    [top_n + 1].  It is [top_n + 1] exactly when the class is not among the
    first [top_n] rows of the table of the row's year, and otherwise one
    more than the first position of the class among them. *)
Theorem unified_rank_is_position dataframes years top_n r :
  r ∈ Chart.create_unified_dataframe dataframes years top_n →
  ∃ i df,
    years !! i = Some (Chart.Unified.year r) ∧
    dataframes !! i = Some df ∧
    1 <= Chart.Unified.rank r <= Z.of_nat top_n + 1 ∧
    (Chart.Unified.rank r = Z.of_nat top_n + 1 ↔
     Chart.Unified.classe r ∉ Chart.classe <$> take top_n df) ∧
    ∀ k : nat,
      Chart.Unified.rank r = Z.of_nat k + 1 → (k < top_n)%nat →
      (Chart.classe <$> df) !! k = Some (Chart.Unified.classe r) ∧
      ∀ j, (j < k)%nat →
           (Chart.classe <$> df) !! j ≠ Some (Chart.Unified.classe r).
Proof.
  intros Hr. apply elem_of_unified in Hr as (i & y & df & c & Hy & Hdf & _ & ->).
  destruct (unified_row_year_classe dataframes top_n y df c) as [Ey Ec].
  rewrite Ey, Ec. exists i, df. split; [exact Hy|]. split; [exact Hdf|].
  destruct (unified_row_rank dataframes top_n y df c) as (H1 & H2 & H3).
  split; [exact H1|]. split; [exact H2|].
  intros k Hk Hlt. destruct (H3 k Hk Hlt) as [Hat Hfirst].
  rewrite fmap_take in Hat, Hfirst.
  rewrite lookup_take_lt in Hat by exact Hlt. split; [exact Hat|].
  intros j Hj. specialize (Hfirst j Hj).
  rewrite lookup_take_lt in Hfirst by lia. exact Hfirst.
Qed.

(* ===================================================================== *)
(** ** Further properties: the animation *)
(* ===================================================================== *)

Lemma lookup_join_uniform {A} (ls : list (list A)) m i j l :
  Forall (λ l, length l = m) ls → ls !! i = Some l → (j < m)%nat →
  mjoin ls !! (i * m + j)%nat = l !! j.
Proof.
  intros Hls. revert i. induction Hls as [|l0 ls Hl0 _ IH]; intros i Hi Hj;
    [discriminate|].
  rewrite mjoin_cons. destruct i as [|i].
  - injection Hi as ->. rewrite lookup_app_l by lia. reflexivity.
  - rewrite lookup_app_r by lia.
    replace (S i * m + j - length l0)%nat with (i * m + j)%nat by lia.
    apply IH; [exact Hi|exact Hj].
Qed.

(** The frame years: one block of [max 1 frames_per_year] frames per year
    but the last, which stands alone. *)
Lemma all_years_frames years frames_per_year :
  years ≠ [] →
  ∃ ys,
    Chart.all_years years frames_per_year = inr ys ∧
    length ys = ((length years - 1) * (1 `max` frames_per_year) + 1)%nat ∧
    (∀ i year, years !! i = Some year →
               ys !! (i * (1 `max` frames_per_year))%nat
                 = Some (Chart.PyInt year)) ∧
    (∀ i j year,
       years !! i = Some year → (S i < length years)%nat →
       (1 ≤ j < frames_per_year)%nat →
       ys !! (i * frames_per_year + j)%nat =
         Some (Chart.PyFloat
                 (fadd (of_int year)
                    (fmul (of_int (Z.of_nat j))
                       (fdiv (Fin 1) (of_int (Z.of_nat frames_per_year))))))).
Proof.
  intros Hne. unfold Chart.all_years.
  destruct (last years) as [year_last|] eqn:Hlast;
    [|apply last_None in Hlast; contradiction].
  eexists. split; [reflexivity|].
  set (block := λ year_i : Z,
         Chart.PyInt year_i ::
         ((λ j : nat, Chart.PyFloat
                  (fadd (of_int year_i)
                     (fmul (of_int (Z.of_nat j))
                        (fdiv (Fin 1) (of_int (Z.of_nat frames_per_year))))))
          <$> seq 1 (frames_per_year - 1))).
  set (m := (1 `max` frames_per_year)%nat).
  assert (Forall (λ l, length l = m)
                 (block <$> take (length years - 1) years)) as Hblocks.
  { apply Forall_fmap, Forall_forall. intros y _. unfold block. cbn.
    rewrite length_fmap, length_seq. lia. }
  pose proof (length_join_uniform _ _ Hblocks) as Hlen.
  rewrite length_fmap, length_take in Hlen.
  split; [rewrite length_app, Hlen; cbn; lia|].
  assert (years !! (length years - 1)%nat = Some year_last) as Hlast'.
  { rewrite last_lookup in Hlast. rewrite <- Hlast. f_equal. lia. }
  split.
  - intros i year Hi. pose proof (lookup_lt_Some _ _ _ Hi) as Hlt.
    destruct (decide (i = length years - 1)%nat) as [->|Hi'].
    + rewrite Hlast' in Hi. injection Hi as ->.
      rewrite lookup_app_r by lia.
      replace (_ - _)%nat with 0%nat by lia. reflexivity.
    + rewrite lookup_app_l by nia.
      replace (i * m)%nat with (i * m + 0)%nat by lia.
      rewrite (lookup_join_uniform _ m i 0 (block year) Hblocks); [reflexivity| |lia].
      rewrite list_lookup_fmap, lookup_take_lt by lia. rewrite Hi. reflexivity.
  - intros i j year Hi Hlt Hj.
    assert (m = frames_per_year) as Hm by lia.
    rewrite lookup_app_l by nia. rewrite <- Hm at 1.
    rewrite (lookup_join_uniform _ m i j (block year) Hblocks); [| |lia].
    + unfold block. destruct j as [|j]; [lia|].
      change ((?x :: ?l) !! S j) with (l !! j).
      rewrite list_lookup_fmap, lookup_seq_lt by lia. reflexivity.
    + rewrite list_lookup_fmap, lookup_take_lt by lia. rewrite Hi. reflexivity.
Qed.

(** X16. With years between [-2^53] and [2^53] and at most [2^53]
    frames per year, [create_smooth_animation] raises, before a frame is
    drawn, IndexError on an empty list of years, KeyError on an empty
    unified table, and nothing else.  Otherwise it prepares
    [(len(years) - 1) * max(1, frames_per_year) + 1] frame years, with as
    many frame tables, and the frame at position
    [i * max(1, frames_per_year)] is the integer year [years[i]] and holds
    the rows of the unified table of that year. *)
Theorem animation_frame_count years unified_df top_n frames_per_year :
  Forall (λ y, - 2 ^ 53 <= y <= 2 ^ 53) years →
  Z.of_nat frames_per_year <= 2 ^ 53 →
  match Chart.create_smooth_animation years unified_df top_n frames_per_year
  with
  | inl e =>
      (years = [] ∧ e = IndexError) ∨
      (years ≠ [] ∧ unified_df = [] ∧ e = KeyError "year")
  | inr a =>
      years ≠ [] ∧ unified_df ≠ [] ∧
      length (Chart.frame_years a)
        = ((length years - 1) * (1 `max` frames_per_year) + 1)%nat ∧
      length (Chart.interpolated_data a) = length (Chart.frame_years a) ∧
      ∀ i year,
        years !! i = Some year →
        Chart.frame_years a !! (i * (1 `max` frames_per_year))%nat
          = Some (Chart.PyInt year) ∧
        Chart.interpolated_data a !! (i * (1 `max` frames_per_year))%nat
          = Some (filter (λ r, Chart.Unified.year r = year) unified_df)
  end.
Proof.
  intros _ _.
  destruct years as [|y0 years'] eqn:Hyears.
  { left. split; reflexivity. }
  rewrite <- Hyears. assert (years ≠ []) as Hne by (rewrite Hyears; discriminate).
  clear Hyears.
  destruct (all_years_frames years frames_per_year Hne)
    as (ys & Hys & Hlen & Hint & _).
  unfold Chart.create_smooth_animation. rewrite Hys.
  destruct unified_df as [|r0 rs] eqn:Hu.
  { right. done. }
  rewrite <- Hu. assert (unified_df ≠ []) as Hune by (rewrite Hu; discriminate).
  clear Hu.
  cbn [Chart.frame_years Chart.interpolated_data].
  split; [exact Hne|]. split; [exact Hune|]. split; [exact Hlen|].
  split; [apply length_fmap|].
  intros i year Hi. specialize (Hint i year Hi).
  split; [exact Hint|].
  rewrite list_lookup_fmap, Hint. cbn [fmap option_fmap option_map]. f_equal.
  unfold Chart.interpolated_frame. rewrite year_in_int.
  - apply rows_of_year_filter.
  - eapply list_elem_of_lookup_2. exact Hi.
Qed.

Lemma round53_int z :
  0 < z <= 2 ^ 53 → (round53 (inject_Z z) == inject_Z z)%Q.
Proof.
  intros Hz. apply (round53_exact _ z 0); [exact Hz|].
  change (Qpower 2 0) with 1%Q. ring.
Qed.

(** An interpolated frame year lies strictly between its year and the
    next. *)
Lemma frame_year_between year j frames_per_year :
  0 < year <= 2 ^ 31 → 1 <= j < frames_per_year → frames_per_year <= 2 ^ 20 →
  ∃ q, fadd (of_int year)
         (fmul (of_int j) (fdiv (Fin 1) (of_int frames_per_year))) = Fin q ∧
       (inject_Z year < q)%Q ∧ (q < inject_Z year + 1)%Q.
Proof.
  intros Hyear Hj Hfpy. unfold of_int, fdiv.
  assert (0 < frames_per_year) as Hf0 by lia.
  rewrite (Qeq_bool_pos_false _ (round53_pos _ (inject_Z_pos _ Hf0))).
  cbn [fmul fadd]. eexists. split; [reflexivity|].
  pose proof (round53_int year ltac:(lia)) as Ha.
  pose proof (round53_int j ltac:(lia)) as Hjj.
  pose proof (round53_int frames_per_year ltac:(lia)) as Hd0.
  set (a := round53 (inject_Z year)) in *.
  set (jj := round53 (inject_Z j)) in *.
  set (d0 := round53 (inject_Z frames_per_year)) in *.
  set (Y := inject_Z year) in *. set (J := inject_Z j) in *.
  set (F := inject_Z frames_per_year) in *.
  assert (1 <= Y)%Q as HY1
    by (unfold Y; change 1%Q with (inject_Z 1); rewrite <- Zle_Qle; lia).
  assert (Y <= 2147483648)%Q as HY2
    by (unfold Y; change 2147483648%Q with (inject_Z (2 ^ 31));
        rewrite <- Zle_Qle; lia).
  assert (1 <= J)%Q as HJ1
    by (unfold J; change 1%Q with (inject_Z 1); rewrite <- Zle_Qle; lia).
  assert (J <= F - 1)%Q as HJ2.
  { unfold J, F. change 1%Q with (inject_Z 1).
    unfold Qminus. rewrite <- inject_Z_opp, <- inject_Z_plus, <- Zle_Qle.
    lia. }
  assert (F <= 1048576)%Q as HF
    by (unfold F; change 1048576%Q with (inject_Z (2 ^ 20));
        rewrite <- Zle_Qle; lia).
  clearbody a jj d0 Y J F. clear Hyear Hj Hfpy Hf0.
  assert (0 < F)%Q as HF0 by lra.
  set (invF := (1 / F)%Q).
  assert (invF * F == 1)%Q as HinvF by (unfold invF; field; lra).
  assert (0 < invF)%Q as HinvF0
    by (unfold invF; apply Qlt_shift_div_l; lra).
  assert (1 # 1048576 <= invF)%Q as HinvF1 by nra.
  set (x := (J * invF)%Q).
  assert (1 # 1048576 <= x)%Q as Hx1 by (unfold x; nra).
  assert (x <= 1 - (1 # 1048576))%Q as Hx2 by (unfold x; nra).
  assert (1 / d0 == invF)%Q as Hinv by (unfold invF; rewrite Hd0; reflexivity).
  assert (0 < 1 / d0)%Q as Hinv0 by (rewrite Hinv; exact HinvF0).
  pose proof (round53_rel _ Hinv0) as [Hd1 Hd2].
  pose proof (round53_pos _ Hinv0) as Hd0'.
  set (d := round53 (1 / d0)) in *. clearbody d.
  rewrite Hinv in Hd1, Hd2. clear Hinv Hinv0 Hd0 d0.
  assert (0 < jj * d)%Q as Hjd0 by (rewrite Hjj; nra).
  pose proof (round53_rel _ Hjd0) as [Ht1 Ht2].
  set (t := round53 (jj * d)) in *. clearbody t.
  assert ((1 - ulp_half) * x <= jj * d)%Q as Hjd1
    by (rewrite Hjj; unfold x, ulp_half in *; nra).
  assert (jj * d <= (1 + ulp_half) * x)%Q as Hjd2
    by (rewrite Hjj; unfold x, ulp_half in *; nra).
  generalize dependent (jj * d)%Q. intros jd Hjd0 Ht1 Ht2 Hjd1 Hjd2.
  clearbody x. clear HinvF HinvF0 HinvF1 Hd1 Hd2 Hd0' d Hjj jj HJ1 HJ2 J invF
    HF HF0 F.
  assert (0 < a + t)%Q as Hat0 by (rewrite Ha; unfold ulp_half in *; lra).
  pose proof (round53_rel _ Hat0) as [Hq1 Hq2].
  set (q := round53 (a + t)) in *. clearbody q.
  rewrite Ha in Hq1, Hq2. clear Ha Hat0 a.
  unfold ulp_half in *. split; lra.
Qed.

(** X17. With years between 1 and [2^31] and at most [2^20] frames per
    year, the frame at position [i * frames_per_year + j],
    [1 <= j < frames_per_year], is a finite float strictly between
    [years[i]] and [years[i] + 1]: it equals no element of [years], and
    [int] of it, which the frame is built from and which the title shows,
    is [years[i]]. *)
Theorem fractional_frame_lies_between_years
    years unified_df top_n frames_per_year a i j year :
  Chart.create_smooth_animation years unified_df top_n frames_per_year = inr a →
  years !! i = Some year → (S i < length years)%nat →
  (1 ≤ j < frames_per_year)%nat →
  0 < year <= 2 ^ 31 → Z.of_nat frames_per_year <= 2 ^ 20 →
  ∃ q,
    Chart.frame_years a !! (i * frames_per_year + j)%nat
      = Some (Chart.PyFloat (Fin q)) ∧
    (inject_Z year < q)%Q ∧ (q < inject_Z year + 1)%Q ∧
    Chart.py_int (Chart.PyFloat (Fin q)) = year ∧
    Chart.year_in (Chart.PyFloat (Fin q)) years = false.
Proof.
  intros Ha Hi Hlt Hj Hyear Hfpy.
  destruct (create_smooth_animation_inr _ _ _ _ _ Ha) as (Hys & _ & _).
  destruct (all_years_frames years frames_per_year) as (ys & Hys' & _ & _ & Hfloat).
  { intros ->. discriminate. }
  rewrite Hys in Hys'. injection Hys' as <-.
  specialize (Hfloat i j year Hi Hlt Hj).
  destruct (frame_year_between year (Z.of_nat j) (Z.of_nat frames_per_year))
    as (q & Hq & Hq1 & Hq2); [exact Hyear|lia|exact Hfpy|].
  rewrite Hq in Hfloat. exists q. split; [exact Hfloat|].
  split; [exact Hq1|]. split; [exact Hq2|].
  assert (0 < inject_Z year)%Q as HY by (apply inject_Z_pos; lia).
  assert (Qfloor q = year) as Hfloor.
  { pose proof (Qfloor_le q) as H1.
    assert (year <= Qfloor q) as H2.
    { rewrite <- (Qfloor_Z year). apply Qfloor_resp_le, Qlt_le_weak, Hq1. }
    assert (Qfloor q < year + 1) as H3.
    { rewrite Zlt_Qlt, inject_Z_plus. change (inject_Z 1) with 1%Q. lra. }
    lia. }
  split; [rewrite py_int_floor by lra; exact Hfloor|].
  apply year_in_fractional. rewrite Hfloor. exact Hq1.
Qed.

Global Instance porcent_desc_total : Total Chart.porcent_desc.
Proof.
  intros r1 r2. unfold Chart.porcent_desc, Chart.porcent_geb, fge.
  destruct (Chart.Unified.porcent r1) as [x| | |],
           (Chart.Unified.porcent r2) as [y| | |]; auto.
  destruct (Qle_bool y x) eqn:E; [auto|]. right.
  apply Qle_bool_iff. destruct (Qlt_le_dec x y) as [H|H].
  - apply Qlt_le_weak, H.
  - apply Qle_bool_iff in H. congruence.
Qed.

Global Instance porcent_desc_trans : Transitive Chart.porcent_desc.
Proof.
  intros r1 r2 r3. unfold Chart.porcent_desc, Chart.porcent_geb, fge.
  destruct (Chart.Unified.porcent r1) as [x| | |],
           (Chart.Unified.porcent r2) as [y| | |],
           (Chart.Unified.porcent r3) as [z| | |];
    try discriminate; try reflexivity.
  rewrite !Qle_bool_iff. intros H1 H2. exact (Qle_trans _ _ _ H2 H1).
Qed.



(* ===================================================================== *)
(** ** Further properties: what the results depend on *)
(* ===================================================================== *)

Lemma csv_year_step_tables_local fs fs' legend_data legend_data' year :
  fs !! str_format Csv.base_raster_path year
    = fs' !! str_format Csv.base_raster_path year →
  (Csv.year_step fs legend_data ([], []) year).1 =
  (Csv.year_step fs' legend_data' ([], []) year).1.
Proof.
  intros Hfile.
  unfold Csv.year_step, path_exists, Csv.process_raster_for_csv, rasterio_read1.
  rewrite Hfile.
  destruct (fs' !! str_format Csv.base_raster_path year) as [[rd| |]|].
  - rewrite bool_decide_eq_true_2 by eauto. cbn [negb].
    destruct (np_unique (concat rd)). reflexivity.
  - rewrite bool_decide_eq_true_2 by eauto. reflexivity.
  - rewrite bool_decide_eq_true_2 by eauto. reflexivity.
  - rewrite bool_decide_eq_false_2 by (intros [? [=]]). reflexivity.
Qed.

(** X19. The table and the file of the CSV script depend on nothing but
    the rasters of the forty paths of the range: two disks that agree on
    these paths give the same table and the same file, whatever their legend
    files and other contents are. *)
Theorem csv_depends_only_on_rasters fs fs' :
  (∀ year, (1985 <= year < 2025) →
           fs !! str_format Csv.base_raster_path year
             = fs' !! str_format Csv.base_raster_path year) →
  Csv.final_df (Csv.main fs) = Csv.final_df (Csv.main fs') ∧
  Csv.csv_file (Csv.main fs) = Csv.csv_file (Csv.main fs').
Proof.
  intros Hsame. rewrite !csv_main_unfold. cbv zeta.
  assert (mjoin ((λ y, (Csv.year_step fs (Csv.load_legend fs Csv.json_path).1
                          ([], []) y).1) <$> Csv.years) =
          mjoin ((λ y, (Csv.year_step fs' (Csv.load_legend fs' Csv.json_path).1
                          ([], []) y).1) <$> Csv.years)) as ->.
  { f_equal. apply list_fmap_ext. intros i y Hy.
    apply csv_year_step_tables_local, Hsame, elem_of_csv_years.
    eapply list_elem_of_lookup_2. exact Hy. }
  set (tables := mjoin _). clearbody tables.
  destruct tables; split; reflexivity.
Qed.

(* ===================================================================== *)
(** ** Further properties: accuracy of the interpolation *)
(* ===================================================================== *)

Lemma near_round_nonneg x : (0 <= x)%Q → near 1 x (round53 x).
Proof.
  intros Hx. apply Qle_lt_or_eq in Hx as [Hx|Hx]; [exact (near_round x Hx)|].
  symmetry in Hx. rewrite (round53_0 x Hx).
  apply (near_eq 1 0 x 0 0); [symmetry; exact Hx|reflexivity|].
  unfold near. cbn. split; lra.
Qed.

(** The interpolation [prev * (1 - alpha) + next * alpha] in floating
    point, for non-negative values and a weight between 0 and 1. *)
Lemma interpolate_near p n al :
  (0 <= p)%Q → (0 <= n)%Q → (0 < al)%Q → (al < 1)%Q →
  ∃ v, fadd (fmul (Fin p) (fsub (of_int 1) (Fin al))) (fmul (Fin n) (Fin al))
         = Fin v ∧
       near 3 (p * (1 - al) + n * al) v.
Proof.
  intros Hp Hn Hal0 Hal1. unfold of_int, fsub, fopp.
  cbn [fadd fmul]. eexists. split; [reflexivity|].
  pose proof (round53_int 1 ltac:(lia)) as Hone.
  set (one := round53 (inject_Z 1)) in *. clearbody one.
  change (inject_Z 1) with 1%Q in Hone.
  assert (near 1 (1 - al) (round53 (one + - al))) as Hw.
  { apply (near_eq 1 (one + - al) _ (round53 (one + - al)) _);
      [rewrite Hone; ring|reflexivity|].
    apply near_round. rewrite Hone. lra. }
  set (w := round53 (one + - al)) in *. clearbody w.
  assert (0 <= 1 - al)%Q as Hal' by lra.
  pose proof (near_nonneg _ _ _ Hal' Hw) as Hw0.
  assert (near 2 (p * (1 - al)) (round53 (p * w))) as HA.
  { apply (near_trans 1 1 _ (p * w)); [nra| |apply near_round_nonneg; nra].
    apply (near_mul 0 1); [exact Hp|exact Hal'|apply near_0|exact Hw]. }
  assert (near 2 (n * al) (round53 (n * al))) as HB.
  { apply (near_le 1 2); [lia|nra|apply near_round_nonneg; nra]. }
  set (A := round53 (p * w)) in *. set (B := round53 (n * al)) in *.
  clearbody A B.
  assert (0 <= p * (1 - al))%Q as HA0 by nra.
  assert (0 <= n * al)%Q as HB0 by nra.
  pose proof (near_nonneg _ _ _ HA0 HA) as HA1.
  pose proof (near_nonneg _ _ _ HB0 HB) as HB1.
  apply (near_trans 2 1 _ (A + B)); [lra| |apply near_round_nonneg; lra].
  apply near_add; assumption.
Qed.

(** X20. In a frame with a fractional year [q >= 1], when every
    percentage of the unified table is 0 or lies between [2^-64] and [2^64]
    (as percentages of pixel counts do), the percentage of a row whose
    class has a row in the next year is the linear interpolation
    [prev * (1 - alpha) + next * alpha], [alpha = q - floor(q)], of the
    percentages of the floor year and of the next year up to a relative
    error of [1e-15].  All the floats involved are zero or in the normal
    range of binary64. *)
Theorem interpolation_is_accurate
    years unified_df top_n frames_per_year a k q :
  Chart.create_smooth_animation years unified_df top_n frames_per_year = inr a →
  Chart.frame_years a !! k = Some (Chart.PyFloat (Fin q)) →
  (1 <= q)%Q → (inject_Z (Qfloor q) < q)%Q →
  Forall (λ r, ∃ p, Chart.Unified.porcent r = Fin p ∧
                    (p == 0 ∨ (1 # 18446744073709551616) <= p ∧
                              p <= 18446744073709551616)%Q) unified_df →
  ∃ frame,
    Chart.interpolated_data a !! k = Some frame ∧
    Forall2
      (λ row prev,
         Chart.Unified.classe row = Chart.Unified.classe prev ∧
         ∀ next,
           head (filter (λ r, Chart.Unified.year r = Qfloor q + 1 ∧
                              Chart.Unified.classe r =
                                Chart.Unified.classe prev) unified_df)
             = Some next →
           ∃ v p n,
             Chart.Unified.porcent row = Fin v ∧
             Chart.Unified.porcent prev = Fin p ∧
             Chart.Unified.porcent next = Fin n ∧
             let alpha := (q - inject_Z (Qfloor q))%Q in
             let exact := (p * (1 - alpha) + n * alpha)%Q in
             (Qabs (v - exact) <= (1 # 1000000000000000) * exact)%Q)
      frame
      (filter (λ r, Chart.Unified.year r = Qfloor q) unified_df).
Proof.
  intros Ha Hk Hq1 Hfrac Hunified.
  assert (0 <= q)%Q as Hq by lra.
  assert (∀ r, r ∈ unified_df →
               ∃ p, Chart.Unified.porcent r = Fin p ∧ (0 <= p)%Q) as Hpos.
  { rewrite Forall_forall in Hunified. intros r Hr.
    destruct (Hunified r Hr) as (p & Hp & [H0|[Hlo _]]); exists p;
      (split; [exact Hp|]); [rewrite H0|]; lra. }
  clear Hunified.
  destruct (create_smooth_animation_inr _ _ _ _ _ Ha) as (Hys & Hdata & _).
  rewrite Hdata, list_lookup_fmap, Hk. cbn [fmap option_fmap option_map].
  eexists. split; [reflexivity|].
  unfold Chart.interpolated_frame.
  rewrite (year_in_fractional _ _ Hfrac), (py_int_floor q Hq). cbv zeta.
  cbn [Chart.py_sub_int Chart.py_int_sub Chart.to_float].
  (* the weight is the fractional part of [q], exactly *)
  destruct (all_years_float _ _ _ _ Hys (list_elem_of_lookup_2 _ _ _ Hk))
    as (y & [= Hy]).
  assert (0 < q)%Q as Hqpos by lra.
  pose proof (fractional_part_exact y) as Hex. cbv zeta in Hex.
  rewrite <- Hy in Hex. destruct (Hex Hqpos Hfrac) as [_ Halpha]. clear Hex.
  assert (q < inject_Z (Qfloor q) + 1)%Q as Hlt.
  { pose proof (Qlt_floor q) as H. rewrite inject_Z_plus in H.
    change (inject_Z 1) with 1%Q in H. exact H. }
  change (fsub (Fin q) (of_int (Qfloor q)))
    with (Fin (round53 (q + - round53 (inject_Z (Qfloor q))))).
  set (al := round53 (q + - round53 (inject_Z (Qfloor q)))) in *.
  clearbody al.
  rewrite (rows_of_year_filter unified_df (Qfloor q)).
  apply Forall2_fmap_l, Forall_Forall2_diag, Forall_forall.
  intros prev Hprev. cbv beta delta [compose]. rewrite next_val_head.
  destruct (head _) as [nx|] eqn:Hhead; cbn [fmap option_fmap option_map];
    [|split; [reflexivity|discriminate]].
  split; [reflexivity|]. intros next [= <-].
  apply list_elem_of_filter in Hprev as [_ Hprev].
  destruct (Hpos prev Hprev) as (p & Hp & Hp0).
  assert (nx ∈ unified_df) as Hnx.
  { apply head_Some in Hhead as (l & Hl).
    assert (nx ∈ filter (λ r, Chart.Unified.year r = Qfloor q + 1 ∧
                              Chart.Unified.classe r =
                                Chart.Unified.classe prev) unified_df) as H
      by (rewrite Hl; apply list_elem_of_here).
    apply list_elem_of_filter in H. tauto. }
  destruct (Hpos nx Hnx) as (n & Hn & Hn0).
  destruct (interpolate_near p n al Hp0 Hn0) as (v & Hv & Hnear);
    [rewrite Halpha; lra|rewrite Halpha; lra|].
  exists v, p, n. cbn [Chart.with_porcent Chart.Unified.porcent].
  rewrite Hp, Hn. split; [exact Hv|]. split; [reflexivity|].
  split; [reflexivity|]. cbv zeta.
  assert (0 <= p * (1 - al) + n * al)%Q as Hexact by (rewrite Halpha; nra).
  pose proof (near_4_tight _ _ Hexact
                (near_le 3 4 _ _ ltac:(lia) Hexact Hnear)) as Htight.
  rewrite Halpha in Htight. exact Htight.
Qed.

(* ===================================================================== *)
(** ** Further properties: the console of the CSV script *)
(* ===================================================================== *)

Lemma processed_years_none out :
  (∀ y, ProcessandoAno y ∉ out) → processed_years out = [].
Proof.
  intros Hout. destruct (processed_years out) as [|y l] eqn:E; [reflexivity|].
  exfalso. apply (Hout y), elem_of_processed_years. rewrite E.
  apply list_elem_of_here.
Qed.

Lemma csv_year_step_processed fs legend_data year :
  processed_years (Csv.year_step fs legend_data ([], []) year).2 =
  if path_exists fs (str_format Csv.base_raster_path year) then [year] else [].
Proof.
  unfold Csv.year_step.
  destruct (path_exists fs _); cbn [negb]; [|reflexivity].
  destruct (Csv.process_raster_for_csv _ _ _ _); reflexivity.
Qed.

Lemma processed_years_join {A} (msgs : A → list msg) (l : list A) :
  processed_years (mjoin (msgs <$> l)) =
  mjoin ((λ x, processed_years (msgs x)) <$> l).
Proof.
  induction l as [|x l IH]; [reflexivity|].
  rewrite !fmap_cons, !mjoin_cons. unfold processed_years at 1.
  rewrite omap_app. fold (processed_years (msgs x)).
  fold (processed_years (mjoin (msgs <$> l))). rewrite IH. reflexivity.
Qed.

Lemma join_singletons_filter {A} (P : A → bool) (l : list A) :
  mjoin ((λ x, if P x then [x] else []) <$> l) = List.filter P l.
Proof.
  induction l as [|x l IH]; [reflexivity|].
  rewrite fmap_cons, mjoin_cons, IH. cbn [List.filter].
  destruct (P x); reflexivity.
Qed.

(** X21. The CSV script announces, in ascending order, exactly the years
    of the range whose raster path exists, each once, whether or not the
    file can then be read. *)
Theorem csv_console_lists_existing_years fs :
  processed_years (Csv.stdout (Csv.main fs)) =
  List.filter (λ year, path_exists fs (str_format Csv.base_raster_path year))
              Csv.years.
Proof.
  destruct (csv_stdout fs) as (closing & -> & Hclosing).
  unfold processed_years at 1. rewrite !omap_app.
  fold (processed_years (Csv.load_legend fs Csv.json_path).2).
  fold (processed_years closing).
  rewrite (processed_years_none _ (csv_load_legend_out fs)).
  rewrite (processed_years_none _ Hclosing), app_nil_r, app_nil_l.
  match goal with
  | |- omap ?f ?l = _ => change (omap f l) with (processed_years l)
  end.
  rewrite processed_years_join.
  rewrite <- join_singletons_filter. f_equal. apply list_fmap_ext.
  intros i y _. apply csv_year_step_processed.
Qed.

(* ===================================================================== *)
(** ** The further properties at sample inputs *)
(* ===================================================================== *)

(** Case analysis on a year of the range, given [H : 1985 <= year < 2025]. *)
Ltac each_year_of_range H :=
  apply elem_of_csv_years in H;
  let l := eval vm_compute in Csv.years in
  change Csv.years with l in H;
  repeat (apply elem_of_cons in H as [->|H]);
  [..|exfalso; exact (not_elem_of_nil _ H)].

(** X1 on the raster [0,0,3 / 3,3,4]. *)
Lemma year_table_one_row_per_class_witness :
  let raster_data := [[0; 0; 3]; [3; 3; 4]] in
  ∃ csv_table chart_table,
    Csv.process_raster_for_csv disk_scenario
      (str_format Csv.base_raster_path 1990) 1990 legend_forest
      = inr csv_table ∧
    Chart.read_raster_and_get_value_counts disk_scenario
      (str_format Csv.base_raster_path 1990) legend_forest
      = inr chart_table ∧
    NoDup (Csv.classe <$> csv_table) ∧
    NoDup (Chart.classe <$> chart_table) ∧
    (∀ v, v ∈ Csv.classe <$> csv_table ↔ v ∈ concat raster_data ∧ v ≠ 0) ∧
    (∀ v, v ∈ Chart.classe <$> chart_table ↔ v ∈ concat raster_data ∧ v ≠ 0) ∧
    Forall (λ r, Csv.ano r = 1990 ∧
                 Csv.num_px r
                   = Z.of_nat (length (filter (λ x, x = Csv.classe r)
                                              (concat raster_data))))
           csv_table ∧
    Forall (λ r, Chart.cont_px r
                   = Z.of_nat (length (filter (λ x, x = Chart.classe r)
                                              (concat raster_data))))
           chart_table.
Proof.
  intros raster_data.
  apply (year_table_has_one_row_per_class disk_scenario
           (str_format Csv.base_raster_path 1990) 1990 legend_forest
           raster_data).
  vm_compute. reflexivity.
Defined.

(** X4 on the same raster. *)
Lemma percentages_are_accurate_witness :
  let raster_path := str_format Csv.base_raster_path 1990 in
  let total := Z.of_nat (length (valid_pixels (concat [[0; 0; 3]; [3; 3; 4]]))) in
  (∀ df r,
     Csv.process_raster_for_csv disk_scenario raster_path 1990 legend_forest
       = inr df →
     r ∈ df →
     0 < Csv.num_px r <= total ∧
     ∃ p, Csv.porc_rel r = Fin p ∧ (0 < p)%Q ∧
          (Qabs (p - 100 * (inject_Z (Csv.num_px r) / inject_Z total))
           <= (1 # 1000000000000000)
              * (100 * (inject_Z (Csv.num_px r) / inject_Z total)))%Q) ∧
  (∀ df r,
     Chart.read_raster_and_get_value_counts disk_scenario raster_path
       legend_forest = inr df →
     r ∈ df →
     0 < Chart.cont_px r <= total ∧
     ∃ p, Chart.porcent r = Fin p ∧ (0 < p)%Q ∧
          (Qabs (p - 100 * (inject_Z (Chart.cont_px r) / inject_Z total))
           <= (1 # 1000000000000000)
              * (100 * (inject_Z (Chart.cont_px r) / inject_Z total)))%Q).
Proof.
  intros raster_path total.
  apply (percentages_are_accurate disk_scenario raster_path 1990 legend_forest
           [[0; 0; 3]; [3; 3; 4]]).
  vm_compute. reflexivity.
Defined.

(** X5 on the sample disk: class 3 is in the legend. *)
Lemma legend_entry_is_joined_witness :
  ∃ df r,
    Chart.read_raster_and_get_value_counts disk_scenario
      (str_format Chart.base_raster_path 1985) legend_forest = inr df ∧
    r ∈ df ∧ Chart.classe r = 3 ∧
    Chart.nome_pt r = "Forest"%string ∧ Chart.cor_hex r = "#006400"%string.
Proof.
  eexists _, _. split; [vm_compute; reflexivity|].
  split; [apply list_elem_of_here|]. split; [reflexivity|].
  eapply (legend_entry_is_joined disk_scenario
            (str_format Chart.base_raster_path 1985) legend_forest _ _
            {| PT := "Forest"; HEX_COL := "#006400" |}).
  - vm_compute. reflexivity.
  - apply list_elem_of_here.
  - vm_compute. reflexivity.
Defined.

(** X7: the CSV raster of 1991 is no raster, that of 1990 is. *)
Lemma csv_unreadable_raster_witness :
  ProcessandoAno 1991 ∈ Csv.stdout (Csv.main disk_unreadable) ∧
  ErroAoProcessar 1991 (RasterioIOError (str_format Csv.base_raster_path 1991))
    ∈ Csv.stdout (Csv.main disk_unreadable) ∧
  (∀ df r, Csv.final_df (Csv.main disk_unreadable) = Some df → r ∈ df →
           Csv.ano r ≠ 1991) ∧
  (ProcessandoAno 1990 ∈ Csv.stdout (Csv.main disk_unreadable) ∧
   ∃ df table,
     Csv.final_df (Csv.main disk_unreadable) = Some df ∧
     Csv.process_raster_for_csv disk_unreadable
       (str_format Csv.base_raster_path 1990) 1990
       (Csv.load_legend disk_unreadable Csv.json_path).1 = inr table ∧
     ∀ r, r ∈ table → r ∈ df).
Proof.
  destruct (csv_unreadable_raster_is_caught disk_unreadable 1991 Garbage)
    as (H1 & H2 & H3 & H4).
  - lia.
  - vm_compute. reflexivity.
  - discriminate.
  - split; [exact H1|]. split; [exact H2|]. split; [exact H3|].
    apply (H4 1990 [[0; 0; 3]; [3; 3; 4]]); [lia|vm_compute; reflexivity].
Defined.


(** X9 on the sample disk: four valid pixels, two classes. *)
Lemma csv_console_totals_witness :
  AnoProcessado 1990 4 ∈ Csv.stdout (Csv.main disk_scenario) ∧
  NumeroDeClasses 2 ∈ Csv.stdout (Csv.main disk_scenario).
Proof.
  apply (csv_console_reports_totals disk_scenario 1990 [[0; 0; 3]; [3; 3; 4]]).
  - lia.
  - vm_compute. reflexivity.
Defined.

(** X10: the chart raster of 1986 is no raster, that of 1985 is. *)
Lemma chart_unreadable_raster_witness :
  Chart.outcome (Chart.main disk_unreadable)
    = inl (RasterioIOError (str_format Chart.base_raster_path 1986)) ∧
  Chart.unified_df (Chart.main disk_unreadable) = [] ∧
  last (Chart.stdout (Chart.main disk_unreadable))
    = Some (ProcessandoAno 1986) ∧
  (∀ year', 1986 < year' →
            ProcessandoAno year' ∉ Chart.stdout (Chart.main disk_unreadable)) ∧
  Chart.tables (Chart.main disk_unreadable) =
    omap (λ y, match Chart.read_raster_and_get_value_counts disk_unreadable
                       (str_format Chart.base_raster_path y)
                       (Chart.load_legend disk_unreadable Chart.json_path).1
               with
               | inr df => Some df
               | inl _ => None
               end)
         (take (Z.to_nat (1986 - 1985)) Chart.years).
Proof.
  apply (chart_unreadable_raster_aborts disk_unreadable 1986 Garbage).
  - lia.
  - vm_compute. reflexivity.
  - discriminate.
  - intros year' file' Hrange Hfile.
    assert (year' = 1985) as -> by lia.
    vm_compute in Hfile. injection Hfile as <-. eauto.
Defined.

(** X11 on the sample disk: rasters of 1985 and 1986, no other file at a
    raster path. *)
Lemma chart_tables_witness :
  Chart.tables (Chart.main disk_scenario) =
    omap (λ y, match disk_scenario !! str_format Chart.base_raster_path y with
               | Some (RasterFile raster_data) =>
                   Some (Chart.sort_by_cont_px
                           (chart_rows
                              (Chart.load_legend disk_scenario
                                 Chart.json_path).1
                              (concat raster_data)))
               | _ => None
               end) Chart.years ∧
  Chart.unified_df (Chart.main disk_scenario) =
    Chart.create_unified_dataframe (Chart.tables (Chart.main disk_scenario))
      Chart.years 5 ∧
  Chart.outcome (Chart.main disk_scenario) =
    Chart.create_smooth_animation Chart.years
      (Chart.unified_df (Chart.main disk_scenario)) 5 10.
Proof.
  apply (chart_tables_are_the_readable_years disk_scenario).
  intros year file Hrange. each_year_of_range Hrange;
    intros Hfile; vm_compute in Hfile;
    first [discriminate Hfile | injection Hfile as <-; eauto].
Defined.

(** X12: the only raster holds zeros only. *)
Lemma chart_without_valid_pixels_witness :
  Forall (λ df, df = []) (Chart.tables (Chart.main disk_blank_1990)) ∧
  Chart.unified_df (Chart.main disk_blank_1990) = [] ∧
  Chart.outcome (Chart.main disk_blank_1990) = inl (KeyError "year").
Proof.
  apply (chart_without_valid_pixels_raises_key_error disk_blank_1990).
  intros year Hrange. each_year_of_range Hrange;
    first [ left; vm_compute; reflexivity
          | right; exists [[0; 0]]; split; [vm_compute; reflexivity|];
            intros x Hx; cbn in Hx;
            repeat (apply elem_of_cons in Hx as [Hx|Hx]; [exact Hx|]);
            exfalso; exact (not_elem_of_nil _ Hx) ].
Defined.

(** X13 on the sample disk: class 3 in 1986, the second year. *)
Lemma unified_table_labels_witness :
  ∃ r,
    filter (λ r, Chart.Unified.year r = 1986 ∧ Chart.Unified.classe r = 3)
           (Chart.unified_df (Chart.main disk_scenario)) = [r] ∧
    Chart.Unified.porcent r = percent_of 1 4 ∧
    Chart.Unified.nome_pt r = "Forest"%string ∧
    Chart.Unified.cor_hex r = "#006400"%string.
Proof.
  destruct (unified_table_labels_unbroken_years disk_scenario 1986
              [[3; 4]; [4; 4]] 3) as (r & Hr & Hin & _).
  - intros year file Hrange. each_year_of_range Hrange;
      intros Hfile; vm_compute in Hfile;
      first [discriminate Hfile | injection Hfile as <-; eauto].
  - intros year' Hrange. assert (year' = 1985) as -> by lia.
    vm_compute. eauto.
  - lia.
  - vm_compute. reflexivity.
  - apply elem_of_all_classes. eexists. split; [apply list_elem_of_here|].
    vm_compute. apply list_elem_of_here.
  - exists r. split; [exact Hr|]. apply Hin.
    cbn. apply list_elem_of_here.
Defined.

(** X15 on the tables of the sample disk with [top_n = 1]: class 4 in
    1985 is not the first class of that year and gets rank 2. *)
Lemma unified_rank_witness :
  let dataframes := Chart.tables (Chart.main disk_scenario) in
  ∃ r,
    r ∈ Chart.create_unified_dataframe dataframes [1985; 1986] 1 ∧
    Chart.Unified.year r = 1985 ∧ Chart.Unified.classe r = 4 ∧
    ∃ i df,
      [1985; 1986] !! i = Some (Chart.Unified.year r) ∧
      dataframes !! i = Some df ∧
      1 <= Chart.Unified.rank r <= Z.of_nat 1 + 1 ∧
      (Chart.Unified.rank r = Z.of_nat 1 + 1 ↔
       Chart.Unified.classe r ∉ Chart.classe <$> take 1 df) ∧
      ∀ k : nat,
        Chart.Unified.rank r = Z.of_nat k + 1 → (k < 1)%nat →
        (Chart.classe <$> df) !! k = Some (Chart.Unified.classe r) ∧
        ∀ j, (j < k)%nat →
             (Chart.classe <$> df) !! j ≠ Some (Chart.Unified.classe r).
Proof.
  intros dataframes.
  assert (∃ r, r ∈ Chart.create_unified_dataframe dataframes [1985; 1986] 1 ∧
               Chart.Unified.year r = 1985 ∧ Chart.Unified.classe r = 4)
    as (r & Hr & Hy & Hc).
  { eexists. split; [|split].
    - apply list_elem_of_In. vm_compute. right. left. reflexivity.
    - reflexivity.
    - reflexivity. }
  exists r. split; [exact Hr|]. split; [exact Hy|]. split; [exact Hc|].
  exact (unified_rank_is_position dataframes [1985; 1986] 1 r Hr).
Defined.

(** X16 on the frames of [years = [1985, 1986]] with two frames per
    year: three frames, the integer years at positions 0 and 2. *)
Lemma animation_frame_count_witness :
  let unified := Chart.unified_df (Chart.main disk_scenario) in
  ∃ a,
    Chart.create_smooth_animation [1985; 1986] unified 1 2 = inr a ∧
    length (Chart.frame_years a) = 3%nat ∧
    length (Chart.interpolated_data a) = length (Chart.frame_years a) ∧
    Chart.frame_years a !! 2%nat = Some (Chart.PyInt 1986) ∧
    Chart.interpolated_data a !! 2%nat
      = Some (filter (λ r, Chart.Unified.year r = 1986) unified).
Proof.
  intros unified.
  pose proof (animation_frame_count [1985; 1986] unified 1 2) as H.
  destruct (Chart.create_smooth_animation [1985; 1986] unified 1 2)
    as [e|a] eqn:Ha; [vm_compute in Ha; discriminate Ha|].
  exists a. split; [reflexivity|].
  destruct H as (_ & _ & Hlen & Hdata & Hyears).
  - repeat (apply Forall_cons; split; [lia|]). apply Forall_nil_2.
  - cbn. lia.
  - split; [exact Hlen|]. split; [exact Hdata|].
    exact (Hyears 1%nat 1986 eq_refl).
Defined.

(** X17 on the same frames: the frame 1985.5. *)
Lemma fractional_frame_between_witness :
  let unified := Chart.unified_df (Chart.main disk_scenario) in
  ∃ a q,
    Chart.create_smooth_animation [1985; 1986] unified 1 2 = inr a ∧
    Chart.frame_years a !! (0 * 2 + 1)%nat = Some (Chart.PyFloat (Fin q)) ∧
    (inject_Z 1985 < q)%Q ∧ (q < inject_Z 1985 + 1)%Q ∧
    Chart.py_int (Chart.PyFloat (Fin q)) = 1985 ∧
    Chart.year_in (Chart.PyFloat (Fin q)) [1985; 1986] = false.
Proof.
  intros unified. eexists.
  match goal with
  | |- ∃ q, Chart.create_smooth_animation ?ys ?u ?n ?f = inr ?a ∧ _ =>
      assert (Chart.create_smooth_animation ys u n f = inr a) as Ha
        by (vm_compute; reflexivity)
  end.
  destruct (fractional_frame_lies_between_years _ _ _ _ _ 0%nat 1%nat 1985 Ha)
    as (q & Hq); [reflexivity|cbn; lia|lia|lia|cbn; lia|].
  exists q. split; [exact Ha|exact Hq].
Defined.

(** X19: the sample disk and a disk that holds nothing but its raster of
    1990. *)
Lemma csv_depends_only_on_rasters_witness :
  Csv.final_df (Csv.main disk_scenario) = Csv.final_df (Csv.main disk_csv_1990) ∧
  Csv.csv_file (Csv.main disk_scenario) = Csv.csv_file (Csv.main disk_csv_1990).
Proof.
  apply (csv_depends_only_on_rasters disk_scenario disk_csv_1990).
  intros year Hrange. each_year_of_range Hrange; vm_compute; reflexivity.
Defined.

(** X20 on the frame 1985.5 of the same frames. *)
Lemma interpolation_is_accurate_witness :
  let unified := Chart.unified_df (Chart.main disk_scenario) in
  let q := (3971 # 2)%Q in
  ∃ a frame,
    Chart.create_smooth_animation [1985; 1986] unified 1 2 = inr a ∧
    Chart.interpolated_data a !! 1%nat = Some frame ∧
    Forall2
      (λ row prev,
         Chart.Unified.classe row = Chart.Unified.classe prev ∧
         ∀ next,
           head (filter (λ r, Chart.Unified.year r = Qfloor q + 1 ∧
                              Chart.Unified.classe r =
                                Chart.Unified.classe prev) unified)
             = Some next →
           ∃ v p n,
             Chart.Unified.porcent row = Fin v ∧
             Chart.Unified.porcent prev = Fin p ∧
             Chart.Unified.porcent next = Fin n ∧
             let alpha := (q - inject_Z (Qfloor q))%Q in
             let exact := (p * (1 - alpha) + n * alpha)%Q in
             (Qabs (v - exact) <= (1 # 1000000000000000) * exact)%Q)
      frame
      (filter (λ r, Chart.Unified.year r = Qfloor q) unified).
Proof.
  intros unified q. eexists.
  match goal with
  | |- ∃ frame, Chart.create_smooth_animation ?ys ?u ?n ?f = inr ?a ∧ _ =>
      assert (Chart.create_smooth_animation ys u n f = inr a) as Ha
        by (vm_compute; reflexivity)
  end.
  destruct (interpolation_is_accurate _ _ _ _ _ 1%nat q Ha)
    as (frame & Hframe & H).
  - vm_compute. reflexivity.
  - vm_compute. discriminate.
  - vm_compute. reflexivity.
  - apply Forall_forall. intros r Hr.
    apply list_elem_of_In in Hr. vm_compute in Hr.
    repeat (destruct Hr as [<-|Hr];
            [eexists; split; [reflexivity|];
             right; split; vm_compute; discriminate|]).
    destruct Hr.
  - exists frame. split; [exact Ha|]. split; [exact Hframe|exact H].
Defined.


(** C8 on a disk without legend file and with the raster [[3]] of 1986. *)
Lemma legend_failure_witness :
  head (Chart.stdout (Chart.main disk_only_1986))
    = Some (ErroJson (FileNotFoundError Chart.json_path)) ∧
  ProcessandoAno 1986 ∈ Chart.stdout (Chart.main disk_only_1986) ∧
  ∃ df r,
    df ∈ Chart.tables (Chart.main disk_only_1986) ∧ r ∈ df ∧
    Chart.classe r = 3 ∧
    Chart.nome_pt r = "Classe 3 (não encontrada)"%string ∧
    Chart.cor_hex r = "#808080"%string.
Proof.
  split; [vm_compute; reflexivity|].
  destruct (proj2 (proj2 (proj2 (legend_failure_gives_placeholders
                                   disk_only_1986))))
    as (_ & _ & Hrun).
  { intros legend. vm_compute. discriminate. }
  destruct (Hrun 1986 [[3]]) as (Hout & df & Hdf & Hclasses).
  - lia.
  - vm_compute. reflexivity.
  - intros year' file' Hrange Hfile. assert (year' = 1985) as -> by lia.
    vm_compute in Hfile. discriminate Hfile.
  - destruct (Hclasses 3) as (r & Hr & Hc & Hname & Hcolour).
    + cbn. apply list_elem_of_here.
    + discriminate.
    + split; [exact Hout|]. exists df, r.
      split; [exact Hdf|]. split; [exact Hr|]. split; [exact Hc|].
      split; [exact Hname|exact Hcolour].
Defined.
